(** * pytronkitTelemetry: the telemetry flight recorder of [src/main.py]

    A shallow embedding of [PytronkittelemetryPlugin] and the proofs of the
    properties its specification states.

    Conventions of the embedding.
    - A Python [str] is a [string]; a character is a code point below 256
      (Latin-1), on which [lower] and [strip] below agree with Python's.
    - A Python object held in a state mapping is a [value].
    - A method is a computation of the monad [py]: it reads and writes the
      [world] (the plugin object and the process-wide state it touches) and
      either returns or raises.
    - What a call into the host or the operating system gives back is read
      from an [env] record, one per atomic step.
    - Threads interleave at the granularity of [event]s. *)

From Stdlib Require Import ZArith QArith Ascii String List Bool Lia.
From stdpp Require Import base option list strings gmap fin_maps.
Import ListNotations.

Local Open Scope string_scope.
Local Open Scope Z_scope.

(** ** Python strings *)

Module PyStr.

(** [str.lower] on one code point below 256: A-Z and the accented capitals
    of Latin-1 (U+00C0-U+00DE but the multiplication sign) move up by 32. *)
Definition lower_char (c : ascii) : ascii :=
  let n := N_of_ascii c in
  if ((65 <=? n) && (n <=? 90) ||
      (192 <=? n) && (n <=? 222) && negb (n =? 215))%N
  then ascii_of_N (n + 32) else c.

(** [str.isspace] on one code point below 256. *)
Definition isspace (c : ascii) : bool :=
  let n := N_of_ascii c in
  ((9 <=? n) && (n <=? 13) || (28 <=? n) && (n <=? 32) ||
   (n =? 133) || (n =? 160))%N.

Fixpoint lower (s : string) : string :=
  match s with
  | EmptyString => EmptyString
  | String c r => String (lower_char c) (lower r)
  end.

Fixpoint lstrip (s : string) : string :=
  match s with
  | EmptyString => EmptyString
  | String c r => if isspace c then lstrip r else s
  end.

Fixpoint rstrip (s : string) : string :=
  match s with
  | EmptyString => EmptyString
  | String c r =>
      match rstrip r with
      | EmptyString => if isspace c then EmptyString else String c EmptyString
      | r' => String c r'
      end
  end.

(** [s.strip()] *)
Definition strip (s : string) : string := rstrip (lstrip s).

Fixpoint startswith (p s : string) : bool :=
  match p, s with
  | EmptyString, _ => true
  | String a p', String b s' => if Ascii.eqb a b then startswith p' s' else false
  | String _ _, EmptyString => false
  end.

(** [needle in s] *)
Fixpoint contains (needle s : string) : bool :=
  startswith needle s ||
  match s with
  | EmptyString => false
  | String _ r => contains needle r
  end.

(** The string holds white space only. *)
Fixpoint blank (s : string) : bool :=
  match s with
  | EmptyString => true
  | String c r => isspace c && blank r
  end.

End PyStr.

(** ** Python values, exceptions and results *)

(** The objects a state mapping or a system-info mapping can hold. [VObject]
    stands for any object that [json.dumps] cannot encode. *)
#[warnings="-register-all"]
Inductive value : Type :=
| VNone
| VBool (b : bool)
| VInt (n : Z)
| VFloat (q : Q)
| VStr (s : string)
| VList (l : list value)
| VDict (d : list (string * value))
| VObject (repr : string).

(** [json.dumps v] succeeds. *)
Fixpoint json_ok (v : value) : bool :=
  match v with
  | VList l => forallb json_ok l
  | VDict d => forallb (fun kv => json_ok (snd kv)) d
  | VObject _ => false
  | _ => true
  end.

(** The exception classes the program can meet. [KeyboardInterrupt] and
    [SystemExit] derive from [BaseException] only. *)
Inductive exn : Type :=
| ImportError | ModuleNotFoundError
| AttributeError | TypeError | ValueError | RuntimeError | OSError
| RecursionError
| ConnectionError | Timeout
| Full | Empty
| KeyboardInterrupt | SystemExit.

(** [isinstance(e, Exception)] *)
Definition is_Exception (e : exn) : bool :=
  match e with
  | KeyboardInterrupt | SystemExit => false
  | _ => true
  end.

(** [isinstance(e, ImportError)] *)
Definition is_ImportError (e : exn) : bool :=
  match e with
  | ImportError | ModuleNotFoundError => true
  | _ => false
  end.

(** [isinstance(e, queue.Full)] *)
Definition is_Full (e : exn) : bool :=
  match e with Full => true | _ => false end.

(** A bare [except:] *)
Definition any_exn (_ : exn) : bool := true.

Inductive result (A : Type) : Type :=
| Return (a : A)
| Raise (e : exn).
Arguments Return {A} a.
Arguments Raise {A} e.

(** ** queue.Queue *)

Module PyQueue.
Section Queue.
Context {A : Type}.

Record Queue : Type := mkQueue {
  maxsize : Z;
  items : list A;
  unfinished_tasks : Z
}.

(** [Queue(maxsize=n)] *)
Definition new (n : Z) : Queue :=
  {| maxsize := n; items := []; unfinished_tasks := 0 |}.

Definition qsize (q : Queue) : Z := Z.of_nat (length (items q)).

(** [q.put_nowait(x)]: [Full] when the queue is bounded and at its bound. *)
Definition put_nowait (x : A) (q : Queue) : result unit * Queue :=
  if (0 <? maxsize q) && (maxsize q <=? qsize q)
  then (Raise Full, q)
  else (Return tt,
        {| maxsize := maxsize q;
           items := items q ++ [x];
           unfinished_tasks := unfinished_tasks q + 1 |}).

(** [q.get(timeout=t)] once the wait is over: the oldest item, or [Empty]. *)
Definition get (q : Queue) : result A * Queue :=
  match items q with
  | [] => (Raise Empty, q)
  | x :: rest =>
      (Return x,
       {| maxsize := maxsize q; items := rest;
          unfinished_tasks := unfinished_tasks q |})
  end.

(** [q.task_done()] *)
Definition task_done (q : Queue) : result unit * Queue :=
  if unfinished_tasks q <=? 0
  then (Raise ValueError, q)
  else (Return tt,
        {| maxsize := maxsize q; items := items q;
           unfinished_tasks := unfinished_tasks q - 1 |}).

End Queue.
Arguments Queue A : clear implicits.
End PyQueue.
Import PyQueue.


(** ** The data the plugin handles *)

(** The dict built at lines 125-132. *)
Record heartbeat : Type := {
  hb_type : string;
  hb_session : string;
  hb_state : gmap string value;
  hb_system : value;
  hb_ram_usage : value;
  hb_timestamp : Q
}.

(** The dict built at lines 142-149. *)
Record crash_report : Type := {
  cr_type : string;
  cr_session : string;
  cr_error : string;
  cr_traceback : string;
  cr_os : string;
  cr_last_state : gmap string value
}.

Inductive payload : Type :=
| HeartbeatPayload (hb : heartbeat)
| CrashPayload (cr : crash_report).

(** [json.dumps] succeeds on every value of a mapping with string keys. *)
Definition json_ok_map (m : gmap string value) : bool :=
  forallb (fun kv => json_ok (snd kv)) (map_to_list m).

(** [json.dumps(payload)]: the text is not modelled, only whether it exists. *)
Definition json_dumps (p : payload) : result unit :=
  match p with
  | HeartbeatPayload hb =>
      if json_ok_map (hb_state hb) && json_ok (hb_system hb) && json_ok (hb_ram_usage hb)
      then Return tt else Raise TypeError
  | CrashPayload cr =>
      if json_ok_map (cr_last_state cr) then Return tt else Raise TypeError
  end.

(** The triple an exception hook receives, as the handler uses it:
    [str(exc_value)] and the joined [traceback.format_exception]. *)
Record exc_info : Type := {
  exc_str : string;
  exc_formatted : string
}.

(** What [sys.excepthook] can hold: a hook of the host, or the bound method
    [self._crash_handler]. *)
Inductive hook : Type :=
| HostHook (id : nat)
| CrashHandler.

(** The [mode] argument: a [str], or any other hashable object. An object
    that cannot be hashed (a list, a dict) is outside the embedding: the
    constructor would store it as it is, and the lookup of line 89 would raise
    [TypeError] on it. *)
Inductive mode_value : Type :=
| ModeStr (s : string)
| ModeOther (repr : string).

(** [m == s] for a string literal [s]. *)
Definition mode_eq (m : mode_value) (s : string) : bool :=
  match m with
  | ModeStr s' => String.eqb s' s
  | ModeOther _ => false
  end.

(** An instance attribute that may not have been assigned yet. *)
Inductive attr (A : Type) : Type :=
| Unset
| Assigned (a : A).
Arguments Unset {A}.
Arguments Assigned {A} a.

Inductive level : Type := DEBUG | INFO | WARNING | ERROR.

(** The records the plugin writes to its logger, by format string. *)
Inductive message : Type :=
| MsgTimerSkipped                       (* line 74 *)
| MsgStarted (m : mode_value)           (* line 76 *)
| MsgQueueFull                          (* line 136 *)
| MsgSnapshotError (e : exn)            (* line 138 *)
| MsgCrashReport (cr : crash_report)    (* line 153 *)
| MsgCrashSendFailed (e : exn)          (* line 157 *)
| MsgTelemetryPayload (hb : heartbeat)  (* line 171 *)
| MsgSilentFailure (e : exn)            (* line 175 *)
| MsgTornDown.                          (* line 192 *)

(** One call of [requests.post(url, json=..., timeout=...)]. *)
Record post_call : Type := {
  post_url : string;
  post_json : payload;
  post_timeout : Z
}.

(** A [threading.Timer]: created, started and waiting, fired, or with its
    [finished] event set by [cancel()]. *)
Inductive timer_state : Type := Created | Waiting | Fired | Cancelled.

Record timer : Type := {
  interval : Q;
  tstate : timer_state
}.

(** Where a timer thread stands in [_start_snapshot_timer]. *)
Inductive tick_pc : Type :=
| AtGuard        (* line 79: about to test the stop flag and the mode *)
| AtSnapshot     (* line 97: about to test the stop flag again *)
| InSnapshot     (* lines 100-138: about to build and enqueue *)
| AtReschedule   (* lines 84-93: about to start the next timer *)
| TickDone.

(** The plugin object. *)
Record plugin : Type := {
  queue : Queue heartbeat;
  mode : mode_value;
  telemetry_url : string;
  crash_url : string;
  session_id : string;
  _stop_event : bool;
  _original_hook : option hook;
  _timer : attr (option nat)
}.

(** The plugin and the process-wide state it acts on. Four fields are
    histories of effects: the records logged, the [requests.post] calls made,
    the calls of the host's hooks, and the heartbeats [put_nowait] accepted. *)
Record world : Type := {
  self : plugin;
  sys_excepthook : hook;
  log : list (level * message);
  posts : list post_call;
  hook_calls : list (nat * exc_info);
  timers : list timer;
  ticks : list tick_pc;
  workers : nat;
  enqueued : list heartbeat
}.

(** What the calls out of the plugin give back during one atomic step. *)
Record env : Type := {
  app_valid : bool;                       (* line 102 *)
  to_dict : result (gmap string value);   (* self.app.state.to_dict().copy() *)
  get_system_info : result value;         (* line 114 *)
  platform_system : string;               (* line 116 *)
  platform_platform : string;             (* line 147 *)
  psutil_percent : result Q;              (* lines 120-121 *)
  time_time : Q;                          (* line 131 *)
  post_result : result unit;              (* requests.post *)
  worker_start : result unit;             (* line 64 *)
  timer_start : result unit;              (* line 93 *)
  recursion_room : nat                    (* nested calls of the handler by itself
                                             that the interpreter's stack holds *)
}.

(** ** Field updates *)

Definition with_queue (q : Queue heartbeat) (p : plugin) : plugin :=
  {| queue := q; mode := mode p; telemetry_url := telemetry_url p;
     crash_url := crash_url p; session_id := session_id p;
     _stop_event := _stop_event p; _original_hook := _original_hook p;
     _timer := _timer p |}.

Definition with_stop_event (b : bool) (p : plugin) : plugin :=
  {| queue := queue p; mode := mode p; telemetry_url := telemetry_url p;
     crash_url := crash_url p; session_id := session_id p;
     _stop_event := b; _original_hook := _original_hook p;
     _timer := _timer p |}.

Definition with_original_hook (h : option hook) (p : plugin) : plugin :=
  {| queue := queue p; mode := mode p; telemetry_url := telemetry_url p;
     crash_url := crash_url p; session_id := session_id p;
     _stop_event := _stop_event p; _original_hook := h;
     _timer := _timer p |}.

Definition with_timer (t : attr (option nat)) (p : plugin) : plugin :=
  {| queue := queue p; mode := mode p; telemetry_url := telemetry_url p;
     crash_url := crash_url p; session_id := session_id p;
     _stop_event := _stop_event p; _original_hook := _original_hook p;
     _timer := t |}.

Definition with_self (p : plugin) (w : world) : world :=
  {| self := p; sys_excepthook := sys_excepthook w; log := log w;
     posts := posts w; hook_calls := hook_calls w; timers := timers w;
     ticks := ticks w; workers := workers w; enqueued := enqueued w |}.

Definition with_excepthook (h : hook) (w : world) : world :=
  {| self := self w; sys_excepthook := h; log := log w;
     posts := posts w; hook_calls := hook_calls w; timers := timers w;
     ticks := ticks w; workers := workers w; enqueued := enqueued w |}.

Definition with_log (l : list (level * message)) (w : world) : world :=
  {| self := self w; sys_excepthook := sys_excepthook w; log := l;
     posts := posts w; hook_calls := hook_calls w; timers := timers w;
     ticks := ticks w; workers := workers w; enqueued := enqueued w |}.

Definition with_posts (l : list post_call) (w : world) : world :=
  {| self := self w; sys_excepthook := sys_excepthook w; log := log w;
     posts := l; hook_calls := hook_calls w; timers := timers w;
     ticks := ticks w; workers := workers w; enqueued := enqueued w |}.

Definition with_hook_calls (l : list (nat * exc_info)) (w : world) : world :=
  {| self := self w; sys_excepthook := sys_excepthook w; log := log w;
     posts := posts w; hook_calls := l; timers := timers w;
     ticks := ticks w; workers := workers w; enqueued := enqueued w |}.

Definition with_timers (l : list timer) (w : world) : world :=
  {| self := self w; sys_excepthook := sys_excepthook w; log := log w;
     posts := posts w; hook_calls := hook_calls w; timers := l;
     ticks := ticks w; workers := workers w; enqueued := enqueued w |}.

Definition with_ticks (l : list tick_pc) (w : world) : world :=
  {| self := self w; sys_excepthook := sys_excepthook w; log := log w;
     posts := posts w; hook_calls := hook_calls w; timers := timers w;
     ticks := l; workers := workers w; enqueued := enqueued w |}.

Definition with_workers (n : nat) (w : world) : world :=
  {| self := self w; sys_excepthook := sys_excepthook w; log := log w;
     posts := posts w; hook_calls := hook_calls w; timers := timers w;
     ticks := ticks w; workers := n; enqueued := enqueued w |}.

Definition with_enqueued (l : list heartbeat) (w : world) : world :=
  {| self := self w; sys_excepthook := sys_excepthook w; log := log w;
     posts := posts w; hook_calls := hook_calls w; timers := timers w;
     ticks := ticks w; workers := workers w; enqueued := l |}.


(** ** The monad of methods: state and exceptions *)

Definition py (A : Type) : Type := world -> result A * world.

Definition ret {A : Type} (a : A) : py A := fun w => (Return a, w).

Definition raise {A : Type} (e : exn) : py A := fun w => (Raise e, w).

Definition bind {A B : Type} (m : py A) (k : A -> py B) : py B :=
  fun w =>
    match m w with
    | (Return a, w') => k a w'
    | (Raise e, w') => (Raise e, w')
    end.

(** [try: body / except <catches> as e: handler e] *)
Definition try_except {A : Type} (body : py A) (catches : exn -> bool)
    (handler : exn -> py A) : py A :=
  fun w =>
    match body w with
    | (Return a, w') => (Return a, w')
    | (Raise e, w') => if catches e then handler e w' else (Raise e, w')
    end.

(** [try: body / finally: fin] *)
Definition try_finally {A : Type} (body : py A) (fin : py unit) : py A :=
  fun w =>
    match body w with
    | (r, w') =>
        match fin w' with
        | (Return _, w'') => (r, w'')
        | (Raise e, w'') => (Raise e, w'')
        end
    end.

Declare Scope py_scope.
Delimit Scope py_scope with py.
Bind Scope py_scope with py.
Notation "'let*' x ':=' m 'in' k" := (bind m (fun x => k))
  (at level 10, x name, m at level 100, k at level 200) : py_scope.
Notation "m '>>' k" := (bind m (fun _ => k))
  (at level 100, k at level 200, right associativity) : py_scope.
Local Open Scope py_scope.

(** The outcome of a call out of the plugin. *)
Definition call {A : Type} (r : result A) : py A := fun w => (r, w).

Definition get_self : py plugin := fun w => (Return (self w), w).

Definition modify_self (f : plugin -> plugin) : py unit :=
  fun w => (Return tt, with_self (f (self w)) w).

(** [sys.excepthook] read and assigned. *)
Definition get_excepthook : py hook := fun w => (Return (sys_excepthook w), w).

Definition set_excepthook (h : hook) : py unit :=
  fun w => (Return tt, with_excepthook h w).

(** [self.logger.<level>(msg)] *)
Definition logger (l : level) (m : message) : py unit :=
  fun w => (Return tt, with_log (log w ++ [(l, m)]) w).

(** [requests.post(url, json=p, timeout=t)]: the call is made, then it
    returns or raises as the network decides. *)
Definition requests_post (url : string) (p : payload) (t : Z) (r : result unit) : py unit :=
  fun w =>
    (r, with_posts (posts w ++ [{| post_url := url; post_json := p; post_timeout := t |}]) w).

(** [self.queue.put_nowait(hb)] *)
Definition queue_put_nowait (hb : heartbeat) : py unit :=
  fun w =>
    match put_nowait hb (queue (self w)) with
    | (Return _, q) =>
        (Return tt, with_enqueued (enqueued w ++ [hb]) (with_self (with_queue q (self w)) w))
    | (Raise e, q) => (Raise e, with_self (with_queue q (self w)) w)
    end.

(** [self.queue.get(timeout=5)] *)
Definition queue_get : py heartbeat :=
  fun w =>
    match get (queue (self w)) with
    | (r, q) => (r, with_self (with_queue q (self w)) w)
    end.

(** [self.queue.task_done()] *)
Definition queue_task_done : py unit :=
  fun w =>
    match task_done (queue (self w)) with
    | (r, q) => (r, with_self (with_queue q (self w)) w)
    end.

(** [threading.Timer(interval, self._start_snapshot_timer)]: the new timer's
    index. *)
Definition Timer (i : Q) : py nat :=
  fun w =>
    (Return (length (timers w)),
     with_timers (timers w ++ [{| interval := i; tstate := Created |}]) w).

Definition set_tstate (s : timer_state) (t : timer) : timer :=
  {| interval := interval t; tstate := s |}.

(** [t.start()]: the thread may fail to start; a timer cancelled before it
    starts never fires. *)
Definition Timer_start (t : nat) (r : result unit) : py unit :=
  fun w =>
    match r with
    | Raise e => (Raise e, w)
    | Return _ =>
        (Return tt,
         with_timers
           (alter (fun x => match tstate x with Created => set_tstate Waiting x | _ => x end)
                  t (timers w)) w)
    end.

(** [t.cancel()]: sets the timer's [finished] event; no effect once fired. *)
Definition Timer_cancel (t : nat) : py unit :=
  fun w =>
    (Return tt,
     with_timers
       (alter (fun x => match tstate x with Fired => x | _ => set_tstate Cancelled x end)
              t (timers w)) w).

(** Calling the hook [id] of the host: the call is recorded. *)
Definition call_hook (id : nat) (x : exc_info) : py unit :=
  fun w => (Return tt, with_hook_calls (hook_calls w ++ [(id, x)]) w).

(** ** The plugin *)

(** The arguments of the constructor and what it finds in the host. *)
Record init_args : Type := {
  arg_telemetry_url : option string;
  arg_crash_url : option string;
  arg_mode : mode_value;
  kwargs_url : option string;               (* kwargs.get("url") *)
  config_telemetry_url : option string;     (* app.config.get("telemetry_url") *)
  config_crash_url : option string;         (* app.config.get("crash_url") *)
  manifest_telemetry_url : option string;   (* plugin_manifest_config.get(...) *)
  manifest_crash_url : option string;
  state_session_id : option string          (* getattr(app.state, "session_id", ...) *)
}.

Definition default_telemetry_url : string := "https://api.myapp.com/telemetry".
Definition default_crash_url : string := "https://api.myapp.com/crash".

(** Truth value of [None] or a [str]. *)
Definition truthy (o : option string) : bool :=
  match o with
  | Some s => negb (String.eqb s "")
  | None => false
  end.

(** [a or b] *)
Definition py_or (a b : option string) : option string :=
  if truthy a then a else b.

(** [a or "literal"] *)
Definition or_default (a : option string) (d : string) : string :=
  match a with
  | Some s => if String.eqb s "" then d else s
  | None => d
  end.

(** Lines 21-25. *)
Definition normalize_mode (m : mode_value) : mode_value :=
  match m with
  | ModeStr s =>
      let s' := PyStr.strip (PyStr.lower s) in
      if String.eqb s' "error_only" || String.eqb s' "errors_only"
      then ModeStr "errors_only"
      else ModeStr s'
  | ModeOther r => ModeOther r
  end.

Definition __init__ (a : init_args) : plugin :=
  {| queue := PyQueue.new 100;
     mode := normalize_mode (arg_mode a);
     telemetry_url :=
       or_default (py_or (arg_telemetry_url a)
                    (py_or (kwargs_url a)
                       (py_or (config_telemetry_url a) (manifest_telemetry_url a))))
                  default_telemetry_url;
     crash_url :=
       or_default (py_or (arg_crash_url a)
                    (py_or (config_crash_url a) (manifest_crash_url a)))
                  default_crash_url;
     session_id := default "unknown-session" (state_session_id a);
     _stop_event := false;
     _original_hook := None;
     _timer := Unset |}.

(** The process right after the plugin is constructed: [h] is the exception
    hook in place. *)
Definition boot (a : init_args) (h : nat) : world :=
  {| self := __init__ a; sys_excepthook := HostHook h; log := []; posts := [];
     hook_calls := []; timers := []; ticks := []; workers := 0; enqueued := [] |}.

(** Line 110: the key survives the sanitization. *)
Definition safe_key (k : string) : bool :=
  negb (PyStr.contains "password" (PyStr.lower k)) &&
  negb (PyStr.contains "token" (PyStr.lower k)).

(** Line 110. *)
Definition sanitize (state_snapshot : gmap string value) : gmap string value :=
  filter (fun kv => safe_key (fst kv) = true) state_snapshot.

(** Lines 100-138 of [_snapshot_state]. *)
Definition snapshot_body (ev : env) : py unit :=
  try_except
    (if negb (app_valid ev) then ret tt else
     let* state_snapshot := call (to_dict ev) in
     let safe_state := sanitize state_snapshot in
     let* system_info :=
       try_except (call (get_system_info ev)) any_exn
         (fun _ => ret (VDict [("os", VStr (platform_system ev))])) in
     let* ram_usage :=
       try_except (let* pct := call (psutil_percent ev) in ret (VFloat pct))
         is_ImportError (fun _ => ret (VStr "unknown")) in
     let* p := get_self in
     let payload :=
       {| hb_type := "heartbeat"; hb_session := session_id p;
          hb_state := safe_state; hb_system := system_info;
          hb_ram_usage := ram_usage; hb_timestamp := time_time ev |} in
     try_except (queue_put_nowait payload) is_Full
       (fun _ => logger WARNING MsgQueueFull))
    is_Exception
    (fun e => logger ERROR (MsgSnapshotError e)).

Definition _snapshot_state (ev : env) : py unit :=
  let* p := get_self in
  if _stop_event p then ret tt else snapshot_body ev.

(** Lines 84-89: [intervals.get(self.mode, intervals["default"])], for a
    mode that can be hashed. *)
Definition intervals_get (m : mode_value) : Q :=
  if mode_eq m "activity" then 5
  else if mode_eq m "minimal" then 300
  else if mode_eq m "default" then 60
  else 60.

(** Lines 82-93 of [_start_snapshot_timer]. *)
Definition schedule_next (ev : env) : py unit :=
  let* p := get_self in
  let* t := Timer (intervals_get (mode p)) in
  modify_self (with_timer (Assigned (Some t))) >>
  Timer_start t (timer_start ev).

(** Line 79. *)
Definition timer_guard (p : plugin) : bool :=
  negb (_stop_event p) && negb (mode_eq (mode p) "errors_only").

Definition _start_snapshot_timer (ev : env) : py unit :=
  let* p := get_self in
  if timer_guard p
  then _snapshot_state ev >> schedule_next ev
  else ret tt.

(** Lines 142-157 of [_crash_handler]: the report is built, logged and
    sent. *)
Definition crash_body (x : exc_info) (ev : env) : py unit :=
  let* p := get_self in
  let* last_state := call (to_dict ev) in
  let crash_report :=
    {| cr_type := "crash"; cr_session := session_id p;
       cr_error := exc_str x; cr_traceback := exc_formatted x;
       cr_os := platform_platform ev; cr_last_state := last_state |} in
  try_except
    (call (json_dumps (CrashPayload crash_report)) >>
     logger ERROR (MsgCrashReport crash_report) >>
     if negb (PyStr.contains "myapp.com" (crash_url p))
     then requests_post (crash_url p) (CrashPayload crash_report) 2 (post_result ev)
     else ret tt)
    is_Exception
    (fun e => logger ERROR (MsgCrashSendFailed e)).

(** [_crash_handler] while the interpreter's stack holds [room] more calls of
    the handler by itself. Line 161 calls whatever [_original_hook] holds: a
    hook of the host, or, when [setup] found the handler already installed,
    the handler itself, which then builds, logs and sends its report once
    more and calls itself again, until the interpreter raises
    [RecursionError]. *)
Fixpoint crash_handler_nested (room : nat) (x : exc_info) (ev : env) : py unit :=
  crash_body x ev >>
  let* p := get_self in
  match _original_hook p with
  | Some (HostHook id) => call_hook id x
  | Some CrashHandler =>
      match room with
      | O => raise RecursionError
      | S room' => crash_handler_nested room' x ev
      end
  | None => ret tt
  end.

Definition _crash_handler (x : exc_info) (ev : env) : py unit :=
  crash_handler_nested (recursion_room ev) x ev.

(** Lines 166-180: one pass of the loop of [_upload_worker]. *)
Definition upload_pass (ev : env) : py unit :=
  try_except
    (let* payload := queue_get in
     try_finally
       (try_except
          (call (json_dumps (HeartbeatPayload payload)) >>
           logger DEBUG (MsgTelemetryPayload payload) >>
           let* p := get_self in
           if negb (PyStr.contains "myapp.com" (telemetry_url p))
           then requests_post (telemetry_url p) (HeartbeatPayload payload) 5 (post_result ev)
           else ret tt)
          is_Exception
          (fun e => logger DEBUG (MsgSilentFailure e)))
       queue_task_done)
    any_exn
    (fun _ => ret tt).

(** One turn of the [while] of [_upload_worker] on a live worker thread:
    the thread ends when it finds the stop flag set, and runs one pass of
    the loop otherwise. *)
Definition _upload_worker (ev : env) : py unit :=
  fun w =>
    match workers w with
    | O => (Return tt, w)
    | S n =>
        if _stop_event (self w)
        then (Return tt, with_workers n w)
        else upload_pass ev w
    end.

(** Lines 63-64: from here on the worker thread exists. It takes its turns
    as [WorkerStep] events between the calls of the host, and as the turns of
    [setup_beside_worker] while [setup] is still running. *)
Definition start_worker (ev : env) : py unit :=
  fun w =>
    match worker_start ev with
    | Raise e => (Raise e, w)
    | Return _ => (Return tt, with_workers (S (workers w)) w)
    end.

Definition setup (ev : env) : py unit :=
  modify_self (with_timer (Assigned None)) >>
  start_worker ev >>
  let* h := get_excepthook in
  modify_self (with_original_hook (Some h)) >>
  set_excepthook CrashHandler >>
  let* p := get_self in
  (if negb (mode_eq (mode p) "errors_only")
   then _start_snapshot_timer ev
   else logger INFO MsgTimerSkipped) >>
  logger INFO (MsgStarted (mode p)).

Definition teardown : py unit :=
  modify_self (with_stop_event true) >>
  let* p := get_self in
  match _timer p with
  | Unset => raise AttributeError
  | Assigned t =>
      match t with
      | Some i => try_except (Timer_cancel i) any_exn (fun _ => ret tt)
      | None => ret tt
      end >>
      match _original_hook p with
      | Some h => set_excepthook h
      | None => ret tt
      end >>
      logger INFO MsgTornDown
  end.


(** ** The process: threads and their interleaving *)

(** An unhandled exception reaches [sys.excepthook]. *)
Definition excepthook (x : exc_info) (ev : env) : py unit :=
  fun w =>
    match sys_excepthook w with
    | HostHook id => call_hook id x w
    | CrashHandler => _crash_handler x ev w
    end.

(** The interval of timer [t] elapses: [Timer.run] calls the function on a
    thread of its own unless the timer was cancelled. *)
Definition timer_fires (t : nat) : py unit :=
  fun w =>
    match timers w !! t with
    | Some tm =>
        match tstate tm with
        | Waiting =>
            (Return tt,
             with_ticks (ticks w ++ [AtGuard])
               (with_timers (alter (set_tstate Fired) t (timers w)) w))
        | _ => (Return tt, w)
        end
    | None => (Return tt, w)
    end.

Definition set_pc (i : nat) (pc : tick_pc) : py unit :=
  fun w => (Return tt, with_ticks (<[i := pc]> (ticks w)) w).

(** Timer thread [i] runs [_start_snapshot_timer] up to its next program
    point. The stop flag is read at [AtGuard] and at [AtSnapshot]; nothing
    between the second read and the [put_nowait] reads it again. A thread
    whose code raises ends. *)
Definition tick_step (i : nat) (ev : env) : py unit :=
  fun w =>
    match ticks w !! i with
    | Some AtGuard =>
        set_pc i (if timer_guard (self w) then AtSnapshot else TickDone) w
    | Some AtSnapshot =>
        set_pc i (if _stop_event (self w) then AtReschedule else InSnapshot) w
    | Some InSnapshot =>
        match snapshot_body ev w with
        | (Return _, w') => set_pc i AtReschedule w'
        | (Raise e, w') => (Raise e, snd (set_pc i TickDone w'))
        end
    | Some AtReschedule =>
        match schedule_next ev w with
        | (r, w') => (r, snd (set_pc i TickDone w'))
        end
    | Some TickDone | None => (Return tt, w)
    end.

Inductive event : Type :=
| CallSetup (ev : env)                  (* the host calls setup() *)
| CallTeardown                          (* the host calls teardown() *)
| Unhandled (x : exc_info) (ev : env)   (* an exception nobody caught *)
| TimerFires (t : nat)
| TickStep (i : nat) (ev : env)
| WorkerStep (ev : env).

Definition exec (e : event) : py unit :=
  match e with
  | CallSetup ev => setup ev
  | CallTeardown => teardown
  | Unhandled x ev => excepthook x ev
  | TimerFires t => timer_fires t
  | TickStep i ev => tick_step i ev
  | WorkerStep ev => _upload_worker ev
  end.

Definition step (w : world) (e : event) : world := snd (exec e w).

(** The world after a schedule of events, oldest first. *)
Definition run (es : list event) (w : world) : world := fold_left step es w.

(** Timer threads past both reads of the stop flag that have not reached
    their [put_nowait] yet. *)
Definition in_snapshot (pc : tick_pc) : bool :=
  match pc with InSnapshot => true | _ => false end.

Definition in_flight (w : world) : nat :=
  length (List.filter in_snapshot (ticks w)).


(** ** Notions the properties are stated with *)

(** A sequence of enqueue operations on a queue. *)
Definition put_all (hbs : list heartbeat) (q : Queue heartbeat) : Queue heartbeat :=
  fold_left (fun q hb => snd (put_nowait hb q)) hbs q.

(** The lowercase form of the key contains [password] or [token]. *)
Definition sensitive (k : string) : bool :=
  PyStr.contains "password" (PyStr.lower k) || PyStr.contains "token" (PyStr.lower k).

(** The condition under which each send site reaches [requests.post]: the
    payload was serialised for the log and the URL has no [myapp.com] in it. *)
Definition sendable (url : string) (p : payload) : bool :=
  match json_dumps p with
  | Return _ => negb (PyStr.contains "myapp.com" url)
  | Raise _ => false
  end.

Fixpoint skip (n : nat) (s : string) : string :=
  match n, s with
  | S n', String _ r => skip n' r
  | _, _ => s
  end.

(** The text after the first occurrence of [m] in [s]. *)
Fixpoint after (m s : string) : option string :=
  if PyStr.startswith m s then Some (skip (String.length m) s)
  else match s with
       | EmptyString => None
       | String _ r => after m r
       end.

(** The text before the first [/]. *)
Fixpoint before_slash (s : string) : string :=
  match s with
  | EmptyString => EmptyString
  | String c r => if Ascii.eqb c "/" then EmptyString else String c (before_slash r)
  end.

(** The host of a URL in the sense of the specification's wording (the code
    has no such notion): what stands between the scheme's [://] and the next
    [/]. *)
Definition url_host (url : string) : string :=
  before_slash (default url (after "://" url)).

(** The heartbeat that [snapshot_body] puts on the queue when it gets that
    far, from what the host answers. *)
Definition built_heartbeat (ev : env) (p : plugin) (st : gmap string value) : heartbeat :=
  {| hb_type := "heartbeat"; hb_session := session_id p;
     hb_state := sanitize st;
     hb_system := match get_system_info ev with
                  | Return v => v
                  | Raise _ => VDict [("os", VStr (platform_system ev))]
                  end;
     hb_ram_usage := match psutil_percent ev with
                     | Return pct => VFloat pct
                     | Raise _ => VStr "unknown"
                     end;
     hb_timestamp := time_time ev |}.

(** The report that [_crash_handler] builds at lines 142-149. *)
Definition built_crash_report (x : exc_info) (ev : env) (p : plugin)
    (st : gmap string value) : crash_report :=
  {| cr_type := "crash"; cr_session := session_id p;
     cr_error := exc_str x; cr_traceback := exc_formatted x;
     cr_os := platform_platform ev; cr_last_state := st |}.

(** An invariant of the world that a computation keeps, however it ends. *)
Definition preserves {A : Type} (P : world -> Prop) (m : py A) : Prop :=
  forall w, P w -> P (snd (m w)).

Definition is_setup (e : event) : bool :=
  match e with CallSetup _ => true | _ => false end.

(** The stop flag is set. *)
Definition stopped (w : world) : Prop := _stop_event (self w) = true.

(** The plugin's queue is the bounded queue the constructor made it. *)
Definition queue_bounded (w : world) : Prop :=
  maxsize (queue (self w)) = 100 /\ qsize (queue (self w)) <= 100.

(** In [errors_only] mode nothing was ever enqueued and no timer or timer
    thread exists. *)
Definition idle (w : world) : Prop :=
  mode_eq (mode (self w)) "errors_only" = true /\
  enqueued w = [] /\ timers w = [] /\ ticks w = [].

(** What a snapshot leaves alone: everything but the queue, the log and the
    history of accepted heartbeats. *)
Definition snapshot_frame (w w' : world) : Prop :=
  with_queue (queue (self w)) (self w') = self w /\
  sys_excepthook w' = sys_excepthook w /\ posts w' = posts w /\
  hook_calls w' = hook_calls w /\ timers w' = timers w /\
  ticks w' = ticks w /\ workers w' = workers w.

(** [setup] never ran: the attribute [_timer] does not exist, and neither
    does any timer or timer thread. *)
Definition never_set_up (w : world) : Prop :=
  _timer (self w) = Unset /\ timers w = [] /\ ticks w = [].

(** [setup] ran once, all or in part, when [h] was the exception hook: the
    attribute [_timer] exists, and either the hook was saved and the slot
    holds the plugin's handler or [h], or nothing was saved and the slot holds
    [h]. *)
Definition set_up_once (h : nat) (w : world) : Prop :=
  _timer (self w) <> Unset /\
  ((_original_hook (self w) = Some (HostHook h) /\
    (sys_excepthook w = CrashHandler \/ sys_excepthook w = HostHook h)) \/
   (_original_hook (self w) = None /\ sys_excepthook w = HostHook h)).

(** The stop flag is set; nothing was enqueued and no timer thread moved
    since the world [w0]. *)
Definition quiet_since (w0 w : world) : Prop :=
  stopped w /\ enqueued w = enqueued w0 /\ ticks w = ticks w0.

Definition no_setup (es : list event) : bool :=
  forallb (fun e => negb (is_setup e)) es.

(** Lines 70-76 of [setup], after the hook is installed. *)
Definition setup_tail (ev : env) : py unit :=
  let* p := get_self in
  (if negb (mode_eq (mode p) "errors_only")
   then _start_snapshot_timer ev
   else logger INFO MsgTimerSkipped) >>
  logger INFO (MsgStarted (mode p)).

(** The world in which [setup] reaches line 70: the attribute [_timer]
    exists, one more worker runs, the hook found in [sys.excepthook] is saved
    and the plugin's handler is in its place. *)
Definition hook_installed (w : world) : world :=
  with_excepthook CrashHandler
    (with_self (with_original_hook (Some (sys_excepthook w))
                  (with_timer (Assigned None) (self w)))
       (with_workers (S (workers w)) w)).

(** The host calls [setup] or [teardown]. *)
Definition is_lifecycle (e : event) : bool :=
  match e with CallSetup _ | CallTeardown => true | _ => false end.

(** [_original_hook] holds [oh], [sys.excepthook] holds [sh], and the
    attribute [_timer] exists. *)
Definition hooks_are (oh : option hook) (sh : hook) (w : world) : Prop :=
  _original_hook (self w) = oh /\ sys_excepthook w = sh /\ _timer (self w) <> Unset.

(** The first operand of an [or] chain that is truthy. *)
Fixpoint first_truthy (l : list (option string)) : option string :=
  match l with
  | [] => None
  | o :: rest => if truthy o then o else first_truthy rest
  end.

(** A computation raises nothing but the exceptions of [C]. *)
Definition raises_only {A : Type} (C : exn -> Prop) (m : py A) : Prop :=
  forall w, match fst (m w) with Return _ => True | Raise e => C e end.

(** The heartbeats among the payloads handed to the transport, in order. *)
Definition heartbeat_posts (ps : list post_call) : list heartbeat :=
  omap (fun p => match post_json p with
                 | HeartbeatPayload hb => Some hb
                 | CrashPayload _ => None
                 end) ps.

(** A call of the transport as the two send sites make it: to a URL without
    [myapp.com]; a heartbeat to the telemetry URL with 5 seconds, a crash
    report to the crash URL with 2. *)
Definition post_well_formed (tu cu : string) (p : post_call) : Prop :=
  PyStr.contains "myapp.com" (post_url p) = false /\
  match post_json p with
  | HeartbeatPayload _ => post_url p = tu /\ post_timeout p = 5
  | CrashPayload _ => post_url p = cu /\ post_timeout p = 2
  end.

(** The endpoints are [tu] and [cu] and every call of the transport so far
    was well formed. *)
Definition posts_well_formed (tu cu : string) (w : world) : Prop :=
  telemetry_url (self w) = tu /\ crash_url (self w) = cu /\
  Forall (post_well_formed tu cu) (posts w).

(** What the queue accepted is what the worker has taken, followed by what
    is still queued; the heartbeats posted are the taken ones that were
    [sendable], in the order taken. *)
Definition fifo (tu : string) (w : world) : Prop :=
  telemetry_url (self w) = tu /\
  exists taken,
    enqueued w = (taken ++ items (queue (self w)))%list /\
    heartbeat_posts (posts w) =
      List.filter (fun hb => sendable tu (HeartbeatPayload hb)) taken.

(** No sensitive key in the heartbeat's state. *)
Definition clean (hb : heartbeat) : Prop :=
  forall k, sensitive k = true -> hb_state hb !! k = None.

(** The plugin saved its own handler as the hook to restore. *)
Definition hooked_on_itself (w : world) : Prop :=
  _original_hook (self w) = Some CrashHandler /\ sys_excepthook w = CrashHandler /\
  _timer (self w) <> Unset.

(** The timer waits for its interval to elapse. *)
Definition waiting (t : timer) : bool :=
  match tstate t with Waiting => true | _ => false end.

(** The timer thread has not ended. *)
Definition running (pc : tick_pc) : bool :=
  match pc with TickDone => false | _ => true end.

(** The links of the scheduler's chain that are alive: waiting timers and
    running timer threads. *)
Definition chain_links (w : world) : nat :=
  (length (List.filter waiting (timers w)) + length (List.filter running (ticks w)))%nat.

(** What the scheduler's chain consists of. *)
Definition chain_view (w : world) : list timer * list tick_pc * attr (option nat) :=
  (timers w, ticks w, _timer (self w)).

(** The chain has at most one live link, and a waiting timer is the one
    [_timer] refers to. *)
Definition one_chain (w : world) : Prop :=
  (chain_links w <= 1)%nat /\
  forall t tm, timers w !! t = Some tm -> tstate tm = Waiting ->
               _timer (self w) = Assigned (Some t).

(** The timer thread has passed the guard of line 79 and is yet to start the
    next timer. *)
Definition past_guard (pc : tick_pc) : bool :=
  match pc with AtSnapshot | InSnapshot | AtReschedule => true | _ => false end.

(** The timers created so far, and those that the timer threads past the
    guard are yet to create. *)
Definition timers_due (w : world) : nat :=
  (length (timers w) + length (List.filter past_guard (ticks w)))%nat.

(** 1 for an element that satisfies [f], 0 for another. *)
Definition weight {A : Type} (f : A -> bool) (x : A) : nat := if f x then 1%nat else 0%nat.

(** The heartbeat is tagged as one and names session [s]. *)
Definition heartbeat_of_session (s : string) (hb : heartbeat) : Prop :=
  hb_type hb = "heartbeat" /\ hb_session hb = s.

(** The crash report is tagged as one and names session [s]. *)
Definition crash_of_session (s : string) (cr : crash_report) : Prop :=
  cr_type cr = "crash" /\ cr_session cr = s.

(** What was posted is a heartbeat or a crash report of session [s]. *)
Definition post_of_session (s : string) (p : post_call) : Prop :=
  match post_json p with
  | HeartbeatPayload hb => heartbeat_of_session s hb
  | CrashPayload cr => crash_of_session s cr
  end.

(** A crash report, if it is one, is of session [s]. *)
Definition crash_post_of_session (s : string) (p : post_call) : Prop :=
  match post_json p with
  | HeartbeatPayload _ => True
  | CrashPayload cr => crash_of_session s cr
  end.

(** The plugin's session is [s], and so is that of every heartbeat the queue
    accepted and of every crash report posted. *)
Definition one_session (s : string) (w : world) : Prop :=
  session_id (self w) = s /\
  Forall (heartbeat_of_session s) (enqueued w) /\
  Forall (crash_post_of_session s) (posts w).

(** The worker thread takes turns of its loop, each with what the host
    answers then. *)
Definition worker_turns (evs : list env) : py unit :=
  fun w => (Return tt, fold_left (fun v ev => snd (_upload_worker ev v)) evs w).

(** [_start_snapshot_timer] while another thread, the worker, takes turns:
    [before] the snapshot of line 80, [between] the snapshot and line 84,
    and [after] line 93. *)
Definition start_snapshot_timer_beside_worker
    (ev : env) (before between after : list env) : py unit :=
  let* p := get_self in
  if timer_guard p
  then worker_turns before >> _snapshot_state ev >>
       worker_turns between >> schedule_next ev >> worker_turns after
  else ret tt.

(** [setup] as the process runs it: the worker thread that line 64 starts
    takes its turns while [setup] goes on. *)
Definition setup_beside_worker (ev : env) (before between after : list env) : py unit :=
  modify_self (with_timer (Assigned None)) >>
  start_worker ev >>
  let* h := get_excepthook in
  modify_self (with_original_hook (Some h)) >>
  set_excepthook CrashHandler >>
  let* p := get_self in
  (if negb (mode_eq (mode p) "errors_only")
   then start_snapshot_timer_beside_worker ev before between after
   else logger INFO MsgTimerSkipped) >>
  logger INFO (MsgStarted (mode p)).

(** The queue has accepted [hb] and nothing else, and [hb] is still queued
    or has been taken. *)
Definition first_beat (hb : heartbeat) (w : world) : Prop :=
  enqueued w = [hb] /\
  (items (queue (self w)) = [hb] \/ items (queue (self w)) = []).

(** The plugin's mode is [m] and every timer has the interval of [m]. *)
Definition timers_of_mode (m : mode_value) (w : world) : Prop :=
  mode (self w) = m /\ Forall (fun tm => interval tm = intervals_get m) (timers w).

(** ** Concrete inputs *)

Module Scenario.

(** The constructor called with [mode] and nothing else configured. *)
Definition args (m : string) : init_args :=
  {| arg_telemetry_url := None; arg_crash_url := None; arg_mode := ModeStr m;
     kwargs_url := None; config_telemetry_url := None; config_crash_url := None;
     manifest_telemetry_url := None; manifest_crash_url := None;
     state_session_id := Some "s-1" |}.

(** The same with both endpoints set to [url]. *)
Definition args_with_url (m url : string) : init_args :=
  {| arg_telemetry_url := Some url; arg_crash_url := Some url; arg_mode := ModeStr m;
     kwargs_url := None; config_telemetry_url := None; config_crash_url := None;
     manifest_telemetry_url := None; manifest_crash_url := None;
     state_session_id := Some "s-1" |}.

Definition app_state : gmap string value :=
  <["userPassword" := VStr "hunter2"]>
    (<["API_TOKEN" := VStr "abc"]> (<["theme" := VStr "dark"]> ∅)).

(** A host in good health with [psutil] installed. *)
Definition healthy : env :=
  {| app_valid := true;
     to_dict := Return app_state;
     get_system_info := Return (VDict [("os", VStr "Linux")]);
     platform_system := "Linux"; platform_platform := "Linux-6.1-x86_64";
     psutil_percent := Return (Qmake 425 10); time_time := 1700000000;
     post_result := Return tt; worker_start := Return tt; timer_start := Return tt;
     recursion_room := 987 |}.

(** The same host whose RAM metric ends with [r]. *)
Definition with_psutil (r : result Q) : env :=
  {| app_valid := true;
     to_dict := Return app_state;
     get_system_info := Return (VDict [("os", VStr "Linux")]);
     platform_system := "Linux"; platform_platform := "Linux-6.1-x86_64";
     psutil_percent := r; time_time := 1700000000;
     post_result := Return tt; worker_start := Return tt; timer_start := Return tt;
     recursion_room := 987 |}.

(** The same host whose state cannot be read. *)
Definition state_unreadable : env :=
  {| app_valid := true;
     to_dict := Raise RuntimeError;
     get_system_info := Return (VDict [("os", VStr "Linux")]);
     platform_system := "Linux"; platform_platform := "Linux-6.1-x86_64";
     psutil_percent := Return (Qmake 425 10); time_time := 1700000000;
     post_result := Return tt; worker_start := Return tt; timer_start := Return tt;
     recursion_room := 987 |}.

(** The same host when no more thread can be started. *)
Definition no_threads : env :=
  {| app_valid := true;
     to_dict := Return app_state;
     get_system_info := Return (VDict [("os", VStr "Linux")]);
     platform_system := "Linux"; platform_platform := "Linux-6.1-x86_64";
     psutil_percent := Return (Qmake 425 10); time_time := 1700000000;
     post_result := Return tt; worker_start := Raise RuntimeError;
     timer_start := Raise RuntimeError; recursion_room := 987 |}.

(** The same host without a [get_system_info] method. *)
Definition no_system_info : env :=
  {| app_valid := true;
     to_dict := Return app_state;
     get_system_info := Raise AttributeError;
     platform_system := "Linux"; platform_platform := "Linux-6.1-x86_64";
     psutil_percent := Return (Qmake 425 10); time_time := 1700000000;
     post_result := Return tt; worker_start := Return tt; timer_start := Return tt;
     recursion_room := 987 |}.

(** The same host whose transport fails with [r]. *)
Definition with_post (r : result unit) : env :=
  {| app_valid := true;
     to_dict := Return app_state;
     get_system_info := Return (VDict [("os", VStr "Linux")]);
     platform_system := "Linux"; platform_platform := "Linux-6.1-x86_64";
     psutil_percent := Return (Qmake 425 10); time_time := 1700000000;
     post_result := r; worker_start := Return tt; timer_start := Return tt;
     recursion_room := 987 |}.

(** The same host whose state holds an object [json.dumps] cannot encode. *)
Definition unserialisable_state : env :=
  {| app_valid := true;
     to_dict := Return (<["window" := VObject "<Window object>"]> app_state);
     get_system_info := Return (VDict [("os", VStr "Linux")]);
     platform_system := "Linux"; platform_platform := "Linux-6.1-x86_64";
     psutil_percent := Return (Qmake 425 10); time_time := 1700000000;
     post_result := Return tt; worker_start := Return tt; timer_start := Return tt;
     recursion_room := 987 |}.

(** An endpoint of the integrator's own. *)
Definition real_url : string := "https://telemetry.example.org/ingest".

Definition boom : exc_info :=
  {| exc_str := "division by zero";
     exc_formatted := "Traceback (most recent call last): ZeroDivisionError" |}.

(** A URL on a host of the integrator's own, with [myapp.com] in its path. *)
Definition own_host_url : string := "https://telemetry.example.org/myapp.com/ingest".

(** The heartbeat the healthy host yields. *)
Definition heartbeat_of (ram : value) : heartbeat :=
  {| hb_type := "heartbeat"; hb_session := "s-1";
     hb_state := {["theme" := VStr "dark"]};
     hb_system := VDict [("os", VStr "Linux")];
     hb_ram_usage := ram; hb_timestamp := 1700000000 |}.

End Scenario.

(** * Proofs *)

(** ** Strings *)

Section StringFacts.
Import PyStr.

Lemma isspace_lower_char (c : ascii) : isspace (lower_char c) = isspace c.
Proof. destruct c as [[] [] [] [] [] [] [] []]; reflexivity. Qed.

Lemma lower_app (s t : string) : lower (s ++ t) = lower s ++ lower t.
Proof. induction s as [|c s IH]; simpl; [reflexivity | now rewrite IH]. Qed.

Lemma blank_lower (s : string) : blank (lower s) = blank s.
Proof.
  induction s as [|c s IH]; simpl; [reflexivity|].
  now rewrite isspace_lower_char, IH.
Qed.

Lemma lstrip_blank (ws : string) : blank ws = true -> lstrip ws = "".
Proof.
  induction ws as [|c ws IH]; simpl; [reflexivity|].
  intros [Hc Hws]%andb_prop. rewrite Hc. auto.
Qed.

Lemma rstrip_blank (ws : string) : blank ws = true -> rstrip ws = "".
Proof.
  induction ws as [|c ws IH]; simpl; [reflexivity|].
  intros [Hc Hws]%andb_prop. rewrite (IH Hws), Hc. reflexivity.
Qed.

Lemma lstrip_blank_app (ws s : string) :
  blank ws = true -> lstrip (ws ++ s) = lstrip s.
Proof.
  induction ws as [|c ws IH]; simpl; [reflexivity|].
  intros [Hc Hws]%andb_prop. rewrite Hc. auto.
Qed.

Lemma rstrip_app_blank (s ws : string) :
  blank ws = true -> rstrip (s ++ ws) = rstrip s.
Proof.
  intros Hws. induction s as [|c s IH]; simpl.
  - now apply rstrip_blank.
  - now rewrite IH.
Qed.

Lemma strip_app_blank (s ws : string) :
  blank ws = true -> strip (s ++ ws) = strip s.
Proof.
  intros Hws. unfold strip. induction s as [|c s IH].
  - change ("" ++ ws) with ws. now rewrite (lstrip_blank ws Hws).
  - change (String c s ++ ws) with (String c (s ++ ws)). cbn [lstrip]. destruct (isspace c); [exact IH|].
    exact (rstrip_app_blank (String c s) ws Hws).
Qed.

(** White space around a string does not survive [strip]. *)
Lemma strip_padded (ws1 s ws2 : string) :
  blank ws1 = true -> blank ws2 = true -> strip (ws1 ++ s ++ ws2) = strip s.
Proof.
  intros H1 H2. unfold strip. rewrite (lstrip_blank_app ws1 _ H1).
  exact (strip_app_blank s ws2 H2).
Qed.

Lemma startswith_spec (p s : string) :
  startswith p s = true <-> exists post, s = p ++ post.
Proof.
  revert s. induction p as [|a p IH]; intros s; simpl.
  - split; [intros _; now exists s | reflexivity].
  - destruct s as [|b s].
    + split; [discriminate | intros [post H]; discriminate].
    + destruct (Ascii.eqb_spec a b) as [->|Hne].
      * rewrite IH. split; intros [post H]; exists post; [now rewrite H | now injection H].
      * split; [discriminate | intros [post H]; injection H; congruence].
Qed.

(** [contains] is Python's substring test. *)
Lemma contains_spec (needle s : string) :
  contains needle s = true <-> exists pre post, s = pre ++ needle ++ post.
Proof.
  induction s as [|c s IH].
  - cbn [contains]. rewrite orb_false_r, startswith_spec. split.
    + intros [post H]. now exists "", post.
    + intros [[|a pre] [post H]]; [now exists post | discriminate].
  - cbn [contains]. rewrite orb_true_iff, startswith_spec, IH. split.
    + intros [[post H] | (pre & post & H)].
      * now exists "", post.
      * exists (String c pre), post. now rewrite H.
    + intros [[|a pre] [post H]].
      * left. now exists post.
      * right. injection H as _ H. now exists pre, post.
Qed.

End StringFacts.

(** ** The bounded queue *)

Section QueueFacts.
Context {A : Type}.
Implicit Types (q : Queue A) (x : A).

Lemma put_nowait_full q x :
  0 < maxsize q -> maxsize q <= qsize q -> put_nowait x q = (Raise Full, q).
Proof.
  intros Hpos Hfull. unfold put_nowait.
  destruct (Z.ltb_spec 0 (maxsize q)); [|lia].
  destruct (Z.leb_spec (maxsize q) (qsize q)); [reflexivity | lia].
Qed.

Lemma put_nowait_room q x :
  qsize q < maxsize q ->
  put_nowait x q =
    (Return tt, {| maxsize := maxsize q; items := items q ++ [x];
                   unfinished_tasks := unfinished_tasks q + 1 |}).
Proof.
  intros Hroom. unfold put_nowait.
  destruct (Z.leb_spec (maxsize q) (qsize q)); [lia|].
  now rewrite andb_false_r.
Qed.

Lemma put_nowait_maxsize q x : maxsize (snd (put_nowait x q)) = maxsize q.
Proof. unfold put_nowait. now destruct (_ && _). Qed.

Lemma put_nowait_bound q x :
  0 < maxsize q -> qsize q <= maxsize q ->
  qsize (snd (put_nowait x q)) <= maxsize q.
Proof.
  intros Hpos Hle. unfold put_nowait.
  destruct (Z.ltb_spec 0 (maxsize q)); [|lia].
  destruct (Z.leb_spec (maxsize q) (qsize q)); simpl; [exact Hle|].
  unfold qsize in *. simpl. rewrite length_app. simpl. lia.
Qed.

Lemma get_maxsize q : maxsize (snd (get q)) = maxsize q.
Proof. unfold get. now destruct (items q). Qed.

Lemma get_bound q : qsize (snd (get q)) <= qsize q.
Proof.
  unfold get, qsize.
  destruct (items q) eqn:E; cbn [snd items]; rewrite ?E; cbn [length]; lia.
Qed.

Lemma task_done_queue q :
  maxsize (snd (task_done q)) = maxsize q /\ items (snd (task_done q)) = items q.
Proof. unfold task_done. now destruct (_ <=? _). Qed.

End QueueFacts.

Lemma put_all_spec (hbs : list heartbeat) :
  forall q : Queue heartbeat,
    0 < maxsize q -> qsize q <= maxsize q ->
    maxsize (put_all hbs q) = maxsize q /\
    items (put_all hbs q) =
      (items q ++ take (Z.to_nat (maxsize q) - length (items q)) hbs)%list.
Proof.
  induction hbs as [|hb hbs IH]; intros q Hpos Hle.
  - simpl. now rewrite take_nil, app_nil_r.
  - change (put_all (hb :: hbs) q) with (put_all hbs (snd (put_nowait hb q))).
    destruct (Z.le_gt_cases (maxsize q) (qsize q)) as [Hfull | Hroom].
    + rewrite (put_nowait_full q hb Hpos Hfull). simpl snd.
      destruct (IH q Hpos Hle) as [Hm Hi]. split; [exact Hm|].
      rewrite Hi. unfold qsize in Hfull.
      replace (Z.to_nat (maxsize q) - length (items q))%nat with 0%nat by lia.
      now rewrite !take_0.
    + rewrite (put_nowait_room q hb) by lia. simpl snd.
      set (q' := {| maxsize := maxsize q; items := items q ++ [hb];
                    unfinished_tasks := unfinished_tasks q + 1 |}).
      assert (Hlen : length (items q') = S (length (items q))).
      { subst q'. simpl. rewrite length_app. simpl. lia. }
      destruct (IH q') as [Hm Hi].
      * exact Hpos.
      * unfold qsize in *. rewrite Hlen. subst q'. simpl. lia.
      * split; [exact Hm|]. rewrite Hi, Hlen. subst q'. simpl.
        unfold qsize in Hroom.
        replace (Z.to_nat (maxsize q) - length (items q))%nat
          with (S (Z.to_nat (maxsize q) - S (length (items q))))%nat by lia.
        now rewrite <- app_assoc.
Qed.

(** ** Reasoning about methods *)

Section Preserves.
Context (P : world -> Prop).

Lemma preserves_ret {A} (a : A) : preserves P (ret a).
Proof. now intros w H. Qed.

Lemma preserves_raise {A} (e : exn) : preserves P (@raise A e).
Proof. now intros w H. Qed.

Lemma preserves_call {A} (r : result A) : preserves P (call r).
Proof. now intros w H. Qed.

Lemma preserves_get_self : preserves P get_self.
Proof. now intros w H. Qed.

Lemma preserves_get_excepthook : preserves P get_excepthook.
Proof. now intros w H. Qed.

Lemma preserves_bind {A B} (m : py A) (k : A -> py B) :
  preserves P m -> (forall a, preserves P (k a)) -> preserves P (bind m k).
Proof.
  intros Hm Hk w H. unfold bind. specialize (Hm w H).
  destruct (m w) as [[a|e] w']; simpl in *; [now apply Hk | exact Hm].
Qed.

Lemma preserves_try_except {A} (body : py A) c (handler : exn -> py A) :
  preserves P body -> (forall e, preserves P (handler e)) ->
  preserves P (try_except body c handler).
Proof.
  intros Hb Hh w H. unfold try_except. specialize (Hb w H).
  destruct (body w) as [[a|e] w']; simpl in *; [exact Hb|].
  destruct (c e); [now apply Hh | exact Hb].
Qed.

Lemma preserves_try_finally {A} (body : py A) (fin : py unit) :
  preserves P body -> preserves P fin -> preserves P (try_finally body fin).
Proof.
  intros Hb Hf w H. unfold try_finally. specialize (Hb w H).
  destruct (body w) as [r w']; simpl in *. specialize (Hf w' Hb).
  now destruct (fin w') as [[u|e] w''].
Qed.

End Preserves.

(** Takes a method apart down to the primitive actions, after trying [tac] on
    each part. *)
Ltac preserves_with tac :=
  repeat first
    [ tac
    | apply preserves_ret | apply preserves_raise | apply preserves_call
    | apply preserves_get_self | apply preserves_get_excepthook
    | apply preserves_bind; [|intros ?]
    | apply preserves_try_except; [|intros ?]
    | apply preserves_try_finally
    | match goal with
      | |- preserves _ (if ?b then _ else _) => destruct b
      | |- preserves _ (match ?x with _ => _ end) => destruct x
      end ].

Ltac preserves_struct := preserves_with fail.

(** Unfolds a primitive action. *)
Ltac primitive :=
  unfold preserves, modify_self, logger, requests_post, queue_put_nowait,
    queue_get, queue_task_done, Timer, Timer_start, Timer_cancel, call_hook,
    start_worker, set_excepthook, raise;
  intros.

Section PreservesThreads.
Context (P : world -> Prop).

Lemma preserves_tick_step i ev :
  (forall w l, P w -> P (with_ticks l w)) ->
  preserves P (snapshot_body ev) -> preserves P (schedule_next ev) ->
  preserves P (tick_step i ev).
Proof.
  intros Hticks Hbody Hnext w H. unfold tick_step, set_pc.
  destruct (ticks w !! i) as [[]|]; simpl; auto.
  - specialize (Hbody w H). destruct (snapshot_body ev w) as [[u|e] w']; simpl in *; auto.
  - specialize (Hnext w H). destruct (schedule_next ev w) as [r w']; simpl in *; auto.
Qed.

Lemma preserves_timer_fires t :
  (forall w l, P w -> P (with_ticks l w)) ->
  (forall w l, P w -> P (with_timers l w)) ->
  preserves P (timer_fires t).
Proof.
  intros Hticks Htimers w H. unfold timer_fires.
  destruct (timers w !! t) as [tm|]; [|exact H].
  destruct (tstate tm); simpl; auto.
Qed.

Lemma preserves_upload_worker ev :
  (forall w n, P w -> P (with_workers n w)) ->
  preserves P (upload_pass ev) -> preserves P (_upload_worker ev).
Proof.
  intros Hworkers Hpass w H. unfold _upload_worker.
  destruct (workers w); [exact H|].
  destruct (_stop_event (self w)); simpl; auto.
Qed.

Lemma preserves_crash_handler x ev :
  (forall id, preserves P (call_hook id x)) ->
  preserves P (crash_body x ev) -> preserves P (_crash_handler x ev).
Proof.
  intros Hhost Hbody. unfold _crash_handler.
  induction (recursion_room ev) as [|room IH]; cbn [crash_handler_nested];
    (apply preserves_bind; [exact Hbody | intros _]);
    (apply preserves_bind; [apply preserves_get_self | intros p]);
    destruct (_original_hook p) as [[id|]|];
    first [apply Hhost | apply preserves_raise | apply preserves_ret | exact IH].
Qed.

Lemma preserves_excepthook x ev :
  (forall id, preserves P (call_hook id x)) ->
  preserves P (crash_body x ev) -> preserves P (excepthook x ev).
Proof.
  intros Hhost Hcrash w H. unfold excepthook.
  destruct (sys_excepthook w);
    [now apply Hhost | now apply (preserves_crash_handler x ev Hhost Hcrash)].
Qed.

Lemma preserves_run :
  (forall e, preserves P (exec e)) -> forall es w, P w -> P (run es w).
Proof.
  intros Hexec es. induction es as [|e es IH]; intros w H; [exact H|].
  apply IH. now apply Hexec.
Qed.

End PreservesThreads.

(** *** The queue stays the bounded queue of the constructor *)

Lemma bounded_put hb : preserves queue_bounded (queue_put_nowait hb).
Proof.
  intros w [Hm Hs]. unfold queue_put_nowait, queue_bounded.
  pose proof (put_nowait_maxsize (queue (self w)) hb) as H1.
  pose proof (put_nowait_bound (queue (self w)) hb) as H2.
  destruct (put_nowait hb (queue (self w))) as [[u|e] q']; simpl in *; lia.
Qed.

Lemma bounded_get : preserves queue_bounded queue_get.
Proof.
  intros w [Hm Hs]. unfold queue_get, queue_bounded.
  pose proof (get_maxsize (queue (self w))) as H1.
  pose proof (get_bound (queue (self w))) as H2.
  destruct (get (queue (self w))) as [r q']; simpl in *; lia.
Qed.

Lemma bounded_task_done : preserves queue_bounded queue_task_done.
Proof.
  intros w [Hm Hs]. unfold queue_task_done, queue_bounded.
  destruct (task_done_queue (queue (self w))) as [H1 H2]. unfold qsize in *.
  destruct (task_done (queue (self w))) as [r q']; simpl in *.
  rewrite H1, H2. lia.
Qed.

Ltac bounded :=
  preserves_struct;
  first [ apply bounded_put | apply bounded_get | apply bounded_task_done
        | primitive; simpl;
          repeat match goal with
                 | |- context [match ?x with _ => _ end] => destruct x; simpl
                 end;
          assumption ].

Lemma bounded_snapshot_body ev : preserves queue_bounded (snapshot_body ev).
Proof. unfold snapshot_body. bounded. Qed.

Lemma bounded_schedule_next ev : preserves queue_bounded (schedule_next ev).
Proof. unfold schedule_next. bounded. Qed.

Lemma bounded_exec e : preserves queue_bounded (exec e).
Proof.
  destruct e as [ev| |x ev|t|i ev|ev]; cbn [exec].
  - unfold setup, _start_snapshot_timer, _snapshot_state.
    preserves_struct;
      first [ apply bounded_snapshot_body | apply bounded_schedule_next | bounded ].
  - unfold teardown. bounded.
  - apply preserves_excepthook; [intros id|unfold crash_body]; bounded.
  - apply preserves_timer_fires; now intros [] l.
  - apply preserves_tick_step;
      [now intros [] l | apply bounded_snapshot_body | apply bounded_schedule_next].
  - apply preserves_upload_worker; [now intros [] n | unfold upload_pass; bounded].
Qed.

Lemma bounded_boot a h : queue_bounded (boot a h).
Proof. split; [reflexivity | unfold qsize; simpl; lia]. Qed.

Lemma bounded_run a h es : queue_bounded (run es (boot a h)).
Proof. apply preserves_run; [exact bounded_exec | apply bounded_boot]. Qed.

(** A snapshot taken while the queue is full changes neither the queue nor
    the history of accepted heartbeats, whatever the host answers. *)
Lemma snapshot_on_full_queue ev w :
  maxsize (queue (self w)) = 100 -> qsize (queue (self w)) = 100 ->
  queue (self (snd (_snapshot_state ev w))) = queue (self w) /\
  enqueued (snd (_snapshot_state ev w)) = enqueued w.
Proof.
  intros Hm Hs.
  set (P := fun w' : world => queue (self w') = queue (self w) /\ enqueued w' = enqueued w).
  assert (Hput : forall hb, preserves P (queue_put_nowait hb)).
  { intros hb w' [Hq He]. unfold queue_put_nowait, P. rewrite Hq.
    rewrite put_nowait_full by lia. simpl.
    destruct w' as [p ? ? ? ? ? ? ? ?]. destruct p. simpl in *. now split. }
  assert (H : preserves P (_snapshot_state ev)).
  { unfold _snapshot_state, snapshot_body.
    preserves_struct; first [ apply Hput | primitive; destruct w0; exact H ]. }
  now apply H.
Qed.

(** With the heartbeat built and the queue full, the drop is reported by the
    warning of line 136. *)
Lemma snapshot_reports_drop ev w st :
  _stop_event (self w) = false -> app_valid ev = true -> to_dict ev = Return st ->
  (forall e, psutil_percent ev = Raise e -> is_ImportError e = true) ->
  maxsize (queue (self w)) = 100 -> qsize (queue (self w)) = 100 ->
  _snapshot_state ev w = (Return tt, with_log (log w ++ [(WARNING, MsgQueueFull)]) w).
Proof.
  intros Hstop Hvalid Hst Hram Hm Hs.
  unfold _snapshot_state, snapshot_body, bind, try_except, get_self, call,
    queue_put_nowait, ret, logger.
  rewrite Hstop, Hvalid, Hst. simpl.
  destruct (get_system_info ev) as [sys|e1]; simpl;
    (destruct (psutil_percent ev) as [pct|e2] eqn:Hp; simpl;
     [|rewrite (Hram e2 eq_refl); simpl]);
    rewrite put_nowait_full by lia; simpl;
    destruct w as [p ? ? ? ? ? ? ? ?]; destruct p; reflexivity.
Qed.

(** C2. However many heartbeats are put on the plugin's queue, its size stays
    within its capacity of 100 and it holds the first 100 of them in order;
    at capacity a further put raises [Full] and leaves the queue as it was.
    The bound holds in every world the process can reach, and a snapshot
    taken on a full queue leaves the queue untouched. *)
Theorem queue_never_exceeds_capacity (a : init_args) (hbs : list heartbeat) :
  let q := put_all hbs (queue (__init__ a)) in
  maxsize q = 100 /\ qsize q <= 100 /\ items q = take 100 hbs /\
  (forall hb, qsize q = 100 -> put_nowait hb q = (Raise Full, q)) /\
  (forall h es, qsize (queue (self (run es (boot a h)))) <= 100) /\
  (forall ev w,
     maxsize (queue (self w)) = 100 -> qsize (queue (self w)) = 100 ->
     queue (self (snd (_snapshot_state ev w))) = queue (self w) /\
     enqueued (snd (_snapshot_state ev w)) = enqueued w).
Proof.
  intros q.
  destruct (put_all_spec hbs (queue (__init__ a))) as [Hm Hi];
    [reflexivity | unfold qsize; simpl; lia |].
  fold q in Hm, Hi. simpl in Hm, Hi.
  change (Z.to_nat 100 - 0)%nat with 100%nat in Hi.
  repeat split.
  - exact Hm.
  - unfold qsize. rewrite Hi, length_take. lia.
  - exact Hi.
  - intros hb Hfull. apply put_nowait_full; lia.
  - intros h es. apply (bounded_run a h es).
  - now apply snapshot_on_full_queue.
  - now apply snapshot_on_full_queue.
Qed.

(** ** Sanitization *)

Lemma safe_key_sensitive k : safe_key k = negb (sensitive k).
Proof. unfold safe_key, sensitive. now rewrite negb_orb. Qed.

Lemma sanitize_lookup (st : gmap string value) (k : string) :
  sanitize st !! k = if safe_key k then st !! k else None.
Proof.
  unfold sanitize. destruct (safe_key k) eqn:Hk.
  - destruct (st !! k) as [v|] eqn:Hv.
    + now apply map_lookup_filter_Some_2.
    + apply map_lookup_filter_None_2. now left.
  - apply map_lookup_filter_None_2. right. intros v _. simpl. now rewrite Hk.
Qed.

Lemma not_self_snoc {A} (l : list A) (x : A) : l <> (l ++ [x])%list.
Proof. intros H. apply (f_equal length) in H. rewrite length_app in H. simpl in H. lia. Qed.

(** Either the snapshot accepts nothing, or it accepts exactly the heartbeat
    built from the state the host returned. *)
Lemma snapshot_body_enqueued ev w :
  enqueued (snd (snapshot_body ev w)) = enqueued w \/
  exists st, to_dict ev = Return st /\
    enqueued (snd (snapshot_body ev w)) = (enqueued w ++ [built_heartbeat ev (self w) st])%list.
Proof.
  unfold snapshot_body, bind, try_except, get_self, call, queue_put_nowait, ret, logger,
    built_heartbeat.
  destruct (app_valid ev); simpl; [|now left].
  destruct (to_dict ev) as [st|e0]; simpl; [|destruct (is_Exception e0); now left].
  destruct (get_system_info ev) as [sys|e1]; simpl;
    (destruct (psutil_percent ev) as [pct|e2]; simpl;
     [|destruct (is_ImportError e2); simpl; [|destruct (is_Exception e2); now left]]);
    match goal with
    | |- context [put_nowait ?hb ?q] => destruct (put_nowait hb q) as [[u|e3] q']
    end; simpl;
    try (right; exists st; now split);
    destruct (is_Full e3); simpl; try (now left);
    destruct (is_Exception e3); now left.
Qed.

Lemma snapshot_state_enqueued ev w :
  enqueued (snd (_snapshot_state ev w)) = enqueued w \/
  exists st, to_dict ev = Return st /\
    enqueued (snd (_snapshot_state ev w)) = (enqueued w ++ [built_heartbeat ev (self w) st])%list.
Proof.
  unfold _snapshot_state, bind, get_self. simpl.
  destruct (_stop_event (self w)); [now left | apply snapshot_body_enqueued].
Qed.

(** C4. Whenever a snapshot emits a heartbeat, the host returned a state
    mapping, and for every key: if its lowercase form contains [password] or
    [token] the key is absent from the heartbeat's state, otherwise the
    heartbeat's state holds for it exactly what the mapping holds. *)
Theorem heartbeat_state_is_sanitized (ev : env) (w : world) (hb : heartbeat) :
  enqueued (snd (_snapshot_state ev w)) = (enqueued w ++ [hb])%list ->
  exists st, to_dict ev = Return st /\
    forall k,
      (sensitive k = true -> hb_state hb !! k = None) /\
      (sensitive k = false -> hb_state hb !! k = st !! k).
Proof.
  intros Hput. destruct (snapshot_state_enqueued ev w) as [Hsame | (st & Hst & Hnew)].
  - rewrite Hsame in Hput. now apply not_self_snoc in Hput.
  - rewrite Hnew in Hput. apply app_inj_tail in Hput as [_ <-].
    exists st. split; [exact Hst|]. intros k. simpl.
    rewrite sanitize_lookup, safe_key_sensitive.
    split; intros ->; reflexivity.
Qed.

(** The example of the specification: [userPassword] and [API_TOKEN] are
    dropped, [theme] is kept. *)
Lemma heartbeat_state_is_sanitized_witness :
  exists st, to_dict Scenario.healthy = Return st /\
    forall k,
      (sensitive k = true ->
       hb_state (Scenario.heartbeat_of (VFloat (Qmake 425 10))) !! k = None) /\
      (sensitive k = false ->
       hb_state (Scenario.heartbeat_of (VFloat (Qmake 425 10))) !! k = st !! k).
Proof.
  apply (heartbeat_state_is_sanitized Scenario.healthy
           (boot (Scenario.args "activity") 0)).
  vm_compute. reflexivity.
Defined.

(** ** The snapshot timer *)

Lemma schedule_next_spec ev w :
  fst (schedule_next ev w) = timer_start ev /\
  timers (snd (schedule_next ev w)) =
    (timers w ++
     [{| interval := intervals_get (mode (self w));
         tstate := match timer_start ev with Return _ => Waiting | Raise _ => Created end |}])%list.
Proof.
  unfold schedule_next, bind, get_self, Timer, modify_self, Timer_start. simpl.
  destruct (timer_start ev) as [[]|e]; simpl; [|now split].
  split; [reflexivity|]. rewrite alter_app_r_alt by lia.
  now replace (length (timers w) - length (timers w))%nat with 0%nat by lia.
Qed.

Lemma schedule_next_timers ev w :
  exists st,
    timers (snd (schedule_next ev w)) =
      (timers w ++ [{| interval := intervals_get (mode (self w)); tstate := st |}])%list.
Proof. eexists. apply schedule_next_spec. Qed.

Lemma snapshot_body_frame ev w : snapshot_frame w (snd (snapshot_body ev w)).
Proof.
  assert (H : preserves (snapshot_frame w) (snapshot_body ev)).
  { unfold snapshot_body. preserves_struct; primitive; unfold snapshot_frame in *; simpl;
      repeat match goal with
             | |- context [match ?x with _ => _ end] => destruct x; simpl
             end;
      try assumption.
    all: destruct w0 as [p ? ? ? ? ? ? ? ?]; destruct p; exact H. }
  apply H. unfold snapshot_frame. destruct w as [p ? ? ? ? ? ? ? ?]. now destruct p.
Qed.

(** *** What a method can raise *)

Section RaisesOnly.
Context {A : Type}.

Lemma raises_only_weaken (C C' : exn -> Prop) (m : py A) :
  (forall e, C e -> C' e) -> raises_only C m -> raises_only C' m.
Proof. intros HC Hm w. specialize (Hm w). destruct (fst (m w)); auto. Qed.

Lemma raises_only_ret C (a : A) : raises_only C (ret a).
Proof. now intros w. Qed.

Lemma raises_only_raise (C : exn -> Prop) e : C e -> raises_only C (@raise A e).
Proof. now intros He w. Qed.

Lemma raises_only_call (C : exn -> Prop) (r : result A) :
  (forall e, r = Raise e -> C e) -> raises_only C (call r).
Proof. intros Hr w. simpl. destruct r; auto. Qed.

Lemma raises_only_bind {B} C (m : py B) (k : B -> py A) :
  raises_only C m -> (forall b, raises_only C (k b)) -> raises_only C (bind m k).
Proof.
  intros Hm Hk w. unfold bind. specialize (Hm w).
  destruct (m w) as [[b|e] w']; simpl in *; [apply Hk | exact Hm].
Qed.

Lemma raises_only_try_except C C' (body : py A) catches (handler : exn -> py A) :
  raises_only C' body ->
  (forall e, C' e -> catches e = false -> C e) ->
  (forall e, raises_only C (handler e)) ->
  raises_only C (try_except body catches handler).
Proof.
  intros Hb Hc Hh w. unfold try_except. specialize (Hb w).
  destruct (body w) as [[a|e] w']; simpl in *; [exact I|].
  destruct (catches e) eqn:He; [apply Hh | simpl; now apply Hc].
Qed.

Lemma raises_only_try_finally C (body : py A) (fin : py unit) :
  raises_only C body -> raises_only C fin -> raises_only C (try_finally body fin).
Proof.
  intros Hb Hf w. unfold try_finally. specialize (Hb w).
  destruct (body w) as [r w']; simpl in *. specialize (Hf w').
  destruct (fin w') as [[u|e] w'']; simpl in *; [exact Hb | exact Hf].
Qed.

End RaisesOnly.

Lemma raises_only_total {A} C (m : py A) :
  (forall w, exists a, fst (m w) = Return a) -> raises_only C m.
Proof. intros H w. destruct (H w) as [a ->]. exact I. Qed.

(** The actions that always return. *)
Ltac returns :=
  apply raises_only_total; intros ?;
  unfold get_self, get_excepthook, set_excepthook, modify_self, logger, Timer, Timer_cancel;
  simpl; eexists; reflexivity.

Lemma raises_only_any {A} (m : py A) : raises_only (fun _ => True) m.
Proof. intros w. now destruct (fst (m w)). Qed.

Lemma queue_put_nowait_raises hb : raises_only (fun e => e = Full) (queue_put_nowait hb).
Proof.
  intros w. unfold queue_put_nowait, put_nowait.
  now destruct (_ && _).
Qed.

(** What can leave [snapshot_body]'s [try] of line 100 before the handler of
    line 137 sees it: an error of [to_dict] or of the RAM metric. *)
Lemma snapshot_try_raises ev :
  raises_only (fun e => to_dict ev = Raise e \/ psutil_percent ev = Raise e)
    (if negb (app_valid ev) then ret tt else
     let* state_snapshot := call (to_dict ev) in
     let safe_state := sanitize state_snapshot in
     let* system_info :=
       try_except (call (get_system_info ev)) any_exn
         (fun _ => ret (VDict [("os", VStr (platform_system ev))])) in
     let* ram_usage :=
       try_except (let* pct := call (psutil_percent ev) in ret (VFloat pct))
         is_ImportError (fun _ => ret (VStr "unknown")) in
     let* p := get_self in
     let payload :=
       {| hb_type := "heartbeat"; hb_session := session_id p;
          hb_state := safe_state; hb_system := system_info;
          hb_ram_usage := ram_usage; hb_timestamp := time_time ev |} in
     try_except (queue_put_nowait payload) is_Full
       (fun _ => logger WARNING MsgQueueFull)).
Proof.
  destruct (negb (app_valid ev)); [apply raises_only_ret|].
  apply raises_only_bind; [apply raises_only_call; now left | intros st].
  apply raises_only_bind; [|intros sys].
  { apply raises_only_try_except with (C' := fun _ => True);
      [apply raises_only_any | discriminate | intros e; apply raises_only_ret]. }
  apply raises_only_bind; [|intros ram].
  { apply raises_only_try_except with (C' := fun e => psutil_percent ev = Raise e).
    - apply raises_only_bind; [now apply raises_only_call | intros q; apply raises_only_ret].
    - intros e He _. now right.
    - intros e. apply raises_only_ret. }
  apply raises_only_bind; [returns | intros p].
  apply raises_only_try_except with (C' := fun e => e = Full).
  - apply queue_put_nowait_raises.
  - intros e -> H. discriminate H.
  - intros e. returns.
Qed.

Lemma snapshot_state_raises ev :
  raises_only
    (fun e => is_Exception e = false /\
              (to_dict ev = Raise e \/ psutil_percent ev = Raise e))
    (_snapshot_state ev).
Proof.
  unfold _snapshot_state. apply raises_only_bind; [returns | intros p].
  destruct (_stop_event p); [apply raises_only_ret|].
  unfold snapshot_body.
  apply raises_only_try_except
    with (C' := fun e => to_dict ev = Raise e \/ psutil_percent ev = Raise e).
  - apply snapshot_try_raises.
  - intros e He Hc. now split.
  - intros e. returns.
Qed.

Lemma schedule_next_raises ev :
  raises_only (fun e => timer_start ev = Raise e) (schedule_next ev).
Proof.
  intros w. rewrite (proj1 (schedule_next_spec ev w)). now destruct (timer_start ev).
Qed.

Lemma start_snapshot_timer_raises ev :
  raises_only
    (fun e => timer_start ev = Raise e \/
              (is_Exception e = false /\
               (to_dict ev = Raise e \/ psutil_percent ev = Raise e)))
    (_start_snapshot_timer ev).
Proof.
  unfold _start_snapshot_timer. apply raises_only_bind; [returns | intros p].
  destruct (timer_guard p); [|apply raises_only_ret].
  apply raises_only_bind; [|intros _].
  - eapply raises_only_weaken; [|apply snapshot_state_raises]. intros e He. now right.
  - eapply raises_only_weaken; [|apply schedule_next_raises]. intros e He. now left.
Qed.

Lemma snapshot_state_frame ev w : snapshot_frame w (snd (_snapshot_state ev w)).
Proof.
  unfold _snapshot_state, bind, get_self. simpl.
  destruct (_stop_event (self w)); [|apply snapshot_body_frame].
  unfold snapshot_frame. simpl. destruct w as [p ? ? ? ? ? ? ? ?]. now destruct p.
Qed.

Lemma schedule_next_frame ev w :
  enqueued (snd (schedule_next ev w)) = enqueued w /\
  queue (self (snd (schedule_next ev w))) = queue (self w) /\
  _timer (self (snd (schedule_next ev w))) = Assigned (Some (length (timers w))).
Proof.
  unfold schedule_next, bind, get_self, Timer, modify_self, Timer_start. simpl.
  now destruct (timer_start ev) as [[]|e].
Qed.

(** [setup] on a fresh plugin, once the worker has started and outside mode
    [errors_only]: the rest of it is [_start_snapshot_timer] in a world with
    an empty queue, then the log record of line 76. *)
Lemma setup_unfold a h ev :
  worker_start ev = Return tt ->
  mode_eq (mode (__init__ a)) "errors_only" = false ->
  exists w1,
    self w1 = with_original_hook (Some (HostHook h))
                (with_timer (Assigned None) (__init__ a)) /\
    enqueued w1 = [] /\ timers w1 = [] /\ sys_excepthook w1 = CrashHandler /\
    setup ev (boot a h) =
      bind (_start_snapshot_timer ev)
        (fun _ => logger INFO (MsgStarted (mode (__init__ a)))) w1.
Proof.
  intros Hw Hmode. unfold setup, start_worker.
  unfold bind at 1. cbn [modify_self].
  unfold bind at 1. rewrite Hw.
  unfold bind at 1. cbn [get_excepthook].
  unfold bind at 1. cbn [modify_self].
  unfold bind at 1. cbn [set_excepthook].
  unfold bind at 1. cbn [get_self].
  match goal with |- context [bind _ _ ?w] => exists w end.
  repeat split.
  change (mode (self _)) with (mode (__init__ a)). rewrite Hmode. reflexivity.
Qed.

(** *** [errors_only]: the scheduler never runs *)

Ltac idle_primitive :=
  primitive;
  match goal with H : idle _ |- _ => destruct H as (Hmode & Henq & Htimers & Hticks) end;
  unfold idle; simpl;
  repeat match goal with
         | |- context [match ?x with _ => _ end] => destruct x; simpl
         end;
  try match goal with
      | Ht : timers ?w = [] |- context [timers ?w] => rewrite Ht
      end;
  simpl; auto.

Lemma idle_start_snapshot_timer ev : preserves idle (_start_snapshot_timer ev).
Proof.
  intros w H. unfold _start_snapshot_timer, bind, get_self, timer_guard. simpl.
  destruct H as (Hm & H). rewrite Hm, andb_false_r. simpl. now split.
Qed.

Lemma idle_exec e : preserves idle (exec e).
Proof.
  destruct e as [ev| |x ev|t|i ev|ev]; cbn [exec].
  - unfold setup.
    preserves_with ltac:(apply idle_start_snapshot_timer); idle_primitive.
  - unfold teardown. preserves_struct; idle_primitive.
  - apply preserves_excepthook; [intros id|unfold crash_body];
      preserves_struct; idle_primitive.
  - intros w H. unfold timer_fires. destruct H as (Hm & He & Ht & Hk).
    rewrite Ht. simpl. now repeat split.
  - intros w H. unfold tick_step. destruct H as (Hm & He & Ht & Hk).
    rewrite Hk. simpl. now repeat split.
  - apply preserves_upload_worker; [now intros [] n|].
    unfold upload_pass. preserves_struct; idle_primitive.
Qed.

(** *** Every other mode: the timers and their interval *)

(** A call of [_start_snapshot_timer] that passes the guard of line 79 and
    whose snapshot raises nothing but [Exception]s creates one timer, with
    the interval of the mode, and starts it. *)
Lemma start_snapshot_timer_schedules ev w :
  timer_guard (self w) = true ->
  (forall e, to_dict ev = Raise e -> is_Exception e = true) ->
  (forall e, psutil_percent ev = Raise e -> is_Exception e = true) ->
  fst (_start_snapshot_timer ev w) = timer_start ev /\
  timers (snd (_start_snapshot_timer ev w)) =
    (timers w ++
     [{| interval := intervals_get (mode (self w));
         tstate := match timer_start ev with Return _ => Waiting | Raise _ => Created end |}])%list.
Proof.
  intros Hguard Hdict Hram.
  pose proof (snapshot_state_raises ev w) as Hret.
  destruct (snapshot_state_frame ev w) as (Hself & _ & _ & _ & Htimers & _).
  unfold _start_snapshot_timer, bind, get_self. cbn [fst snd]. rewrite Hguard.
  destruct (_snapshot_state ev w) as [[[]|e] w1]; cbn [fst snd] in *.
  - destruct (schedule_next_spec ev w1) as [Hr Hn]. rewrite Hr, Hn, Htimers.
    replace (mode (self w1)) with (mode (self w)) by (rewrite <- Hself; reflexivity).
    now split.
  - destruct Hret as [He [Hd | Hp]].
    + rewrite (Hdict e Hd) in He. discriminate.
    + rewrite (Hram e Hp) in He. discriminate.
Qed.

(** [setup] on a fresh plugin in a mode other than [errors_only]: once the
    worker has started, it ends as the start of the timer thread ends, and
    leaves one timer, with the interval of the mode. *)
Lemma setup_creates_timer a h ev :
  mode_eq (mode (__init__ a)) "errors_only" = false ->
  worker_start ev = Return tt ->
  (forall e, to_dict ev = Raise e -> is_Exception e = true) ->
  (forall e, psutil_percent ev = Raise e -> is_Exception e = true) ->
  fst (setup ev (boot a h)) = timer_start ev /\
  timers (snd (setup ev (boot a h))) =
    [{| interval := intervals_get (mode (__init__ a));
        tstate := match timer_start ev with Return _ => Waiting | Raise _ => Created end |}].
Proof.
  intros Hmode Hw Hdict Hram.
  destruct (setup_unfold a h ev Hw Hmode) as (w1 & Hself & _ & Htimers & _ & ->).
  assert (Hm : mode (self w1) = mode (__init__ a)) by now rewrite Hself.
  assert (Hguard : timer_guard (self w1) = true).
  { unfold timer_guard. rewrite Hm, Hmode, Hself. reflexivity. }
  destruct (start_snapshot_timer_schedules ev w1 Hguard Hdict Hram) as [Hr Ht].
  rewrite Htimers, Hm in Ht. cbn [app] in Ht.
  unfold bind.
  destruct (_start_snapshot_timer ev w1) as [[[]|e] w2]; cbn [fst snd logger] in *;
    now split.
Qed.

Lemma timers_of_mode_alter m (g : timer -> timer) i w :
  (forall tm, interval (g tm) = interval tm) ->
  timers_of_mode m w -> timers_of_mode m (with_timers (alter g i (timers w)) w).
Proof.
  intros Hg [Hm Hf]. split; [exact Hm|]. cbn [timers with_timers].
  apply Forall_alter; [exact Hf|]. intros tm _ Htm. now rewrite Hg.
Qed.

Lemma timers_of_mode_cancel m i : preserves (timers_of_mode m) (Timer_cancel i).
Proof.
  intros w H. unfold Timer_cancel. cbn [snd].
  apply timers_of_mode_alter; [|exact H]. intros tm. now destruct (tstate tm).
Qed.

Lemma timers_of_mode_schedule_next m ev : preserves (timers_of_mode m) (schedule_next ev).
Proof.
  intros w [Hm Hf]. destruct (schedule_next_spec ev w) as [_ Ht]. split.
  - unfold schedule_next, bind, get_self, Timer, modify_self, Timer_start. simpl.
    now destruct (timer_start ev) as [[]|e].
  - rewrite Ht, Hm. apply Forall_app. split; [exact Hf|]. now repeat constructor.
Qed.

Ltac mode_primitive :=
  first [ apply timers_of_mode_cancel
        | primitive; unfold timers_of_mode in *; simpl;
          repeat match goal with
                 | |- context [match ?x with _ => _ end] => destruct x; simpl
                 end;
          assumption ].

Lemma timers_of_mode_snapshot_body m ev : preserves (timers_of_mode m) (snapshot_body ev).
Proof. unfold snapshot_body. preserves_struct; mode_primitive. Qed.

Lemma timers_of_mode_exec m e : preserves (timers_of_mode m) (exec e).
Proof.
  destruct e as [ev| |x ev|t|i ev|ev]; cbn [exec].
  - unfold setup, _start_snapshot_timer, _snapshot_state.
    preserves_with
      ltac:(first [ apply timers_of_mode_snapshot_body
                  | apply timers_of_mode_schedule_next ]);
      mode_primitive.
  - unfold teardown. preserves_struct; mode_primitive.
  - apply preserves_excepthook; [intros id|unfold crash_body];
      preserves_struct; mode_primitive.
  - intros w H. unfold timer_fires.
    destruct (timers w !! t) as [tm|]; [|exact H].
    destruct (tstate tm); try exact H. cbn [snd].
    now apply (timers_of_mode_alter m (set_tstate Fired) t) in H.
  - apply preserves_tick_step;
      [now intros [] l | apply timers_of_mode_snapshot_body
      | apply timers_of_mode_schedule_next].
  - apply preserves_upload_worker; [now intros [] n|].
    unfold upload_pass. preserves_struct; mode_primitive.
Qed.

(** C5. The interval of the snapshot timer is 5 seconds in mode [activity],
    300 in mode [minimal] and 60 in every other mode. For a mode string
    other than [errors_only], [setup] on a fresh plugin leaves exactly one
    timer, with the interval of the mode, started when its thread could be;
    every call of [_start_snapshot_timer] that passes the guard of line 79
    adds one timer with that interval; and whatever the host and the threads
    do, no timer ever has another interval. In mode [errors_only] no heartbeat is
    ever enqueued and no timer ever created. ([setup] and a tick are taken
    with a state and a RAM metric that raise nothing but [Exception]s, and
    [setup] with a worker thread that starts.) *)
Theorem mode_interval_mapping :
  intervals_get (ModeStr "activity") = 5%Q /\
  intervals_get (ModeStr "minimal") = 300%Q /\
  (forall m, mode_eq m "activity" = false -> mode_eq m "minimal" = false ->
             intervals_get m = 60%Q) /\
  (forall a h ev s,
      mode (__init__ a) = ModeStr s -> s <> "errors_only" ->
      worker_start ev = Return tt ->
      (forall e, to_dict ev = Raise e -> is_Exception e = true) ->
      (forall e, psutil_percent ev = Raise e -> is_Exception e = true) ->
      fst (setup ev (boot a h)) = timer_start ev /\
      timers (snd (setup ev (boot a h))) =
        [{| interval := intervals_get (ModeStr s);
            tstate := match timer_start ev with
                      | Return _ => Waiting
                      | Raise _ => Created
                      end |}]) /\
  (forall ev w s,
      mode (self w) = ModeStr s -> timer_guard (self w) = true ->
      (forall e, to_dict ev = Raise e -> is_Exception e = true) ->
      (forall e, psutil_percent ev = Raise e -> is_Exception e = true) ->
      fst (_start_snapshot_timer ev w) = timer_start ev /\
      timers (snd (_start_snapshot_timer ev w)) =
        (timers w ++
         [{| interval := intervals_get (ModeStr s);
             tstate := match timer_start ev with
                       | Return _ => Waiting
                       | Raise _ => Created
                       end |}])%list) /\
  (forall a h es,
      Forall (fun tm => interval tm = intervals_get (mode (__init__ a)))
        (timers (run es (boot a h)))) /\
  (forall a h es,
      mode (__init__ a) = ModeStr "errors_only" ->
      enqueued (run es (boot a h)) = [] /\ timers (run es (boot a h)) = []).
Proof.
  split; [reflexivity|]. split; [reflexivity|]. split; [|split; [|split; [|split]]].
  - intros m Ha Hm. unfold intervals_get. rewrite Ha, Hm. now destruct (mode_eq m "default").
  - intros a h ev s Hs Hne. rewrite <- Hs. apply setup_creates_timer.
    rewrite Hs. now apply String.eqb_neq.
  - intros ev w s Hs. rewrite <- Hs. apply start_snapshot_timer_schedules.
  - intros a h es.
    assert (H : timers_of_mode (mode (__init__ a)) (run es (boot a h))).
    { apply preserves_run; [intros e; apply timers_of_mode_exec|].
      split; [reflexivity | constructor]. }
    apply H.
  - intros a h es Hmode.
    assert (Hidle : idle (run es (boot a h))).
    { apply preserves_run; [exact idle_exec|].
      unfold idle. change (self (boot a h)) with (__init__ a).
      rewrite Hmode. now repeat split. }
    split; apply Hidle.
Qed.

(** The four kinds of mode, each given with capitals or padding: [setup]
    leaves the 5-second timer waiting in mode [activity], the 300-second
    timer in mode [minimal], the 60-second timer in a mode of no name, and in
    mode [errors_only] a process that is set up, woken and crashed has no
    timer and no heartbeat. *)
Lemma mode_interval_mapping_witness :
  timers (snd (setup Scenario.healthy (boot (Scenario.args " Activity") 0))) =
    [{| interval := 5%Q; tstate := Waiting |}] /\
  timers (snd (setup Scenario.healthy (boot (Scenario.args "MINIMAL") 0))) =
    [{| interval := 300%Q; tstate := Waiting |}] /\
  timers (snd (setup Scenario.healthy (boot (Scenario.args "verbose") 0))) =
    [{| interval := 60%Q; tstate := Waiting |}] /\
  let es := [CallSetup Scenario.healthy; WorkerStep Scenario.healthy; TimerFires 0;
             TickStep 0 Scenario.healthy; Unhandled Scenario.boom Scenario.healthy] in
  enqueued (run es (boot (Scenario.args " Errors_Only ") 0)) = [] /\
  timers (run es (boot (Scenario.args " Errors_Only ") 0)) = [].
Proof.
  destruct mode_interval_mapping as (_ & _ & _ & Hsetup & _ & _ & Hidle).
  assert (Hs : forall m s,
             mode (__init__ (Scenario.args m)) = ModeStr s -> s <> "errors_only" ->
             timers (snd (setup Scenario.healthy (boot (Scenario.args m) 0))) =
               [{| interval := intervals_get (ModeStr s); tstate := Waiting |}]).
  { intros m s Hm Hne.
    destruct (Hsetup (Scenario.args m) 0%nat Scenario.healthy s Hm Hne eq_refl) as [_ Ht];
      [intros e H; discriminate H | intros e H; discriminate H | exact Ht]. }
  split; [rewrite (Hs _ "activity"); [reflexivity | reflexivity | discriminate]|].
  split; [rewrite (Hs _ "minimal"); [reflexivity | reflexivity | discriminate]|].
  split; [rewrite (Hs _ "verbose"); [reflexivity | reflexivity | discriminate]|].
  intros es. apply (Hidle (Scenario.args " Errors_Only ") 0%nat es).
  vm_compute. reflexivity.
Defined.

(** ** Mode normalization *)

Lemma normalize_mode_padded (s s' ws1 ws2 : string) :
  PyStr.lower s' = PyStr.lower s ->
  PyStr.blank ws1 = true -> PyStr.blank ws2 = true ->
  normalize_mode (ModeStr (ws1 ++ s' ++ ws2)) = normalize_mode (ModeStr s).
Proof.
  intros Hcase H1 H2. unfold normalize_mode.
  rewrite !lower_app, Hcase, strip_padded; [reflexivity | |]; now rewrite blank_lower.
Qed.

(** When [setup] returns in a mode other than [errors_only], one timer with
    the mode's interval is waiting. *)
Lemma setup_starts_timer a h ev :
  mode_eq (mode (__init__ a)) "errors_only" = false ->
  fst (setup ev (boot a h)) = Return tt ->
  timers (snd (setup ev (boot a h))) =
    [{| interval := intervals_get (mode (__init__ a)); tstate := Waiting |}].
Proof.
  intros Hmode. destruct (setup ev (boot a h)) as [r w'] eqn:E.
  cbn [fst snd]. intros ->. revert E.
  unfold setup, start_worker.
  unfold bind at 1. cbn [modify_self].
  unfold bind at 1. destruct (worker_start ev) as [[]|e]; [|discriminate].
  unfold bind at 1. cbn [get_excepthook].
  unfold bind at 1. cbn [modify_self].
  unfold bind at 1. cbn [set_excepthook].
  unfold bind at 1. cbn [get_self].
  set (w1 := with_excepthook _ _).
  assert (Hself : mode (self w1) = mode (__init__ a)) by reflexivity.
  assert (Hstop : _stop_event (self w1) = false) by reflexivity.
  assert (Htimers : timers w1 = []) by reflexivity.
  rewrite Hself, Hmode. cbn [negb].
  unfold _start_snapshot_timer, _snapshot_state, timer_guard.
  clearbody w1.
  unfold bind at 1. unfold bind at 1. cbn [get_self].
  rewrite Hstop, Hself, Hmode. cbn [negb andb].
  unfold bind at 1. unfold bind at 1. cbn [get_self]. rewrite Hstop.
  destruct (snapshot_body_frame ev w1) as (Hs & _ & _ & _ & Ht & _).
  destruct (snapshot_body ev w1) as [[[]|e] w2]; [|discriminate].
  cbn [snd] in Hs, Ht.
  destruct (schedule_next_spec ev w2) as [Hr Hn].
  destruct (schedule_next ev w2) as [[[]|e] w3]; [|discriminate].
  cbn [fst snd] in Hr, Hn. cbn [logger]. intros [= <-]. cbn [timers with_log].
  rewrite Hn, Ht, Htimers, <- Hr. cbn [app].
  replace (mode (self w2)) with (mode (self w1)); [now rewrite Hself|].
  rewrite <- Hs. reflexivity.
Qed.

(** C7. A mode string is normalized without regard to case or surrounding
    white space: any string with the same lowercase form, padded with white
    space, yields the same mode. A string whose normal form is none of
    [activity], [minimal], [error_only], [errors_only] is kept as that normal
    form: it is not [errors_only], its interval is 60 seconds, and when
    [setup] returns the 60-second timer is waiting. The constructor is total:
    it raises for no mode. *)
Theorem mode_normalization (s : string) :
  (forall a, arg_mode a = ModeStr s -> mode (__init__ a) = normalize_mode (ModeStr s)) /\
  (forall s' ws1 ws2,
      PyStr.lower s' = PyStr.lower s ->
      PyStr.blank ws1 = true -> PyStr.blank ws2 = true ->
      normalize_mode (ModeStr (ws1 ++ s' ++ ws2)) = normalize_mode (ModeStr s)) /\
  (let m := PyStr.strip (PyStr.lower s) in
   m <> "activity" -> m <> "minimal" -> m <> "error_only" -> m <> "errors_only" ->
   normalize_mode (ModeStr s) = ModeStr m /\
   mode_eq (normalize_mode (ModeStr s)) "errors_only" = false /\
   intervals_get (normalize_mode (ModeStr s)) = 60%Q /\
   forall a h ev,
     arg_mode a = ModeStr s ->
     fst (setup ev (boot a h)) = Return tt ->
     timers (snd (setup ev (boot a h))) = [{| interval := 60%Q; tstate := Waiting |}]).
Proof.
  split; [|split].
  - intros a Ha. unfold __init__. cbn [mode]. now rewrite Ha.
  - intros s' ws1 ws2. apply normalize_mode_padded.
  - intros m Hact Hmin Herr1 Herr2.
    assert (Hnorm : normalize_mode (ModeStr s) = ModeStr m).
    { unfold normalize_mode. fold m.
      apply String.eqb_neq in Herr1, Herr2. now rewrite Herr1, Herr2. }
    assert (Hne : mode_eq (ModeStr m) "errors_only" = false).
    { now apply String.eqb_neq. }
    assert (Hint : intervals_get (ModeStr m) = 60%Q).
    { unfold intervals_get, mode_eq.
      apply String.eqb_neq in Hact, Hmin. rewrite Hact, Hmin.
      now destruct (String.eqb m "default"). }
    rewrite Hnorm. repeat split; try assumption.
    intros a h ev Ha Hret.
    assert (Hm : mode (__init__ a) = ModeStr m).
    { unfold __init__. cbn [mode]. now rewrite Ha. }
    rewrite (setup_starts_timer a h ev); [|now rewrite Hm | exact Hret].
    now rewrite Hm, Hint.
Qed.

(** The mode [Verbose] is no mode of the plugin: padded and in capitals it
    is the same mode, and [setup] leaves the 60-second timer waiting. *)
Lemma mode_normalization_witness :
  normalize_mode (ModeStr ("  " ++ "VERBOSE" ++ " ")) = normalize_mode (ModeStr "Verbose") /\
  timers (snd (setup Scenario.healthy (boot (Scenario.args "Verbose") 0))) =
    [{| interval := 60%Q; tstate := Waiting |}].
Proof.
  split.
  - apply (proj1 (proj2 (mode_normalization "Verbose"))); vm_compute; reflexivity.
  - apply (proj2 (proj2 (mode_normalization "Verbose"))); try (vm_compute; discriminate);
      vm_compute; reflexivity.
Defined.

(** ** The life cycle *)

Lemma preserves_run_without_setup (P : world -> Prop) :
  (forall e, is_setup e = false -> preserves P (exec e)) ->
  forall es w, no_setup es = true -> P w -> P (run es w).
Proof.
  intros Hexec es. induction es as [|e es IH]; intros w Hes H; [exact H|].
  cbn [no_setup forallb] in Hes. apply andb_prop in Hes as [He Hes].
  apply IH; [exact Hes|]. apply Hexec; [|exact H]. now destruct (is_setup e).
Qed.

(** *** Before [setup] *)

Ltac never_primitive :=
  primitive;
  match goal with
  | H : never_set_up _ |- _ => destruct H as (Hattr & Htimers & Hticks)
  end;
  unfold never_set_up; simpl;
  repeat match goal with
         | |- context [match ?x with _ => _ end] => destruct x; simpl
         end;
  try match goal with
      | Ht : timers ?w = [] |- context [timers ?w] => rewrite Ht
      end;
  simpl; auto.

Lemma never_set_up_exec e : is_setup e = false -> preserves never_set_up (exec e).
Proof.
  destruct e as [ev| |x ev|t|i ev|ev]; cbn [exec is_setup]; intros Hns;
    [discriminate| | | | |].
  - unfold teardown. preserves_struct; never_primitive.
  - apply preserves_excepthook; [intros id|unfold crash_body];
      preserves_struct; never_primitive.
  - intros w (Ha & Ht & Hk). unfold timer_fires. rewrite Ht. simpl. now repeat split.
  - intros w (Ha & Ht & Hk). unfold tick_step. rewrite Hk. simpl. now repeat split.
  - apply preserves_upload_worker; [now intros [] n|].
    unfold upload_pass. preserves_struct; never_primitive.
Qed.

Lemma teardown_unset w :
  _timer (self w) = Unset -> fst (teardown w) = Raise AttributeError.
Proof.
  intros H. unfold teardown, bind, modify_self, get_self, raise. simpl. now rewrite H.
Qed.

(** C10. On a plugin whose [setup] was never called, whatever else happened
    in the process, the attribute [_timer] does not exist and [teardown]
    raises [AttributeError]. *)
Theorem teardown_before_setup_raises (a : init_args) (h : nat) (es : list event) :
  no_setup es = true ->
  _timer (self (run es (boot a h))) = Unset /\
  fst (teardown (run es (boot a h))) = Raise AttributeError.
Proof.
  intros Hes.
  assert (H : never_set_up (run es (boot a h))).
  { apply preserves_run_without_setup; [exact never_set_up_exec | exact Hes |].
    now repeat split. }
  split; [apply H | apply teardown_unset, H].
Qed.

(** A plugin that is constructed, sees a crash, and is torn down twice. *)
Lemma teardown_before_setup_raises_witness :
  let es := [Unhandled Scenario.boom Scenario.healthy; CallTeardown] in
  _timer (self (run es (boot (Scenario.args "activity") 0))) = Unset /\
  fst (teardown (run es (boot (Scenario.args "activity") 0))) = Raise AttributeError.
Proof.
  intros es. apply (teardown_before_setup_raises (Scenario.args "activity") 0%nat es).
  vm_compute. reflexivity.
Defined.

(** *** [teardown] after [setup] *)

(** What [teardown] does once the attribute [_timer] exists. *)
Lemma teardown_spec w t :
  _timer (self w) = Assigned t ->
  teardown w =
    (Return tt,
     with_log (log w ++ [(INFO, MsgTornDown)])
       (with_excepthook (default (sys_excepthook w) (_original_hook (self w)))
          (with_timers
             (match t with
              | Some i =>
                  alter (fun x => match tstate x with
                                  | Fired => x
                                  | _ => set_tstate Cancelled x
                                  end) i (timers w)
              | None => timers w
              end)
             (with_self (with_stop_event true (self w)) w)))).
Proof.
  intros Ht. destruct w as [p hk lg ps hc tm tk wk en].
  destruct p as [q m tu cu sid stop oh tmr]. simpl in Ht. subst.
  unfold teardown, bind, try_except, modify_self, get_self, Timer_cancel, set_excepthook,
    logger, ret.
  simpl. destruct t as [i|]; destruct oh; reflexivity.
Qed.

Lemma teardown_returns w :
  _timer (self w) <> Unset -> fst (teardown w) = Return tt.
Proof.
  intros H. destruct (_timer (self w)) as [|t] eqn:Ht; [congruence|].
  now rewrite (teardown_spec w t Ht).
Qed.

Ltac set_up_primitive :=
  primitive; unfold set_up_once in *; simpl;
  repeat match goal with
         | |- context [match ?x with _ => _ end] => destruct x; simpl
         end;
  try assumption;
  try (split; [discriminate | tauto]).

Lemma set_up_once_snapshot_body h ev : preserves (set_up_once h) (snapshot_body ev).
Proof. unfold snapshot_body. preserves_struct; set_up_primitive. Qed.

Lemma set_up_once_schedule_next h ev : preserves (set_up_once h) (schedule_next ev).
Proof. unfold schedule_next. preserves_struct; set_up_primitive. Qed.

Lemma set_up_once_teardown h : preserves (set_up_once h) teardown.
Proof.
  intros w [Ha Hh]. destruct (_timer (self w)) as [|t] eqn:Ht; [congruence|].
  rewrite (teardown_spec w t Ht). unfold set_up_once. simpl. rewrite Ht.
  split; [discriminate|].
  destruct Hh as [[Ho Hs] | [Ho Hs]]; rewrite Ho; simpl; [left | right]; auto.
Qed.

Lemma set_up_once_exec h e : is_setup e = false -> preserves (set_up_once h) (exec e).
Proof.
  destruct e as [ev| |x ev|t|i ev|ev]; cbn [exec is_setup]; intros Hns;
    [discriminate| | | | |].
  - apply set_up_once_teardown.
  - apply preserves_excepthook; [intros id|unfold crash_body];
      preserves_struct; set_up_primitive.
  - apply preserves_timer_fires; now intros [] l.
  - apply preserves_tick_step;
      [now intros [] l | apply set_up_once_snapshot_body | apply set_up_once_schedule_next].
  - apply preserves_upload_worker; [now intros [] n|].
    unfold upload_pass. preserves_struct; set_up_primitive.
Qed.

(** The first [setup] of a fresh plugin, complete or cut short by an error. *)
Lemma set_up_once_setup a h ev : set_up_once h (snd (setup ev (boot a h))).
Proof.
  unfold setup, start_worker.
  unfold bind at 1. cbn [modify_self].
  unfold bind at 1. destruct (worker_start ev) as [[]|e].
  - unfold bind at 1. cbn [get_excepthook].
    unfold bind at 1. cbn [modify_self].
    unfold bind at 1. cbn [set_excepthook].
    match goal with
    | |- set_up_once h (snd (?m ?w1)) =>
        assert (Hrest : preserves (set_up_once h) m)
    end.
    { unfold _start_snapshot_timer, _snapshot_state.
      preserves_with ltac:(first [ apply set_up_once_snapshot_body
                                 | apply set_up_once_schedule_next ]);
        set_up_primitive. }
    apply Hrest. split; [discriminate|]. left. split; [reflexivity | now left].
  - split; [discriminate|]. right. now split.
Qed.

(** *** Once the stop flag is set *)

Lemma in_flight_insert (l : list tick_pc) (i : nat) (x y : tick_pc) :
  l !! i = Some x ->
  (length (List.filter in_snapshot (<[i:=y]> l)) + (if in_snapshot x then 1 else 0) =
   length (List.filter in_snapshot l) + (if in_snapshot y then 1 else 0))%nat.
Proof.
  revert i. induction l as [|z l IH]; intros [|i] Hi; try discriminate.
  - injection Hi as ->. simpl. destruct (in_snapshot x), (in_snapshot y); simpl; lia.
  - simpl in Hi. specialize (IH i Hi). simpl.
    destruct (in_snapshot z); simpl; lia.
Qed.

Lemma in_flight_snoc (l : list tick_pc) (y : tick_pc) :
  in_snapshot y = false ->
  length (List.filter in_snapshot (l ++ [y])) = length (List.filter in_snapshot l).
Proof. intros Hy. rewrite List.filter_app. simpl. rewrite Hy. now rewrite app_nil_r. Qed.

Ltac quiet_primitive :=
  primitive; unfold quiet_since, stopped in *; simpl;
  repeat match goal with
         | |- context [match ?x with _ => _ end] => destruct x; simpl
         end;
  try assumption; try tauto.

Lemma quiet_snapshot_state w0 ev : preserves (quiet_since w0) (_snapshot_state ev).
Proof.
  intros w H. unfold _snapshot_state, bind, get_self. simpl.
  destruct H as (Hs & H). unfold stopped in Hs. rewrite Hs. simpl. now split.
Qed.

Lemma quiet_start_snapshot_timer w0 ev :
  preserves (quiet_since w0) (_start_snapshot_timer ev).
Proof.
  intros w H. unfold _start_snapshot_timer, bind, get_self, timer_guard. simpl.
  destruct H as (Hs & H). unfold stopped in Hs. rewrite Hs. simpl. now split.
Qed.

Lemma quiet_schedule_next w0 ev : preserves (quiet_since w0) (schedule_next ev).
Proof. unfold schedule_next. preserves_struct; quiet_primitive. Qed.

(** The methods the host calls, the crash handler and the worker enqueue
    nothing and move no timer thread once the stop flag is set. *)
Lemma quiet_methods w0 e :
  match e with TimerFires _ | TickStep _ _ => False | _ => True end ->
  preserves (quiet_since w0) (exec e).
Proof.
  destruct e as [ev| |x ev|t|i ev|ev]; cbn [exec]; intros He; try contradiction.
  - unfold setup.
    preserves_with ltac:(apply quiet_start_snapshot_timer); quiet_primitive.
  - unfold teardown. preserves_struct; quiet_primitive.
  - apply preserves_excepthook; [intros id|unfold crash_body];
      preserves_struct; quiet_primitive.
  - intros w (Hs & H). unfold _upload_worker.
    destruct (workers w); [now split|]. unfold stopped in Hs. rewrite Hs. now split.
Qed.

(** One event in a stopped world: the flag stays set, and a heartbeat is
    enqueued only by a timer thread that was already in [InSnapshot], which
    then leaves it. *)
Lemma stopped_step w e :
  stopped w ->
  stopped (step w e) /\
  exists added,
    enqueued (step w e) = (enqueued w ++ added)%list /\
    (length added + in_flight (step w e) <= in_flight w)%nat.
Proof.
  intros Hs.
  assert (Hquiet : quiet_since w w) by now repeat split.
  assert (Hmeth : match e with TimerFires _ | TickStep _ _ => False | _ => True end ->
                  quiet_since w (step w e)).
  { intros He. now apply (quiet_methods w e He w). }
  assert (Hdone : forall w', quiet_since w w' ->
                  stopped w' /\
                  exists added,
                    enqueued w' = (enqueued w ++ added)%list /\
                    (length added + in_flight w' <= in_flight w)%nat).
  { intros w' (Hs' & He' & Hk'). split; [exact Hs'|]. exists [].
    unfold in_flight. rewrite He', Hk', app_nil_r. simpl. split; [reflexivity | lia]. }
  destruct e as [ev| |x ev|t|i ev|ev]; try (apply Hdone, Hmeth; exact I).
  - (* a timer fires: a new thread at the guard *)
    unfold step. cbn [exec]. unfold timer_fires.
    destruct (timers w !! t) as [tm|]; [|now apply Hdone].
    destruct (tstate tm); try now apply Hdone.
    simpl. split; [exact Hs|]. exists []. rewrite app_nil_r. split; [reflexivity|].
    unfold in_flight. simpl. rewrite in_flight_snoc by reflexivity. lia.
  - (* a timer thread moves *)
    unfold step. cbn [exec]. unfold tick_step, set_pc.
    destruct (ticks w !! i) as [pc|] eqn:Hpc; [|now apply Hdone].
    unfold stopped in Hs.
    destruct pc; try now apply Hdone.
    + unfold timer_guard. rewrite Hs. simpl. split; [exact Hs|]. exists [].
      rewrite app_nil_r. split; [reflexivity|]. unfold in_flight. simpl.
      pose proof (in_flight_insert (ticks w) i AtGuard TickDone Hpc) as H.
      simpl in H. lia.
    + rewrite Hs. simpl. split; [exact Hs|]. exists [].
      rewrite app_nil_r. split; [reflexivity|]. unfold in_flight. simpl.
      pose proof (in_flight_insert (ticks w) i AtSnapshot AtReschedule Hpc) as H.
      simpl in H. lia.
    + destruct (snapshot_body_frame ev w) as (Hself & _ & _ & _ & _ & Hticks & _).
      pose proof (snapshot_body_enqueued ev w) as Henq.
      assert (Hstop' : stopped (snd (snapshot_body ev w))).
      { unfold stopped. rewrite <- Hs, <- Hself. reflexivity. }
      destruct (snapshot_body ev w) as [[u|e] w']; cbn [snd] in *.
      * split; [exact Hstop'|].
        pose proof (in_flight_insert (ticks w') i InSnapshot AtReschedule) as H.
        rewrite Hticks in H. specialize (H Hpc). simpl in H.
        unfold in_flight. simpl. rewrite Hticks.
        destruct Henq as [-> | (st & _ & ->)];
          [exists []; rewrite app_nil_r | eexists [_]];
          (split; [reflexivity | simpl; lia]).
      * split; [exact Hstop'|].
        pose proof (in_flight_insert (ticks w') i InSnapshot TickDone) as H.
        rewrite Hticks in H. specialize (H Hpc). simpl in H.
        unfold in_flight. simpl. rewrite Hticks.
        destruct Henq as [-> | (st & _ & ->)];
          [exists []; rewrite app_nil_r | eexists [_]];
          (split; [reflexivity | simpl; lia]).
    + pose proof (quiet_schedule_next w ev w Hquiet) as (Hs' & He' & Hk').
      destruct (schedule_next ev w) as [r w']; cbn [snd] in *.
      split; [exact Hs'|]. exists []. rewrite app_nil_r. split; [exact He'|].
      pose proof (in_flight_insert (ticks w') i AtReschedule TickDone) as H.
      rewrite Hk' in H. specialize (H Hpc). simpl in H.
      unfold in_flight. simpl. rewrite Hk'. lia.
Qed.

Lemma stopped_run es :
  forall w,
    stopped w ->
    exists added,
      enqueued (run es w) = (enqueued w ++ added)%list /\
      (length added <= in_flight w)%nat.
Proof.
  induction es as [|e es IH]; intros w Hs.
  - exists []. rewrite app_nil_r. split; [reflexivity | simpl; lia].
  - destruct (stopped_step w e Hs) as (Hs' & added1 & He1 & Hn1).
    destruct (IH (step w e) Hs') as (added2 & He2 & Hn2).
    exists (added1 ++ added2)%list. cbn [run fold_left]. fold (run es (step w e)).
    rewrite He2, He1, <- app_assoc, length_app. split; [reflexivity | lia].
Qed.

(** A timer thread that has read the stop flag twice before [teardown] runs
    still enqueues its heartbeat after [teardown] has returned. *)
Lemma heartbeat_enqueued_after_teardown :
  let w := run [CallSetup Scenario.healthy; TimerFires 0;
                TickStep 0 Scenario.healthy; TickStep 0 Scenario.healthy]
               (boot (Scenario.args "activity") 0) in
  let w' := snd (teardown w) in
  fst (teardown w) = Return tt /\
  length (enqueued w') = 1%nat /\
  length (enqueued (run [TickStep 0 Scenario.healthy] w')) = 2%nat.
Proof. vm_compute. repeat split. Qed.

(** C6 (amended). After a first [setup], complete or cut short by an error,
    and whatever happened since: [teardown] returns without error, and so does
    a second [teardown]; after each the exception hook is the one that was in
    place before [setup]. After [teardown] has returned, the only heartbeats
    still enqueued come from timer threads that had passed both reads of the
    stop flag before, at most one each: a tick that reads the flag afterwards
    enqueues nothing, and with no such thread nothing is enqueued any more. *)
Theorem teardown_after_setup (a : init_args) (h : nat) (ev : env) (es later : list event) :
  no_setup es = true ->
  let w := run (CallSetup ev :: es) (boot a h) in
  let w1 := snd (teardown w) in
  let w2 := snd (teardown w1) in
  fst (teardown w) = Return tt /\ fst (teardown w1) = Return tt /\
  sys_excepthook w1 = HostHook h /\ sys_excepthook w2 = HostHook h /\
  (exists added,
      enqueued (run later w1) = (enqueued w1 ++ added)%list /\
      (length added <= in_flight w1)%nat) /\
  (in_flight w1 = 0%nat -> enqueued (run later w1) = enqueued w1).
Proof.
  intros Hes w w1 w2.
  assert (Hw : set_up_once h w).
  { subst w. cbn [run fold_left]. fold (run es (step (boot a h) (CallSetup ev))).
    apply preserves_run_without_setup; [apply set_up_once_exec | exact Hes |].
    apply set_up_once_setup. }
  assert (Hw1 : set_up_once h w1) by now apply set_up_once_teardown.
  assert (Hhook : forall v, set_up_once h v -> sys_excepthook (snd (teardown v)) = HostHook h).
  { intros v [Ha Hh]. destruct (_timer (self v)) as [|t] eqn:Ht; [congruence|].
    rewrite (teardown_spec v t Ht). simpl.
    destruct Hh as [[-> _] | [-> Hs]]; [reflexivity | exact Hs]. }
  assert (Hstop : stopped w1).
  { destruct Hw as [Ha _]. destruct (_timer (self w)) as [|t] eqn:Ht; [congruence|].
    subst w1. now rewrite (teardown_spec w t Ht). }
  destruct (stopped_run later w1 Hstop) as (added & Hadd & Hlen).
  repeat split.
  - apply teardown_returns, Hw.
  - apply teardown_returns, Hw1.
  - now apply Hhook.
  - now apply Hhook.
  - now exists added.
  - intros H0. rewrite H0 in Hlen. destruct added; [|simpl in Hlen; lia].
    now rewrite app_nil_r in Hadd.
Qed.

(** A full tick, then two teardowns and a further timer firing; and a [setup]
    that fails because no thread can be started. *)
Lemma teardown_after_setup_witness :
  (let w := run [CallSetup Scenario.healthy; TimerFires 0;
                 TickStep 0 Scenario.healthy; TickStep 0 Scenario.healthy;
                 TickStep 0 Scenario.healthy; TickStep 0 Scenario.healthy]
                (boot (Scenario.args "activity") 7) in
   let w1 := snd (teardown w) in
   fst (teardown w) = Return tt /\ fst (teardown w1) = Return tt /\
   sys_excepthook w1 = HostHook 7 /\
   enqueued (run [TimerFires 1; TickStep 1 Scenario.healthy; TickStep 1 Scenario.healthy]
               w1) = enqueued w1) /\
  (let w := run [CallSetup Scenario.no_threads] (boot (Scenario.args "activity") 7) in
   fst (setup Scenario.no_threads (boot (Scenario.args "activity") 7)) = Raise RuntimeError /\
   fst (teardown w) = Return tt /\ fst (teardown (snd (teardown w))) = Return tt /\
   sys_excepthook (snd (teardown w)) = HostHook 7).
Proof.
  split.
  - pose proof (teardown_after_setup (Scenario.args "activity") 7
                 Scenario.healthy
                 [TimerFires 0; TickStep 0 Scenario.healthy; TickStep 0 Scenario.healthy;
                  TickStep 0 Scenario.healthy; TickStep 0 Scenario.healthy]
                 [TimerFires 1; TickStep 1 Scenario.healthy; TickStep 1 Scenario.healthy]
                 eq_refl) as H.
    cbv zeta in H. destruct H as (H1 & H2 & H3 & _ & _ & H6).
    cbv zeta. split; [exact H1|]. split; [exact H2|]. split; [exact H3|].
    apply H6. vm_compute. reflexivity.
  - pose proof (teardown_after_setup (Scenario.args "activity") 7
                 Scenario.no_threads [] [] eq_refl) as H.
    cbv zeta in H. destruct H as (H1 & H2 & H3 & _).
    cbv zeta. split; [vm_compute; reflexivity|].
    split; [exact H1|]. split; [exact H2 | exact H3].
Defined.

(** ** The crash handler *)

(** When the state cannot be read the handler ends at line 148: the error
    leaves it and nothing else has happened. *)
Lemma crash_body_state_raises x ev w e :
  to_dict ev = Raise e -> crash_body x ev w = (Raise e, w).
Proof.
  intros H. unfold crash_body, bind, get_self, call. now rewrite H.
Qed.

Lemma crash_handler_state_raises x ev w e :
  to_dict ev = Raise e -> _crash_handler x ev w = (Raise e, w).
Proof.
  intros H. unfold _crash_handler.
  destruct (recursion_room ev); cbn [crash_handler_nested]; unfold bind at 1;
    now rewrite (crash_body_state_raises x ev w e H).
Qed.

(** Lines 142-157 write to the log and call the transport, and nothing
    else. *)
Lemma crash_body_frame x ev w :
  self (snd (crash_body x ev w)) = self w /\
  hook_calls (snd (crash_body x ev w)) = hook_calls w.
Proof.
  assert (H : preserves (fun v => self v = self w /\ hook_calls v = hook_calls w)
                (crash_body x ev)).
  { unfold crash_body. preserves_struct; primitive; simpl;
      repeat match goal with
             | |- context [match ?x with _ => _ end] => destruct x; simpl
             end; assumption. }
  now apply H.
Qed.

(** When the state can be read, lines 142-157 log the report if it can be
    serialised and post it if it is [sendable]; they return unless the
    transport raises something that is no [Exception]. *)
Lemma crash_body_spec x ev w st :
  to_dict ev = Return st ->
  let cr := built_crash_report x ev (self w) st in
  let r := crash_body x ev w in
  posts (snd r) =
    (posts w ++
     if sendable (crash_url (self w)) (CrashPayload cr)
     then [{| post_url := crash_url (self w); post_json := CrashPayload cr;
              post_timeout := 2 |}]
     else [])%list /\
  (json_ok_map st = true ->
   exists rest, log (snd r) = (log w ++ (ERROR, MsgCrashReport cr) :: rest)%list) /\
  ((forall e, post_result ev = Raise e -> is_Exception e = true) -> fst r = Return tt).
Proof.
  intros Hst cr r. subst r cr.
  unfold crash_body, built_crash_report, sendable, bind, try_except, get_self, call,
    logger, requests_post, ret, json_dumps.
  rewrite Hst. cbn [cr_last_state].
  split; [|split].
  - destruct (json_ok_map st); simpl;
      [destruct (PyStr.contains "myapp.com" (crash_url (self w))); simpl;
       [|destruct (post_result ev) as [[]|e]; simpl; [|destruct (is_Exception e); simpl]]|];
      rewrite ?app_nil_r; reflexivity.
  - intros ->. simpl.
    destruct (PyStr.contains "myapp.com" (crash_url (self w))); simpl;
      [|destruct (post_result ev) as [[]|e]; simpl; [|destruct (is_Exception e); simpl]];
      rewrite <- ?app_assoc; eexists; reflexivity.
  - intros Hpost.
    destruct (json_ok_map st); simpl;
      [destruct (PyStr.contains "myapp.com" (crash_url (self w))); simpl;
       [|destruct (post_result ev) as [[]|e] eqn:Hp; simpl;
         [|rewrite (Hpost e eq_refl); simpl]]|];
      reflexivity.
Qed.

(** The handler is lines 142-157 followed by line 161, where the hook is the
    one that was saved when the handler was entered. *)
Lemma crash_handler_nested_eq room x ev w :
  crash_handler_nested room x ev w =
    match crash_body x ev w with
    | (Return _, w1) =>
        match _original_hook (self w) with
        | Some (HostHook id) => call_hook id x w1
        | Some CrashHandler =>
            match room with
            | O => (Raise RecursionError, w1)
            | S room' => crash_handler_nested room' x ev w1
            end
        | None => (Return tt, w1)
        end
    | (Raise e, w1) => (Raise e, w1)
    end.
Proof.
  destruct (crash_body_frame x ev w) as [Hself _].
  destruct room; cbn [crash_handler_nested]; unfold bind at 1;
    destruct (crash_body x ev w) as [[u|e] w1]; try reflexivity;
    unfold bind, get_self; cbn [fst snd] in *; rewrite Hself;
    now destruct (_original_hook (self w)) as [[id|]|].
Qed.

(** When the hook that [setup] saved is not the handler itself, the handler
    is lines 142-157 followed by one call of that hook, if there is one. *)
Lemma crash_handler_once x ev w :
  _original_hook (self w) <> Some CrashHandler ->
  _crash_handler x ev w =
    match crash_body x ev w with
    | (Return _, w1) =>
        match _original_hook (self w) with
        | Some (HostHook id) => call_hook id x w1
        | _ => (Return tt, w1)
        end
    | (Raise e, w1) => (Raise e, w1)
    end.
Proof.
  intros Hnot. unfold _crash_handler. rewrite crash_handler_nested_eq.
  destruct (crash_body x ev w) as [[u|e] w1]; [|reflexivity].
  destruct (_original_hook (self w)) as [[id|]|]; try reflexivity.
  now contradiction Hnot.
Qed.

(** When the state can be read and the saved hook is not the handler itself,
    the handler logs the report if it can be serialised, posts it if it is
    [sendable], and calls the saved hook, unless the transport raises something
    that is no [Exception]. *)
Lemma crash_handler_spec x ev w st :
  to_dict ev = Return st ->
  _original_hook (self w) <> Some CrashHandler ->
  let cr := built_crash_report x ev (self w) st in
  let r := _crash_handler x ev w in
  posts (snd r) =
    (posts w ++
     if sendable (crash_url (self w)) (CrashPayload cr)
     then [{| post_url := crash_url (self w); post_json := CrashPayload cr;
              post_timeout := 2 |}]
     else [])%list /\
  (json_ok_map st = true ->
   exists rest, log (snd r) = (log w ++ (ERROR, MsgCrashReport cr) :: rest)%list) /\
  ((forall e, post_result ev = Raise e -> is_Exception e = true) ->
   forall id, _original_hook (self w) = Some (HostHook id) ->
   fst r = Return tt /\ hook_calls (snd r) = (hook_calls w ++ [(id, x)])%list).
Proof.
  intros Hst Hnot cr r. subst r.
  destruct (crash_body_spec x ev w st Hst) as (Hposts & Hlog & Hret).
  destruct (crash_body_frame x ev w) as [_ Hcalls].
  fold cr in Hposts, Hlog. cbv zeta in Hposts, Hlog, Hret.
  rewrite (crash_handler_once x ev w Hnot).
  destruct (crash_body x ev w) as [[u|e] w1]; cbn [fst snd] in *.
  - split; [|split].
    + now destruct (_original_hook (self w)) as [[id|]|].
    + intros Hj. now destruct (_original_hook (self w)) as [[id|]|]; apply Hlog.
    + intros _ id Ho. rewrite Ho. unfold call_hook. cbn. now rewrite Hcalls.
  - split; [exact Hposts|]. split; [exact Hlog|].
    intros Hpost id _. specialize (Hret Hpost). discriminate Hret.
Qed.

(** When [setup] saved the handler as its own predecessor, every call of the
    handler ends in a call of itself: each one builds, logs and posts its
    report, no hook of the host is ever called, and the interpreter's
    [RecursionError] leaves the outermost call. *)
Lemma crash_handler_reenters x ev st room :
  to_dict ev = Return st ->
  (forall e, post_result ev = Raise e -> is_Exception e = true) ->
  forall w,
    _original_hook (self w) = Some CrashHandler ->
    let cr := built_crash_report x ev (self w) st in
    let r := crash_handler_nested room x ev w in
    fst r = Raise RecursionError /\
    posts (snd r) =
      (posts w ++
       if sendable (crash_url (self w)) (CrashPayload cr)
       then repeat {| post_url := crash_url (self w); post_json := CrashPayload cr;
                      post_timeout := 2 |} (S room)
       else [])%list /\
    hook_calls (snd r) = hook_calls w.
Proof.
  intros Hst Hpost. induction room as [|room IH]; intros w Ho cr r; subst r;
    destruct (crash_body_spec x ev w st Hst) as (Hposts & _ & Hret);
    destruct (crash_body_frame x ev w) as [Hself Hcalls];
    fold cr in Hposts; cbv zeta in Hposts, Hret; specialize (Hret Hpost);
    rewrite crash_handler_nested_eq, Ho;
    destruct (crash_body x ev w) as [[u|e] w1]; cbn [fst snd] in *;
    try discriminate Hret.
  - split; [reflexivity|]. split; [|exact Hcalls].
    rewrite Hposts. now destruct (sendable _ _).
  - assert (Ho1 : _original_hook (self w1) = Some CrashHandler) by now rewrite Hself.
    destruct (IH w1 Ho1) as (Hr & Hp & Hc). cbv zeta in Hp.
    split; [exact Hr|]. split; [|now rewrite Hc].
    rewrite Hp, Hposts, Hself. fold cr.
    destruct (sendable _ _); [|now rewrite !app_nil_r].
    rewrite <- app_assoc. reflexivity.
Qed.

(** [setup] twice on an endpoint of the integrator's own, then an exception
    nobody caught: the handler calls itself until the stack is full, 988
    reports are posted, no hook of the host is called and [RecursionError]
    is what remains of the exception. *)
Example handler_saved_over_itself :
  let w := run [CallSetup Scenario.healthy; CallSetup Scenario.healthy]
               (boot (Scenario.args_with_url "activity" Scenario.real_url) 0) in
  let r := excepthook Scenario.boom Scenario.healthy w in
  _original_hook (self w) = Some CrashHandler /\
  fst r = Raise RecursionError /\ length (posts (snd r)) = 988%nat /\
  hook_calls (snd r) = [].
Proof. vm_compute. repeat split. Qed.

(** C1 (the code departs from it). The plugin is set up over the host's hook
    0; an unhandled exception arrives while the host's state cannot be read.
    The handler raises at line 148, before its [try]: the host's hook is not
    called and nothing is logged. *)
Theorem crash_handler_state_failure_skips_hook :
  let w := snd (setup Scenario.healthy (boot (Scenario.args "activity") 0)) in
  let r := excepthook Scenario.boom Scenario.state_unreadable w in
  sys_excepthook w = CrashHandler /\ _original_hook (self w) = Some (HostHook 0) /\
  fst r = Raise RuntimeError /\ hook_calls (snd r) = [] /\ log (snd r) = log w.
Proof. vm_compute. repeat split. Qed.

(** C9. When the handler reads the state [st], the report it logs and posts
    carries [st] itself as [last_state]: a key that the heartbeat path drops
    as sensitive is in the report with its value. The handler is taken with
    the hook of the host, or none, saved as its predecessor; saved over
    itself it makes one such report per nested call
    ([crash_handler_reenters]). *)
Theorem crash_report_last_state_unsanitized
    (x : exc_info) (ev : env) (w : world) (st : gmap string value) :
  to_dict ev = Return st -> json_ok_map st = true ->
  _original_hook (self w) <> Some CrashHandler ->
  let cr := built_crash_report x ev (self w) st in
  (exists rest,
      log (snd (_crash_handler x ev w)) = (log w ++ (ERROR, MsgCrashReport cr) :: rest)%list) /\
  posts (snd (_crash_handler x ev w)) =
    (posts w ++
     if sendable (crash_url (self w)) (CrashPayload cr)
     then [{| post_url := crash_url (self w); post_json := CrashPayload cr;
              post_timeout := 2 |}]
     else [])%list /\
  cr_last_state cr = st /\
  forall k v,
    sensitive k = true -> st !! k = Some v ->
    cr_last_state cr !! k = Some v /\ sanitize st !! k = None.
Proof.
  intros Hst Hjson Hnot cr.
  destruct (crash_handler_spec x ev w st Hst Hnot) as (Hposts & Hlog & _).
  split; [now apply Hlog|]. split; [exact Hposts|]. split; [reflexivity|].
  intros k v Hk Hv. split; [exact Hv|].
  now rewrite sanitize_lookup, safe_key_sensitive, Hk.
Qed.

(** The state of the example holds [userPassword]: the crash report has it,
    the sanitized state has not. *)
Lemma crash_report_last_state_unsanitized_witness :
  let w := snd (setup Scenario.healthy (boot (Scenario.args "activity") 0)) in
  cr_last_state
    (built_crash_report Scenario.boom Scenario.healthy (self w) Scenario.app_state)
    !! "userPassword" = Some (VStr "hunter2") /\
  sanitize Scenario.app_state !! "userPassword" = None.
Proof.
  cbv zeta.
  apply (crash_report_last_state_unsanitized Scenario.boom Scenario.healthy
           (snd (setup Scenario.healthy (boot (Scenario.args "activity") 0)))
           Scenario.app_state);
    first [vm_compute; reflexivity | vm_compute; discriminate].
Defined.

(** ** The upload worker *)

(** One pass of the worker that finds [hb] at the head of the queue: the
    payload is logged if it can be serialised and posted if it is
    [sendable]. *)
Lemma upload_pass_spec ev w hb q :
  get (queue (self w)) = (Return hb, q) ->
  posts (snd (upload_pass ev w)) =
    (posts w ++
     if sendable (telemetry_url (self w)) (HeartbeatPayload hb)
     then [{| post_url := telemetry_url (self w); post_json := HeartbeatPayload hb;
              post_timeout := 5 |}]
     else [])%list /\
  (json_dumps (HeartbeatPayload hb) = Return tt ->
   exists rest,
     log (snd (upload_pass ev w)) = (log w ++ (DEBUG, MsgTelemetryPayload hb) :: rest)%list).
Proof.
  intros Hget.
  unfold upload_pass, sendable, bind, try_except, try_finally, queue_get, queue_task_done,
    call, logger, get_self, requests_post, ret.
  rewrite Hget.
  destruct (json_dumps (HeartbeatPayload hb)) as [[]|e0]; cbn -[json_dumps].
  - destruct (PyStr.contains "myapp.com" (telemetry_url (self w))); cbn -[json_dumps];
      [|destruct (post_result ev) as [[]|e]; cbn -[json_dumps];
        [|destruct (is_Exception e); cbn -[json_dumps]]];
      destruct (task_done q) as [[[]|e'] q']; cbn -[json_dumps];
      (split; [rewrite ?app_nil_r; reflexivity
              | intros _; rewrite <- ?app_assoc; eexists; reflexivity]).
  - destruct (is_Exception e0); cbn -[json_dumps];
      destruct (task_done q) as [[[]|e'] q']; cbn -[json_dumps];
      (split; [rewrite ?app_nil_r; reflexivity | discriminate]).
Qed.

(** ** Which URLs are sent to *)

(** Both endpoints set to a URL on a host of the integrator's own with
    [myapp.com] in its path: the host is not the placeholder's and holds no
    [myapp.com], yet the worker dequeues and logs the heartbeat without
    posting it, and the crash handler logs the report without posting it. *)
Lemma own_host_url_not_transmitted :
  let w := snd (setup Scenario.healthy
                  (boot (Scenario.args_with_url "activity" Scenario.own_host_url) 0)) in
  let w1 := step w (WorkerStep Scenario.healthy) in
  let w2 := step w (Unhandled Scenario.boom Scenario.healthy) in
  url_host Scenario.own_host_url = "telemetry.example.org" /\
  url_host default_telemetry_url = "api.myapp.com" /\
  PyStr.contains "myapp.com" (url_host Scenario.own_host_url) = false /\
  telemetry_url (self w) = Scenario.own_host_url /\
  crash_url (self w) = Scenario.own_host_url /\
  length (items (queue (self w))) = 1%nat /\
  items (queue (self w1)) = [] /\ length (log w1) = S (length (log w)) /\ posts w1 = [] /\
  length (log w2) = S (length (log w)) /\ length (hook_calls w2) = 1%nat /\ posts w2 = [].
Proof. vm_compute. repeat split. Qed.

(** C3 (amended). A heartbeat the worker dequeues, and a crash report the
    handler builds, is passed to the transport exactly when it was serialised
    for the log without error and the configured URL does not contain the
    text [myapp.com] anywhere; whenever it was serialised it is logged,
    whatever the URL. The built-in placeholder URLs contain [myapp.com], so
    nothing is sent to them. The handler is taken with the hook of the host,
    or none, saved as its predecessor: it then makes one report per
    exception. Saved over itself by a second [setup], it makes one per
    nested call, each sent under the same condition
    ([crash_handler_reenters]). *)
Theorem transport_called_iff_sendable :
  (forall ev w hb q,
      get (queue (self w)) = (Return hb, q) ->
      posts (snd (upload_pass ev w)) =
        (posts w ++
         if sendable (telemetry_url (self w)) (HeartbeatPayload hb)
         then [{| post_url := telemetry_url (self w); post_json := HeartbeatPayload hb;
                  post_timeout := 5 |}]
         else [])%list /\
      (json_dumps (HeartbeatPayload hb) = Return tt ->
       exists rest,
         log (snd (upload_pass ev w)) =
           (log w ++ (DEBUG, MsgTelemetryPayload hb) :: rest)%list)) /\
  (forall x ev w st,
      to_dict ev = Return st ->
      _original_hook (self w) <> Some CrashHandler ->
      let cr := built_crash_report x ev (self w) st in
      posts (snd (_crash_handler x ev w)) =
        (posts w ++
         if sendable (crash_url (self w)) (CrashPayload cr)
         then [{| post_url := crash_url (self w); post_json := CrashPayload cr;
                  post_timeout := 2 |}]
         else [])%list /\
      (json_dumps (CrashPayload cr) = Return tt ->
       exists rest,
         log (snd (_crash_handler x ev w)) =
           (log w ++ (ERROR, MsgCrashReport cr) :: rest)%list)) /\
  (forall url p,
      sendable url p = true <->
      json_dumps p = Return tt /\ PyStr.contains "myapp.com" url = false) /\
  (forall p, sendable default_telemetry_url p = false /\
             sendable default_crash_url p = false).
Proof.
  split; [|split; [|split]].
  - intros ev w hb q Hget. now apply (upload_pass_spec ev w hb q).
  - intros x ev w st Hst Hnot cr.
    destruct (crash_handler_spec x ev w st Hst Hnot) as (Hposts & Hlog & _).
    split; [exact Hposts|]. intros Hj. apply Hlog.
    unfold json_dumps in Hj. cbn [cr cr_last_state built_crash_report] in Hj.
    now destruct (json_ok_map st).
  - intros url p. unfold sendable.
    destruct (json_dumps p) as [[]|e];
      [rewrite negb_true_iff; tauto | split; [discriminate | now intros [? _]]].
  - intros p. unfold sendable. destruct (json_dumps p); split; reflexivity.
Qed.

(** The plugin left on its placeholder URLs: the worker logs the heartbeat
    and posts nothing. The plugin given an endpoint of the integrator's own
    and set up over the host's hook: the handler posts its report there,
    once. *)
Lemma transport_called_iff_sendable_witness :
  let w := snd (setup Scenario.healthy (boot (Scenario.args "activity") 0)) in
  let v := snd (setup Scenario.healthy
                  (boot (Scenario.args_with_url "activity" Scenario.real_url) 0)) in
  (posts (snd (upload_pass Scenario.healthy w)) = [] /\
   exists rest,
     log (snd (upload_pass Scenario.healthy w)) =
       (log w ++
        (DEBUG, MsgTelemetryPayload (Scenario.heartbeat_of (VFloat (Qmake 425 10)))) :: rest)%list) /\
  posts (snd (_crash_handler Scenario.boom Scenario.healthy v)) =
    [{| post_url := Scenario.real_url;
        post_json := CrashPayload (built_crash_report Scenario.boom Scenario.healthy (self v)
                                     Scenario.app_state);
        post_timeout := 2 |}].
Proof.
  cbv zeta. split.
  - destruct (proj1 transport_called_iff_sendable Scenario.healthy
                (snd (setup Scenario.healthy (boot (Scenario.args "activity") 0)))
                (Scenario.heartbeat_of (VFloat (Qmake 425 10)))
                {| maxsize := 100; items := []; unfinished_tasks := 1 |}) as [Hposts Hlog].
    + vm_compute. reflexivity.
    + split; [rewrite Hposts; vm_compute; reflexivity|].
      apply Hlog. vm_compute. reflexivity.
  - destruct (proj1 (proj2 transport_called_iff_sendable) Scenario.boom Scenario.healthy
                (snd (setup Scenario.healthy
                        (boot (Scenario.args_with_url "activity" Scenario.real_url) 0)))
                Scenario.app_state) as [Hposts _].
    + reflexivity.
    + vm_compute. discriminate.
    + rewrite Hposts. vm_compute. reflexivity.
Defined.

(** ** The RAM metric *)

(** [psutil] is installed but reading the memory figures fails with
    [OSError]: the snapshot returns, but no heartbeat is built; the tick is
    skipped with the error of line 138. *)
Lemma ram_failure_skips_heartbeat :
  let w := boot (Scenario.args "activity") 0 in
  let r := _snapshot_state (Scenario.with_psutil (Raise OSError)) w in
  fst r = Return tt /\ enqueued (snd r) = [] /\ items (queue (self (snd r))) = [] /\
  log (snd r) = [(ERROR, MsgSnapshotError OSError)].
Proof. vm_compute. repeat split. Qed.

(** C8 (amended). When the RAM metric fails with an [ImportError] ([psutil]
    is not installed), the snapshot returns and offers the queue a heartbeat
    whose [ram_usage] is the string [unknown]; the heartbeat is enqueued when
    the queue has room. When the metric fails with any other [Exception], the
    snapshot returns as well, logs the error and enqueues nothing. *)
Theorem ram_unavailable_sentinel (ev : env) (w : world) (e : exn) (st : gmap string value) :
  psutil_percent ev = Raise e ->
  _stop_event (self w) = false -> app_valid ev = true -> to_dict ev = Return st ->
  let hb :=
    {| hb_type := "heartbeat"; hb_session := session_id (self w);
       hb_state := sanitize st;
       hb_system := match get_system_info ev with
                    | Return v => v
                    | Raise _ => VDict [("os", VStr (platform_system ev))]
                    end;
       hb_ram_usage := VStr "unknown"; hb_timestamp := time_time ev |} in
  let r := _snapshot_state ev w in
  (is_ImportError e = true ->
   fst r = Return tt /\
   (qsize (queue (self w)) < maxsize (queue (self w)) ->
    enqueued (snd r) = (enqueued w ++ [hb])%list /\
    items (queue (self (snd r))) = (items (queue (self w)) ++ [hb])%list) /\
   (0 < maxsize (queue (self w)) <= qsize (queue (self w)) ->
    enqueued (snd r) = enqueued w /\ queue (self (snd r)) = queue (self w) /\
    log (snd r) = (log w ++ [(WARNING, MsgQueueFull)])%list)) /\
  (is_ImportError e = false -> is_Exception e = true ->
   fst r = Return tt /\ enqueued (snd r) = enqueued w /\
   queue (self (snd r)) = queue (self w) /\
   log (snd r) = (log w ++ [(ERROR, MsgSnapshotError e)])%list).
Proof.
  intros Hram Hstop Hvalid Hst hb r. subst r hb.
  unfold _snapshot_state, snapshot_body, bind, try_except, get_self, call,
    queue_put_nowait, ret, logger.
  rewrite Hstop, Hvalid, Hst, Hram. cbn [negb].
  split.
  - intros Himp.
    destruct (get_system_info ev) as [sys|e1]; cbn [any_exn]; rewrite Himp;
      (split; [|split]).
    all: try (intros Hroom; rewrite put_nowait_room by exact Hroom; now split).
    all: try (intros [Hpos Hfull]; rewrite put_nowait_full by assumption;
              simpl; destruct w as [p ? ? ? ? ? ? ? ?]; now destruct p).
    all: match goal with
         | |- context [put_nowait ?h ?q] =>
             destruct (put_nowait h q) as [[[]|e3] q'] eqn:Hput
         end;
         try reflexivity;
         unfold put_nowait in Hput;
         destruct (_ && _) in Hput; inversion Hput; reflexivity.
  - intros Himp Hexc.
    destruct (get_system_info ev) as [sys|e1]; cbn [any_exn]; rewrite Himp, Hexc; simpl;
      destruct w as [p ? ? ? ? ? ? ? ?]; now destruct p.
Qed.

(** Without [psutil], the first snapshot of a fresh plugin enqueues the
    heartbeat with [ram_usage] set to [unknown]. *)
Lemma ram_unavailable_sentinel_witness :
  let w := boot (Scenario.args "activity") 0 in
  let r := _snapshot_state (Scenario.with_psutil (Raise ModuleNotFoundError)) w in
  fst r = Return tt /\
  enqueued (snd r) = [Scenario.heartbeat_of (VStr "unknown")] /\
  items (queue (self (snd r))) = [Scenario.heartbeat_of (VStr "unknown")].
Proof.
  cbv zeta.
  destruct (ram_unavailable_sentinel (Scenario.with_psutil (Raise ModuleNotFoundError))
              (boot (Scenario.args "activity") 0) ModuleNotFoundError Scenario.app_state
              eq_refl eq_refl eq_refl eq_refl) as [Himport _].
  destruct (Himport eq_refl) as (Hret & Hroom & _).
  split; [exact Hret|].
  destruct Hroom as [Henq Hitems]; [vm_compute; reflexivity|].
  split; [rewrite Henq | rewrite Hitems]; vm_compute; reflexivity.
Defined.

(** ** The timer thread and the method it runs *)

Lemma snapshot_body_with_ticks ev l w :
  snapshot_body ev (with_ticks l w) =
    (fst (snapshot_body ev w), with_ticks l (snd (snapshot_body ev w))).
Proof.
  unfold snapshot_body, bind, try_except, get_self, call, queue_put_nowait, ret, logger.
  destruct (app_valid ev); simpl; [|reflexivity].
  destruct (to_dict ev) as [st|e0]; simpl; [|destruct (is_Exception e0); reflexivity].
  destruct (get_system_info ev) as [sys|e1]; simpl;
    (destruct (psutil_percent ev) as [pct|e2]; simpl;
     [|destruct (is_ImportError e2); simpl; [|destruct (is_Exception e2); reflexivity]]);
    match goal with
    | |- context [put_nowait ?hb ?q] => destruct (put_nowait hb q) as [[u|e3] q']
    end; simpl; try reflexivity;
    destruct (is_Full e3); simpl; try reflexivity;
    destruct (is_Exception e3); reflexivity.
Qed.

Lemma schedule_next_with_ticks ev l w :
  schedule_next ev (with_ticks l w) =
    (fst (schedule_next ev w), with_ticks l (snd (schedule_next ev w))).
Proof.
  unfold schedule_next, bind, get_self, Timer, modify_self, Timer_start. simpl.
  destruct (timer_start ev) as [[]|e]; reflexivity.
Qed.

Lemma step_at_guard i ev w :
  ticks w !! i = Some AtGuard ->
  step w (TickStep i ev) =
    with_ticks (<[i := if timer_guard (self w) then AtSnapshot else TickDone]> (ticks w)) w.
Proof. intros H. unfold step. cbn [exec]. unfold tick_step. now rewrite H. Qed.

Lemma step_at_snapshot i ev w :
  ticks w !! i = Some AtSnapshot ->
  step w (TickStep i ev) =
    with_ticks (<[i := if _stop_event (self w) then AtReschedule else InSnapshot]> (ticks w)) w.
Proof. intros H. unfold step. cbn [exec]. unfold tick_step. now rewrite H. Qed.

Lemma step_in_snapshot i ev w :
  ticks w !! i = Some InSnapshot ->
  step w (TickStep i ev) =
    with_ticks
      (<[i := match fst (snapshot_body ev w) with
              | Return _ => AtReschedule
              | Raise _ => TickDone
              end]> (ticks (snd (snapshot_body ev w))))
      (snd (snapshot_body ev w)).
Proof.
  intros H. unfold step. cbn [exec]. unfold tick_step. rewrite H.
  now destruct (snapshot_body ev w) as [[u|e] w'].
Qed.

Lemma step_at_reschedule i ev w :
  ticks w !! i = Some AtReschedule ->
  step w (TickStep i ev) =
    with_ticks (<[i := TickDone]> (ticks (snd (schedule_next ev w))))
      (snd (schedule_next ev w)).
Proof.
  intros H. unfold step. cbn [exec]. unfold tick_step. rewrite H.
  now destruct (schedule_next ev w) as [r w'].
Qed.

Lemma step_when_done i ev w :
  ticks w !! i = Some TickDone -> step w (TickStep i ev) = w.
Proof. intros H. unfold step. cbn [exec]. unfold tick_step. now rewrite H. Qed.

Lemma with_ticks_twice l l' w : with_ticks l (with_ticks l' w) = with_ticks l w.
Proof. reflexivity. Qed.

(** A timer thread left to run from the guard to its end does to the world
    what [_start_snapshot_timer] does: the interleaved steps are the method
    cut at its reads of the stop flag. *)
Lemma tick_thread_runs_method i ev w :
  ticks w !! i = Some AtGuard ->
  run [TickStep i ev; TickStep i ev; TickStep i ev; TickStep i ev] w =
    with_ticks (<[i:=TickDone]> (ticks w)) (snd (_start_snapshot_timer ev w)).
Proof.
  intros Hpc.
  assert (Hlt : (i < length (ticks w))%nat) by (eapply lookup_lt_Some; exact Hpc).
  assert (Hget : forall (pc : tick_pc) (l : list tick_pc),
             length l = length (ticks w) -> <[i:=pc]> l !! i = Some pc).
  { intros pc l Hl. apply list_lookup_insert_eq. now rewrite Hl. }
  cbn [run fold_left]. rewrite (step_at_guard i ev w Hpc).
  unfold _start_snapshot_timer, _snapshot_state, bind, get_self.
  destruct (timer_guard (self w)) eqn:Hguard; cbn [fst snd ret].
  2:{ (* the guard fails: the thread is done *)
      repeat match goal with
             | |- context [step (with_ticks ?l ?v) (TickStep i ev)] =>
                 rewrite (step_when_done i ev (with_ticks l v) (Hget TickDone _ eq_refl))
             end.
      reflexivity. }
  assert (Hstop : _stop_event (self w) = false).
  { unfold timer_guard in Hguard. now destruct (_stop_event (self w)). }
  rewrite Hstop.
  match goal with
  | |- context [step (with_ticks ?l ?v) (TickStep i ev)] =>
      rewrite (step_at_snapshot i ev (with_ticks l v) (Hget AtSnapshot _ eq_refl))
  end.
  cbn [self ticks with_ticks]. rewrite Hstop, list_insert_insert_eq, with_ticks_twice.
  match goal with
  | |- context [step (with_ticks ?l ?v) (TickStep i ev)] =>
      rewrite (step_in_snapshot i ev (with_ticks l v) (Hget InSnapshot _ eq_refl))
  end.
  rewrite snapshot_body_with_ticks. cbn [fst snd ticks with_ticks].
  rewrite list_insert_insert_eq, with_ticks_twice.
  destruct (snapshot_body_frame ev w) as (_ & _ & _ & _ & _ & Hticks & _).
  destruct (snapshot_body ev w) as [[[]|e] w1]; cbn [fst snd] in *.
  - match goal with
    | |- context [step (with_ticks ?l ?v) (TickStep i ev)] =>
        rewrite (step_at_reschedule i ev (with_ticks l v) (Hget AtReschedule _ eq_refl))
    end.
    rewrite schedule_next_with_ticks. cbn [fst snd ticks with_ticks].
    now rewrite list_insert_insert_eq, with_ticks_twice.
  - match goal with
    | |- context [step (with_ticks ?l ?v) (TickStep i ev)] =>
        rewrite (step_when_done i ev (with_ticks l v) (Hget TickDone _ eq_refl))
    end.
    reflexivity.
Qed.

(** ** The scenarios of the specification, evaluated *)

Example sensitive_keys :
  sensitive "userPassword" = true /\ sensitive "API_TOKEN" = true /\
  sensitive "theme" = false.
Proof. vm_compute. repeat split. Qed.

Example normalize_mode_examples :
  normalize_mode (ModeStr "  Error_Only ") = ModeStr "errors_only" /\
  normalize_mode (ModeStr "ACTIVITY") = ModeStr "activity" /\
  normalize_mode (ModeStr "acti vity") = ModeStr "acti vity" /\
  normalize_mode (ModeOther "None") = ModeOther "None".
Proof. vm_compute. repeat split. Qed.

(** A queue of capacity 2 offered three heartbeats keeps the first two in
    order; the third put raises [Full]. *)
Example capacity_two :
  let hb n := Scenario.heartbeat_of (VInt n) in
  let q := put_all [hb 1; hb 2] (PyQueue.new 2) in
  items q = [hb 1; hb 2] /\
  put_nowait (hb 3) q = (Raise Full, q) /\
  fst (get q) = Return (hb 1) /\ fst (get (snd (get q))) = Return (hb 2).
Proof. vm_compute. repeat split. Qed.

(** Mode [errors_only]: after [setup] and a timer event nothing is queued;
    an unhandled exception yields one logged crash report, no post to the
    placeholder, and one call of the host's hook. *)
Example errors_only_crash :
  let w := run [CallSetup Scenario.healthy; TimerFires 0; TickStep 0 Scenario.healthy]
               (boot (Scenario.args "errors_only") 3) in
  let w' := step w (Unhandled Scenario.boom Scenario.healthy) in
  enqueued w = [] /\ items (queue (self w)) = [] /\
  log w' =
    (log w ++
     [(ERROR, MsgCrashReport
                (built_crash_report Scenario.boom Scenario.healthy (self w)
                   Scenario.app_state))])%list /\
  posts w' = [] /\ hook_calls w' = [(3%nat, Scenario.boom)].
Proof. vm_compute. repeat split. Qed.

(** * Further properties of the code *)

(** ** The constructor *)

Lemma first_truthy_truthy l s : first_truthy l = Some s -> s <> "".
Proof.
  induction l as [|o l IH]; [discriminate|]. cbn [first_truthy].
  destruct (truthy o) eqn:Ho; [|exact IH].
  intros ->. simpl in Ho. now destruct (String.eqb_spec s "").
Qed.

Lemma or_default_py_or o1 o2 d :
  or_default (py_or o1 o2) d =
    if truthy o1 then default d o1 else or_default o2 d.
Proof.
  unfold py_or. destruct (truthy o1) eqn:H1; [|reflexivity].
  destruct o1 as [s|]; [|discriminate]. simpl in *. now destruct (String.eqb s "").
Qed.

Lemma or_default_chain l o d :
  or_default (fold_right py_or o l) d = default d (first_truthy (l ++ [o])).
Proof.
  induction l as [|o1 l IH].
  - cbn [fold_right app first_truthy]. destruct o as [s|]; [|reflexivity].
    simpl. now destruct (String.eqb s "").
  - cbn [fold_right app first_truthy]. rewrite or_default_py_or.
    now destruct (truthy o1).
Qed.

(** X1. Each endpoint is the first non-empty value among its sources in the
    order of lines 42-51 (for the telemetry URL: the argument, the [url]
    keyword, the application's configuration, the manifest; for the crash URL
    the same without the [url] keyword), and the placeholder when there is
    none; an empty string counts as absent, so neither URL is ever empty. *)
Theorem url_resolution (a : init_args) :
  telemetry_url (__init__ a) =
    default default_telemetry_url
      (first_truthy [arg_telemetry_url a; kwargs_url a; config_telemetry_url a;
                     manifest_telemetry_url a]) /\
  crash_url (__init__ a) =
    default default_crash_url
      (first_truthy [arg_crash_url a; config_crash_url a; manifest_crash_url a]) /\
  telemetry_url (__init__ a) <> "" /\ crash_url (__init__ a) <> "".
Proof.
  assert (Ht : telemetry_url (__init__ a) =
               default default_telemetry_url
                 (first_truthy [arg_telemetry_url a; kwargs_url a; config_telemetry_url a;
                                manifest_telemetry_url a])).
  { cbn [__init__ telemetry_url].
    exact (or_default_chain
             [arg_telemetry_url a; kwargs_url a; config_telemetry_url a]
             (manifest_telemetry_url a) default_telemetry_url). }
  assert (Hc : crash_url (__init__ a) =
               default default_crash_url
                 (first_truthy [arg_crash_url a; config_crash_url a; manifest_crash_url a])).
  { cbn [__init__ crash_url].
    exact (or_default_chain [arg_crash_url a; config_crash_url a]
             (manifest_crash_url a) default_crash_url). }
  split; [exact Ht|]. split; [exact Hc|]. rewrite Ht, Hc. clear Ht Hc. split.
  - destruct (first_truthy _) as [s|] eqn:H; simpl.
    + exact (first_truthy_truthy _ s H).
    + intros Hd. discriminate Hd.
  - destruct (first_truthy _) as [s|] eqn:H; simpl.
    + exact (first_truthy_truthy _ s H).
    + intros Hd. discriminate Hd.
Qed.

(** ** What can escape each entry point *)

(** What can leave [setup], for a mode the embedding has: a string or
    another hashable object. *)
Lemma setup_raises (ev : env) :
  raises_only
    (fun e => worker_start ev = Raise e \/ timer_start ev = Raise e \/
              (is_Exception e = false /\
               (to_dict ev = Raise e \/ psutil_percent ev = Raise e)))
    (setup ev).
Proof.
  unfold setup.
  apply raises_only_bind; [returns | intros _].
  apply raises_only_bind; [|intros _].
  { intros w. unfold start_worker. destruct (worker_start ev) as [u|e]; simpl; auto. }
  apply raises_only_bind; [returns | intros h].
  apply raises_only_bind; [returns | intros _].
  apply raises_only_bind; [returns | intros _].
  apply raises_only_bind; [returns | intros p].
  apply raises_only_bind; [|intros _; returns].
  destruct (negb (mode_eq (mode p) "errors_only")); [|returns].
  eapply raises_only_weaken; [|apply start_snapshot_timer_raises].
  intros e [He | He]; auto.
Qed.

(** X2. The failures of the host during the first snapshot do not make
    [setup] fail: for a plugin whose mode is a string, once the worker thread
    and the timer thread start, [setup] returns, whatever [get_system_info]
    raises and whatever [Exception] the state or the RAM metric raise; and so
    does [_snapshot_state], in every state of the plugin. *)
Theorem setup_contains_host_failures (ev : env) (w : world) (s : string) :
  mode (self w) = ModeStr s ->
  worker_start ev = Return tt -> timer_start ev = Return tt ->
  (forall e, to_dict ev = Raise e -> is_Exception e = true) ->
  (forall e, psutil_percent ev = Raise e -> is_Exception e = true) ->
  fst (setup ev w) = Return tt /\ fst (_snapshot_state ev w) = Return tt.
Proof.
  intros _ Hw Ht Hd Hr. split.
  - pose proof (setup_raises ev w) as H.
    destruct (fst (setup ev w)) as [[]|e]; [reflexivity|]. exfalso.
    destruct H as [H | [H | [He [H | H]]]]; try congruence.
    + rewrite (Hd e H) in He. discriminate.
    + rewrite (Hr e H) in He. discriminate.
  - pose proof (snapshot_state_raises ev w) as H.
    destruct (fst (_snapshot_state ev w)) as [[]|e]; [reflexivity|]. exfalso.
    destruct H as [He [H | H]].
    + rewrite (Hd e H) in He. discriminate.
    + rewrite (Hr e H) in He. discriminate.
Qed.

(** The state cannot be read while [setup] runs: [setup] returns all the
    same, with the error of the snapshot in the log and the timer waiting. *)
Lemma setup_contains_host_failures_witness :
  let r := setup Scenario.state_unreadable (boot (Scenario.args "activity") 0) in
  fst r = Return tt /\
  log (snd r) = [(ERROR, MsgSnapshotError RuntimeError);
                 (INFO, MsgStarted (ModeStr "activity"))] /\
  timers (snd r) = [{| interval := 5%Q; tstate := Waiting |}].
Proof.
  cbv zeta. split.
  - apply (setup_contains_host_failures Scenario.state_unreadable
             (boot (Scenario.args "activity") 0) "activity").
    + reflexivity.
    + reflexivity.
    + reflexivity.
    + intros e H. injection H as <-. reflexivity.
    + intros e H. discriminate H.
  - vm_compute. split; reflexivity.
Defined.

(** X3. The worker's loop never raises, whatever the queue, the serialiser or
    the transport do, and a pass of the loop does not end the thread: only
    the stop flag does. *)
Theorem upload_worker_never_raises (ev : env) (w : world) :
  fst (_upload_worker ev w) = Return tt /\
  workers (snd (_upload_worker ev w)) =
    if _stop_event (self w) then Nat.pred (workers w) else workers w.
Proof.
  assert (Hpass : raises_only (fun _ => False) (upload_pass ev)).
  { unfold upload_pass.
    apply raises_only_try_except with (C' := fun _ => True);
      [apply raises_only_any | discriminate | intros e; apply raises_only_ret]. }
  assert (Hkeep : preserves (fun w' => workers w' = workers w) (upload_pass ev)).
  { unfold upload_pass. preserves_struct; primitive; simpl;
      repeat match goal with
             | |- context [match ?x with _ => _ end] => destruct x; simpl
             end; assumption. }
  unfold _upload_worker. destruct (workers w) as [|n] eqn:Hn.
  - split; [reflexivity|]. simpl. rewrite Hn. now destruct (_stop_event (self w)).
  - destruct (_stop_event (self w)); [now split|]. split.
    + specialize (Hpass w). destruct (fst (upload_pass ev w)) as [[]|e]; [reflexivity|].
      contradiction.
    + exact (Hkeep w Hn).
Qed.

(** ** Snapshots *)

(** When the host answers and the queue has room, the snapshot returns with
    the heartbeat built from the answers at the end of the queue. *)
Lemma snapshot_state_accepts ev w st :
  _stop_event (self w) = false -> app_valid ev = true -> to_dict ev = Return st ->
  (forall e, psutil_percent ev = Raise e -> is_ImportError e = true) ->
  qsize (queue (self w)) < maxsize (queue (self w)) ->
  fst (_snapshot_state ev w) = Return tt /\
  enqueued (snd (_snapshot_state ev w)) =
    (enqueued w ++ [built_heartbeat ev (self w) st])%list /\
  items (queue (self (snd (_snapshot_state ev w)))) =
    (items (queue (self w)) ++ [built_heartbeat ev (self w) st])%list.
Proof.
  intros Hstop Hvalid Hst Hram Hroom.
  unfold _snapshot_state, snapshot_body, built_heartbeat, bind, try_except, get_self, call,
    queue_put_nowait, ret, logger.
  rewrite Hstop, Hvalid, Hst. cbn [negb].
  destruct (get_system_info ev) as [sys|e1]; cbn [any_exn];
    (destruct (psutil_percent ev) as [pct|e2] eqn:Hp;
     [|rewrite (Hram e2 eq_refl)]);
    rewrite put_nowait_room by exact Hroom; now repeat split.
Qed.

(** X4. A tick whose capture fails with an [Exception] does not end the
    scheduler: when the guard of line 79 passes, [_start_snapshot_timer]
    still creates the next timer, with the interval of the mode, stores it in
    [_timer] and starts it. *)
Theorem scheduler_survives_capture_failure (ev : env) (w : world) :
  timer_guard (self w) = true ->
  (forall e, to_dict ev = Raise e -> is_Exception e = true) ->
  (forall e, psutil_percent ev = Raise e -> is_Exception e = true) ->
  fst (_start_snapshot_timer ev w) = timer_start ev /\
  timers (snd (_start_snapshot_timer ev w)) =
    (timers w ++
     [{| interval := intervals_get (mode (self w));
         tstate := match timer_start ev with Return _ => Waiting | Raise _ => Created end |}])%list /\
  _timer (self (snd (_start_snapshot_timer ev w))) = Assigned (Some (length (timers w))).
Proof.
  intros Hguard Hdict Hram.
  pose proof (snapshot_state_raises ev w) as Hret.
  destruct (snapshot_state_frame ev w) as (Hself & _ & _ & _ & Htimers & _).
  unfold _start_snapshot_timer, bind, get_self. cbn [fst snd]. rewrite Hguard.
  destruct (_snapshot_state ev w) as [[[]|e] w1]; cbn [fst snd] in *.
  - destruct (schedule_next_spec ev w1) as [Hr Hn].
    destruct (schedule_next_frame ev w1) as (_ & _ & Ht).
    rewrite Hr, Hn, Ht, Htimers.
    replace (mode (self w1)) with (mode (self w)) by (rewrite <- Hself; reflexivity).
    now repeat split.
  - destruct Hret as [He [Hd | Hp]].
    + rewrite (Hdict e Hd) in He. discriminate.
    + rewrite (Hram e Hp) in He. discriminate.
Qed.

(** The state cannot be read: the tick is skipped and the 5-second timer is
    started all the same. *)
Lemma scheduler_survives_capture_failure_witness :
  timers (snd (_start_snapshot_timer Scenario.state_unreadable
                 (boot (Scenario.args "activity") 0))) =
    [{| interval := 5%Q; tstate := Waiting |}].
Proof.
  destruct (scheduler_survives_capture_failure Scenario.state_unreadable
              (boot (Scenario.args "activity") 0)) as (_ & Ht & _).
  - vm_compute. reflexivity.
  - intros e H. injection H as <-. reflexivity.
  - intros e H. discriminate H.
  - rewrite Ht. vm_compute. reflexivity.
Defined.

(** X5. When [get_system_info] raises, whatever it raises, the heartbeat is
    still enqueued and its [system] field is the fallback mapping with the
    single key [os] set to [platform.system()]. *)
Theorem system_info_fallback (ev : env) (w : world) (e : exn) (st : gmap string value) :
  get_system_info ev = Raise e ->
  _stop_event (self w) = false -> app_valid ev = true -> to_dict ev = Return st ->
  (forall e', psutil_percent ev = Raise e' -> is_ImportError e' = true) ->
  qsize (queue (self w)) < maxsize (queue (self w)) ->
  fst (_snapshot_state ev w) = Return tt /\
  exists hb,
    enqueued (snd (_snapshot_state ev w)) = (enqueued w ++ [hb])%list /\
    hb_system hb = VDict [("os", VStr (platform_system ev))] /\
    hb_state hb = sanitize st.
Proof.
  intros Hsys Hstop Hvalid Hst Hram Hroom.
  destruct (snapshot_state_accepts ev w st Hstop Hvalid Hst Hram Hroom) as (Hr & He & _).
  split; [exact Hr|]. exists (built_heartbeat ev (self w) st).
  split; [exact He|]. unfold built_heartbeat. cbn [hb_system hb_state]. now rewrite Hsys.
Qed.

(** The fallback of the example host. *)
Lemma system_info_fallback_witness :
  exists hb,
    enqueued (snd (_snapshot_state Scenario.no_system_info
                     (boot (Scenario.args "activity") 0))) = [hb] /\
    hb_system hb = VDict [("os", VStr "Linux")] /\
    hb_state hb = sanitize Scenario.app_state.
Proof.
  destruct (system_info_fallback Scenario.no_system_info
              (boot (Scenario.args "activity") 0) AttributeError Scenario.app_state)
    as (_ & hb & H).
  - reflexivity.
  - reflexivity.
  - reflexivity.
  - reflexivity.
  - intros e H. discriminate H.
  - vm_compute. reflexivity.
  - now exists hb.
Defined.

(** ** [setup] beside the worker it has started *)

(** A pass of the worker on an empty queue changes nothing but the wait. *)
Lemma upload_pass_empty ev w :
  items (queue (self w)) = [] -> snd (upload_pass ev w) = w.
Proof.
  intros Hi. unfold upload_pass, bind, try_except, queue_get, get. rewrite Hi. simpl.
  destruct w as [p ? ? ? ? ? ? ? ?]. now destruct p.
Qed.

(** A pass of the worker takes the head of the queue and nothing else. *)
Lemma upload_pass_takes ev w hb rest :
  items (queue (self w)) = hb :: rest ->
  get (queue (self w)) =
    (Return hb, {| maxsize := maxsize (queue (self w)); items := rest;
                   unfinished_tasks := unfinished_tasks (queue (self w)) |}) /\
  items (queue (self (snd (upload_pass ev w)))) = rest /\
  enqueued (snd (upload_pass ev w)) = enqueued w /\
  telemetry_url (self (snd (upload_pass ev w))) = telemetry_url (self w) /\
  crash_url (self (snd (upload_pass ev w))) = crash_url (self w).
Proof.
  intros Hi.
  assert (Hget : get (queue (self w)) =
                 (Return hb, {| maxsize := maxsize (queue (self w)); items := rest;
                                unfinished_tasks := unfinished_tasks (queue (self w)) |})).
  { unfold get. now rewrite Hi. }
  split; [exact Hget|].
  unfold upload_pass, bind, try_except, try_finally, queue_get, queue_task_done,
    call, logger, get_self, requests_post, ret.
  rewrite Hget.
  set (q := {| maxsize := _; items := rest; unfinished_tasks := _ |}).
  pose proof (task_done_queue q) as [_ Hitems].
  destruct (json_dumps (HeartbeatPayload hb)) as [[]|e0]; cbn -[json_dumps task_done];
    [destruct (PyStr.contains "myapp.com" (telemetry_url (self w))); cbn -[json_dumps task_done];
     [|destruct (post_result ev) as [[]|e]; cbn -[json_dumps task_done];
       [|destruct (is_Exception e); cbn -[json_dumps task_done]]]
    |destruct (is_Exception e0); cbn -[json_dumps task_done]];
    destruct (task_done q) as [[[]|e'] q']; cbn -[json_dumps task_done] in *;
    now rewrite ?Hitems.
Qed.

(** A worker that finds the queue empty and the stop flag clear changes
    nothing. *)
Lemma worker_turns_idle evs w :
  items (queue (self w)) = [] -> _stop_event (self w) = false ->
  worker_turns evs w = (Return tt, w).
Proof.
  intros Hi Hs. unfold worker_turns. f_equal.
  induction evs as [|ev evs IH]; [reflexivity|]. cbn [fold_left].
  replace (snd (_upload_worker ev w)) with w; [exact IH|].
  unfold _upload_worker. destruct (workers w); [reflexivity|].
  rewrite Hs. now rewrite upload_pass_empty.
Qed.

Lemma first_beat_worker hb ev : preserves (first_beat hb) (_upload_worker ev).
Proof.
  apply preserves_upload_worker; [now intros [] n|].
  intros w [He Hi].
  destruct (items (queue (self w))) as [|hb' rest] eqn:Hitems.
  - rewrite (upload_pass_empty ev w Hitems). split; [exact He|]. right. exact Hitems.
  - destruct (upload_pass_takes ev w hb' rest Hitems) as (_ & Hrest & Henq & _).
    split; [now rewrite Henq|]. right. rewrite Hrest.
    destruct Hi as [Hi | Hi]; [now injection Hi | discriminate Hi].
Qed.

Lemma first_beat_turns hb evs : preserves (first_beat hb) (worker_turns evs).
Proof.
  intros w H. unfold worker_turns. cbn [snd]. revert w H.
  induction evs as [|ev evs IH]; intros w H; [exact H|].
  cbn [fold_left]. apply IH. now apply first_beat_worker.
Qed.

(** [setup_beside_worker] on a fresh plugin, once the worker has started and
    outside mode [errors_only], as [setup_unfold] has it for [setup]. *)
Lemma setup_beside_worker_unfold a h ev before between after :
  worker_start ev = Return tt ->
  mode_eq (mode (__init__ a)) "errors_only" = false ->
  exists w1,
    self w1 = with_original_hook (Some (HostHook h))
                (with_timer (Assigned None) (__init__ a)) /\
    enqueued w1 = [] /\
    setup_beside_worker ev before between after (boot a h) =
      bind (worker_turns before >> _snapshot_state ev >>
            worker_turns between >> schedule_next ev >> worker_turns after)
        (fun _ => logger INFO (MsgStarted (mode (__init__ a)))) w1.
Proof.
  intros Hw Hmode. unfold setup_beside_worker, start_worker.
  unfold bind at 1. cbn [modify_self].
  unfold bind at 1. rewrite Hw.
  unfold bind at 1. cbn [get_excepthook].
  unfold bind at 1. cbn [modify_self].
  unfold bind at 1. cbn [set_excepthook].
  unfold bind at 1. cbn [get_self].
  match goal with |- context [bind _ _ ?w] => exists w end.
  split; [reflexivity|]. split; [reflexivity|].
  change (mode (self _)) with (mode (__init__ a)). rewrite Hmode. cbn [negb].
  unfold start_snapshot_timer_beside_worker.
  unfold bind at 1. unfold bind at 1. cbn [get_self].
  unfold timer_guard. cbn [self with_self with_excepthook with_workers _stop_event mode
                           with_original_hook with_timer __init__ boot].
  change (normalize_mode (arg_mode a)) with (mode (__init__ a)). rewrite Hmode.
  reflexivity.
Qed.

(** With no turn of the worker in between, [setup_beside_worker] is
    [setup]. *)
Lemma start_snapshot_timer_alone ev w :
  start_snapshot_timer_beside_worker ev [] [] [] w = _start_snapshot_timer ev w.
Proof.
  unfold start_snapshot_timer_beside_worker, _start_snapshot_timer, worker_turns, bind,
    get_self.
  cbn [fold_left]. destruct (timer_guard (self w)); [|reflexivity].
  destruct (_snapshot_state ev w) as [[[]|e] w1]; [|reflexivity].
  now destruct (schedule_next ev w1) as [[[]|e] w2].
Qed.

Lemma setup_beside_worker_alone ev w :
  setup_beside_worker ev [] [] [] w = setup ev w.
Proof.
  unfold setup_beside_worker, setup, start_worker, bind, modify_self, get_excepthook,
    set_excepthook, get_self.
  destruct (worker_start ev); [|reflexivity].
  destruct (negb _); [|reflexivity].
  now rewrite start_snapshot_timer_alone.
Qed.

(** X6. [setup] takes the first snapshot itself, before it returns: for a
    mode string other than [errors_only], once the worker has started and
    the host answers,
    the queue has accepted the first heartbeat when [setup] ends, even if the
    timer thread then fails to start, and whatever turns the worker thread,
    running since line 64, takes while [setup] goes on: by then the heartbeat
    is still in the queue, or the worker has taken it. *)
Theorem setup_takes_first_snapshot
    (a : init_args) (h : nat) (ev : env) (st : gmap string value) (s : string)
    (before between after : list env) :
  worker_start ev = Return tt ->
  mode (__init__ a) = ModeStr s -> s <> "errors_only" ->
  app_valid ev = true -> to_dict ev = Return st ->
  (forall e, psutil_percent ev = Raise e -> is_ImportError e = true) ->
  let r := setup_beside_worker ev before between after (boot a h) in
  let hb := built_heartbeat ev (__init__ a) st in
  fst r = timer_start ev /\
  enqueued (snd r) = [hb] /\
  (items (queue (self (snd r))) = [hb] \/ items (queue (self (snd r))) = []).
Proof.
  intros Hw Hs Hne Hvalid Hst Hram r hb.
  assert (Hmode : mode_eq (mode (__init__ a)) "errors_only" = false).
  { rewrite Hs. now apply String.eqb_neq. }
  assert (Hend : exists w5, r = (timer_start ev, w5) /\ first_beat hb w5).
  { destruct (setup_beside_worker_unfold a h ev before between after Hw Hmode)
      as (w1 & Hself & Henq & Hr).
    subst r. rewrite Hr. clear Hr.
    assert (Hstop : _stop_event (self w1) = false) by now rewrite Hself.
    assert (Hempty : items (queue (self w1)) = []) by now rewrite Hself.
    assert (Hroom : qsize (queue (self w1)) < maxsize (queue (self w1))).
    { rewrite Hself. unfold qsize. simpl. lia. }
    destruct (snapshot_state_accepts ev w1 st Hstop Hvalid Hst Hram Hroom)
      as (Hret & He & Hi).
    assert (Hhb : built_heartbeat ev (self w1) st = hb).
    { unfold hb, built_heartbeat. now rewrite Hself. }
    rewrite Hhb, Henq in He. rewrite Hhb, Hempty in Hi. cbn [app] in He, Hi.
    unfold bind. rewrite (worker_turns_idle before w1 Hempty Hstop).
    destruct (_snapshot_state ev w1) as [[[]|e] w2]; cbn [fst snd] in *; [|discriminate].
    assert (H2 : first_beat hb w2) by (split; [exact He | now left]).
    pose proof (first_beat_turns hb between w2 H2) as H3.
    unfold worker_turns in H3 |- *. cbn [snd] in H3. cbv beta iota.
    set (w3 := fold_left _ between w2) in *.
    destruct (schedule_next_spec ev w3) as [Hn _].
    destruct (schedule_next_frame ev w3) as (Hq1 & Hq2 & _).
    destruct (schedule_next ev w3) as [[[]|e] w4]; cbn [fst snd] in *.
    - assert (H4 : first_beat hb w4).
      { destruct H3 as [H3e H3i]. split; [now rewrite Hq1 | now rewrite Hq2]. }
      pose proof (first_beat_turns hb after w4 H4) as H5.
      unfold logger. rewrite <- Hn. eexists. split; [reflexivity | exact H5].
    - rewrite <- Hn. eexists. split; [reflexivity|].
      destruct H3 as [H3e H3i]. split; [now rewrite Hq1 | now rewrite Hq2]. }
  destruct Hend as (w5 & -> & He & Hi). now split.
Qed.

(** Mode [minimal] on a host without [psutil]: [setup] returns with the
    first heartbeat accepted; a worker that took a turn right after the
    snapshot has emptied the queue by then, and without such a turn the
    heartbeat is still in it. *)
Lemma setup_takes_first_snapshot_witness :
  let ev := Scenario.with_psutil (Raise ImportError) in
  let r := setup_beside_worker ev [ev] [ev] [] (boot (Scenario.args "minimal") 0) in
  fst r = Return tt /\
  enqueued (snd r) = [Scenario.heartbeat_of (VStr "unknown")] /\
  items (queue (self (snd r))) = [] /\
  items (queue (self (snd (setup ev (boot (Scenario.args "minimal") 0))))) =
    [Scenario.heartbeat_of (VStr "unknown")].
Proof.
  cbv zeta.
  destruct (setup_takes_first_snapshot (Scenario.args "minimal") 0
              (Scenario.with_psutil (Raise ImportError)) Scenario.app_state "minimal"
              [Scenario.with_psutil (Raise ImportError)]
              [Scenario.with_psutil (Raise ImportError)] [])
    as (Hr & He & _).
  - reflexivity.
  - reflexivity.
  - discriminate.
  - reflexivity.
  - reflexivity.
  - intros e H. injection H as <-. reflexivity.
  - split; [exact Hr|]. split; [rewrite He; vm_compute; reflexivity|].
    split; vm_compute; reflexivity.
Defined.

(** ** From the queue to the transport *)

Lemma sendable_true url p :
  sendable url p = true -> PyStr.contains "myapp.com" url = false.
Proof.
  unfold sendable. destruct (json_dumps p); [|discriminate].
  now rewrite negb_true_iff.
Qed.

Lemma heartbeat_posts_app ps qs :
  heartbeat_posts (ps ++ qs) = (heartbeat_posts ps ++ heartbeat_posts qs)%list.
Proof. apply omap_app. Qed.

(** *** Every call of the transport is well formed *)

Ltac urls_primitive :=
  primitive; simpl;
  repeat match goal with
         | |- context [match ?x with _ => _ end] => destruct x; simpl
         end;
  try assumption.

Lemma well_formed_quiet {A} tu cu (m : py A) :
  preserves (fun w => telemetry_url (self w) = tu /\ crash_url (self w) = cu) m ->
  (forall w, posts (snd (m w)) = posts w) ->
  preserves (posts_well_formed tu cu) m.
Proof.
  intros Hu Hp w (Ht & Hc & Hf). destruct (Hu w (conj Ht Hc)) as [Ht' Hc'].
  unfold posts_well_formed. rewrite Hp. now repeat split.
Qed.

Lemma posts_kept {A} (m : py A) :
  (forall l, preserves (fun w => posts w = l) m) -> forall w, posts (snd (m w)) = posts w.
Proof. intros H w. now apply (H (posts w) w). Qed.

Lemma well_formed_snapshot_body tu cu ev :
  preserves (posts_well_formed tu cu) (snapshot_body ev).
Proof.
  apply well_formed_quiet; [|apply posts_kept; intros l];
    unfold snapshot_body; preserves_struct; urls_primitive.
Qed.

Lemma well_formed_schedule_next tu cu ev :
  preserves (posts_well_formed tu cu) (schedule_next ev).
Proof.
  apply well_formed_quiet; [|apply posts_kept; intros l];
    unfold schedule_next; preserves_struct; urls_primitive.
Qed.

Lemma well_formed_crash_body tu cu x ev :
  preserves (posts_well_formed tu cu) (crash_body x ev).
Proof.
  intros w (Ht & Hc & Hf).
  destruct (crash_body_frame x ev w) as [Hself _].
  unfold posts_well_formed. rewrite Hself.
  split; [exact Ht|]. split; [exact Hc|].
  destruct (to_dict ev) as [st|e] eqn:Hst.
  - destruct (crash_body_spec x ev w st Hst) as (Hposts & _). cbv zeta in Hposts.
    rewrite Hposts. apply Forall_app. split; [exact Hf|].
    destruct (sendable _ _) eqn:Hs; [|constructor].
    constructor; [|constructor]. split; simpl; [|now split].
    exact (sendable_true _ _ Hs).
  - now rewrite (crash_body_state_raises x ev w e Hst).
Qed.

Lemma well_formed_upload_pass tu cu ev :
  preserves (posts_well_formed tu cu) (upload_pass ev).
Proof.
  intros w (Ht & Hc & Hf).
  destruct (items (queue (self w))) as [|hb rest] eqn:Hi.
  - rewrite (upload_pass_empty ev w Hi). now repeat split.
  - destruct (upload_pass_takes ev w hb rest Hi) as (Hget & _ & _ & Ht' & Hc').
    destruct (upload_pass_spec ev w hb _ Hget) as (Hposts & _).
    split; [congruence|]. split; [congruence|].
    rewrite Hposts. apply Forall_app. split; [exact Hf|].
    destruct (sendable _ _) eqn:Hs; [|constructor].
    constructor; [|constructor]. split; simpl; [|now split].
    exact (sendable_true _ _ Hs).
Qed.

Lemma well_formed_exec tu cu e : preserves (posts_well_formed tu cu) (exec e).
Proof.
  destruct e as [ev| |x ev|t|i ev|ev]; cbn [exec].
  - apply well_formed_quiet; [|apply posts_kept; intros l];
      unfold setup, _start_snapshot_timer, _snapshot_state, snapshot_body, schedule_next;
      preserves_struct; urls_primitive.
  - apply well_formed_quiet; [|apply posts_kept; intros l];
      unfold teardown; preserves_struct; urls_primitive.
  - apply preserves_excepthook; [intros id|apply well_formed_crash_body].
    apply well_formed_quiet; [|apply posts_kept; intros l]; urls_primitive.
  - apply preserves_timer_fires; now intros [] l.
  - apply preserves_tick_step;
      [now intros [] l | apply well_formed_snapshot_body | apply well_formed_schedule_next].
  - apply preserves_upload_worker; [now intros [] n | apply well_formed_upload_pass].
Qed.

(** X7. In every world the process can reach, every call of the transport
    went to a URL without [myapp.com] in it: heartbeats to the telemetry URL
    the constructor resolved, with a timeout of 5 seconds, crash reports to
    the crash URL, with a timeout of 2. A plugin whose two URLs contain
    [myapp.com], as the placeholders do, never calls the transport. *)
Theorem transport_calls_well_formed (a : init_args) (h : nat) (es : list event) :
  Forall (post_well_formed (telemetry_url (__init__ a)) (crash_url (__init__ a)))
    (posts (run es (boot a h))) /\
  (PyStr.contains "myapp.com" (telemetry_url (__init__ a)) = true ->
   PyStr.contains "myapp.com" (crash_url (__init__ a)) = true ->
   posts (run es (boot a h)) = []).
Proof.
  assert (H : posts_well_formed (telemetry_url (__init__ a)) (crash_url (__init__ a))
                (run es (boot a h))).
  { apply preserves_run; [intros e; apply well_formed_exec|].
    repeat split. constructor. }
  destruct H as (_ & _ & Hf). split; [exact Hf|].
  intros Ht Hc. destruct (posts (run es (boot a h))) as [|p ps]; [reflexivity|].
  apply Forall_cons in Hf as [[Hurl Hkind] _].
  destruct (post_json p); destruct Hkind as [Hu _]; congruence.
Qed.

(** Left on its placeholders, the plugin runs a tick, a crash and the worker
    without a call of the transport. *)
Lemma transport_calls_well_formed_witness :
  posts (run [CallSetup Scenario.healthy; WorkerStep Scenario.healthy;
              Unhandled Scenario.boom Scenario.healthy; TimerFires 0;
              TickStep 0 Scenario.healthy]
           (boot (Scenario.args "activity") 0)) = [].
Proof.
  apply (proj2 (transport_calls_well_formed (Scenario.args "activity") 0 _));
    vm_compute; reflexivity.
Defined.

(** *** First in, first out, once *)

Lemma fifo_put tu hb : preserves (fifo tu) (queue_put_nowait hb).
Proof.
  intros w (Hu & taken & He & Hp). unfold queue_put_nowait, put_nowait.
  destruct (_ && _); simpl.
  - split; [exact Hu|]. exists taken. split; [|exact Hp].
    destruct w as [p ? ? ? ? ? ? ? ?]. destruct p. exact He.
  - split; [exact Hu|]. exists taken. split; [|exact Hp].
    rewrite He. now rewrite <- app_assoc.
Qed.

Lemma fifo_crash_post tu url cr t r :
  preserves (fifo tu) (requests_post url (CrashPayload cr) t r).
Proof.
  intros w (Hu & taken & He & Hp). unfold requests_post, fifo.
  cbn [snd self with_posts posts enqueued].
  split; [exact Hu|]. exists taken. split; [exact He|].
  rewrite heartbeat_posts_app, Hp. cbn. now rewrite app_nil_r.
Qed.

Ltac fifo_primitive :=
  first [ apply fifo_put | apply fifo_crash_post
        | primitive; simpl;
          repeat match goal with
                 | |- context [match ?x with _ => _ end] => destruct x; simpl
                 end;
          assumption ].

Lemma fifo_snapshot_body tu ev : preserves (fifo tu) (snapshot_body ev).
Proof. unfold snapshot_body. preserves_struct; fifo_primitive. Qed.

Lemma fifo_schedule_next tu ev : preserves (fifo tu) (schedule_next ev).
Proof. unfold schedule_next. preserves_struct; fifo_primitive. Qed.

Lemma fifo_upload_pass tu ev : preserves (fifo tu) (upload_pass ev).
Proof.
  intros w (Hu & taken & He & Hp).
  destruct (items (queue (self w))) as [|hb rest] eqn:Hi.
  - rewrite (upload_pass_empty ev w Hi). split; [exact Hu|]. exists taken. now rewrite Hi.
  - destruct (upload_pass_takes ev w hb rest Hi) as (Hget & Hrest & Henq & Hu' & _).
    destruct (upload_pass_spec ev w hb _ Hget) as (Hposts & _).
    split; [congruence|]. exists (taken ++ [hb])%list. split.
    + rewrite Henq, Hrest, He. now rewrite <- app_assoc.
    + rewrite Hposts, heartbeat_posts_app, Hp, List.filter_app, Hu. f_equal.
      simpl. now destruct (sendable tu (HeartbeatPayload hb)).
Qed.

Lemma fifo_exec tu e : preserves (fifo tu) (exec e).
Proof.
  destruct e as [ev| |x ev|t|i ev|ev]; cbn [exec].
  - unfold setup, _start_snapshot_timer, _snapshot_state.
    preserves_with ltac:(first [apply fifo_snapshot_body | apply fifo_schedule_next]);
      fifo_primitive.
  - unfold teardown. preserves_struct; fifo_primitive.
  - apply preserves_excepthook; [intros id|unfold crash_body];
      preserves_struct; fifo_primitive.
  - apply preserves_timer_fires; now intros [] l.
  - apply preserves_tick_step;
      [now intros [] l | apply fifo_snapshot_body | apply fifo_schedule_next].
  - apply preserves_upload_worker; [now intros [] n | apply fifo_upload_pass].
Qed.

(** X8. With one worker thread ([setup] called at most once), between any
    two events of the process the heartbeats the queue has accepted so far
    are those the worker has taken, in the order accepted, followed by those
    still queued; and the heartbeats handed to the transport are exactly the
    taken ones that were [sendable], in that same order: none is sent twice,
    none out of order, none that was not queued. *)
Theorem heartbeats_delivered_in_order_once (a : init_args) (h : nat) (es : list event) :
  (length (List.filter is_setup es) <= 1)%nat ->
  let w := run es (boot a h) in
  exists taken,
    enqueued w = (taken ++ items (queue (self w)))%list /\
    heartbeat_posts (posts w) =
      List.filter (fun hb => sendable (telemetry_url (__init__ a)) (HeartbeatPayload hb))
        taken.
Proof.
  intros _ w.
  assert (H : fifo (telemetry_url (__init__ a)) w).
  { apply preserves_run; [intros e; apply fifo_exec|].
    split; [reflexivity|]. now exists []. }
  exact (proj2 H).
Qed.

(** Two heartbeats, one from [setup] and one from a tick, and two passes of
    the worker: both are posted, the one of [setup] first. *)
Lemma heartbeats_delivered_in_order_once_witness :
  let w := run [CallSetup Scenario.healthy; TimerFires 0;
                TickStep 0 Scenario.healthy; TickStep 0 Scenario.healthy;
                TickStep 0 (Scenario.with_psutil (Raise ImportError));
                WorkerStep Scenario.healthy; WorkerStep Scenario.healthy]
               (boot (Scenario.args_with_url "activity" Scenario.real_url) 0) in
  heartbeat_posts (posts w) =
    [Scenario.heartbeat_of (VFloat (Qmake 425 10)); Scenario.heartbeat_of (VStr "unknown")] /\
  exists taken,
    enqueued w = (taken ++ items (queue (self w)))%list /\
    heartbeat_posts (posts w) =
      List.filter
        (fun hb => sendable (telemetry_url
                               (__init__ (Scenario.args_with_url "activity" Scenario.real_url)))
                     (HeartbeatPayload hb))
        taken.
Proof.
  cbv zeta. split; [vm_compute; reflexivity|].
  apply (heartbeats_delivered_in_order_once
           (Scenario.args_with_url "activity" Scenario.real_url) 0).
  simpl. lia.
Defined.

(** *** Nothing sensitive on the way out *)

Lemma clean_built ev p st : clean (built_heartbeat ev p st).
Proof.
  intros k Hk. unfold built_heartbeat. cbn [hb_state].
  now rewrite sanitize_lookup, safe_key_sensitive, Hk.
Qed.

Lemma clean_put hb :
  clean hb -> preserves (fun w => Forall clean (enqueued w)) (queue_put_nowait hb).
Proof.
  intros Hhb w H. unfold queue_put_nowait.
  destruct (put_nowait hb (queue (self w))) as [[u|e] q]; simpl; [|exact H].
  apply Forall_app. split; [exact H|]. now constructor.
Qed.

Ltac clean_primitive :=
  first [ apply clean_put; intros k Hk; cbn [hb_state];
          now rewrite sanitize_lookup, safe_key_sensitive, Hk
        | primitive; simpl;
          repeat match goal with
                 | |- context [match ?x with _ => _ end] => destruct x; simpl
                 end;
          assumption ].

Lemma clean_snapshot_body ev :
  preserves (fun w => Forall clean (enqueued w)) (snapshot_body ev).
Proof. unfold snapshot_body. preserves_struct; clean_primitive. Qed.

Lemma clean_schedule_next ev :
  preserves (fun w => Forall clean (enqueued w)) (schedule_next ev).
Proof. unfold schedule_next. preserves_struct; clean_primitive. Qed.

Lemma clean_exec e : preserves (fun w => Forall clean (enqueued w)) (exec e).
Proof.
  destruct e as [ev| |x ev|t|i ev|ev]; cbn [exec].
  - unfold setup, _start_snapshot_timer, _snapshot_state.
    preserves_with ltac:(first [apply clean_snapshot_body | apply clean_schedule_next]);
      clean_primitive.
  - unfold teardown. preserves_struct; clean_primitive.
  - apply preserves_excepthook; [intros id|unfold crash_body];
      preserves_struct; clean_primitive.
  - apply preserves_timer_fires; now intros [] l.
  - apply preserves_tick_step;
      [now intros [] l | apply clean_snapshot_body | apply clean_schedule_next].
  - apply preserves_upload_worker; [now intros [] n|].
    unfold upload_pass. preserves_struct; clean_primitive.
Qed.

(** X9. In every world the process can reach, no heartbeat that was accepted
    by the queue, is waiting in it, or was handed to the transport has a key
    whose lowercase form contains [password] or [token]. *)
Theorem no_sensitive_key_leaves_in_a_heartbeat (a : init_args) (h : nat) (es : list event) :
  let w := run es (boot a h) in
  Forall clean (enqueued w) /\ Forall clean (items (queue (self w))) /\
  Forall clean (heartbeat_posts (posts w)).
Proof.
  intros w.
  assert (Hc : Forall clean (enqueued w)).
  { apply (preserves_run (fun w => Forall clean (enqueued w)));
      [exact clean_exec | constructor]. }
  assert (Hf : fifo (telemetry_url (__init__ a)) w).
  { apply preserves_run; [intros e; apply fifo_exec|].
    split; [reflexivity|]. now exists []. }
  destruct Hf as (_ & taken & He & Hp).
  rewrite He in Hc. apply Forall_app in Hc as [Htaken Hitems].
  split; [rewrite He; apply Forall_app; now split|]. split; [exact Hitems|].
  rewrite Hp. rewrite Forall_forall in Htaken |- *.
  intros hb Hin. apply Htaken. apply list_elem_of_In, List.filter_In in Hin as [Hin _].
  now apply list_elem_of_In.
Qed.

(** ** The crash handler and the hook slot *)

(** X10. The crash handler changes nothing of the plugin or of the
    scheduler: the crash report is never put on the queue (it is sent from
    the handler itself or not at all), the handler stays installed, and the
    queue, the stop flag, the timers and the threads are as before. *)
Theorem crash_handler_leaves_plugin_alone (x : exc_info) (ev : env) (w : world) :
  let w' := snd (_crash_handler x ev w) in
  self w' = self w /\ enqueued w' = enqueued w /\ sys_excepthook w' = sys_excepthook w /\
  timers w' = timers w /\ ticks w' = ticks w /\ workers w' = workers w.
Proof.
  intros w'.
  assert (H : preserves
                (fun v => self v = self w /\ enqueued v = enqueued w /\
                          sys_excepthook v = sys_excepthook w /\ timers v = timers w /\
                          ticks v = ticks w /\ workers v = workers w)
                (_crash_handler x ev)).
  { apply preserves_crash_handler; [intros id | unfold crash_body];
      preserves_struct; primitive; simpl;
      repeat match goal with
             | |- context [match ?x with _ => _ end] => destruct x; simpl
             end; assumption. }
  now apply H.
Qed.

(** X11. When the state holds a value [json.dumps] cannot encode, the crash
    report is neither logged nor sent, whatever the crash URL: the handler
    logs the failure and still calls the saved hook once. *)
Theorem crash_report_unserialisable
    (x : exc_info) (ev : env) (w : world) (st : gmap string value) (id : nat) :
  to_dict ev = Return st -> json_ok_map st = false ->
  _original_hook (self w) = Some (HostHook id) ->
  let r := _crash_handler x ev w in
  fst r = Return tt /\ posts (snd r) = posts w /\
  log (snd r) = (log w ++ [(ERROR, MsgCrashSendFailed TypeError)])%list /\
  hook_calls (snd r) = (hook_calls w ++ [(id, x)])%list.
Proof.
  intros Hst Hjson Hhook r. subst r.
  rewrite crash_handler_once by (rewrite Hhook; discriminate). rewrite Hhook.
  unfold crash_body, bind, try_except, get_self, call, logger, requests_post, ret,
    json_dumps.
  rewrite Hst. cbn [cr_last_state]. rewrite Hjson. simpl. now repeat split.
Qed.

(** A window object in the state, a real crash URL: nothing is sent. *)
Lemma crash_report_unserialisable_witness :
  let w := snd (setup Scenario.healthy
                  (boot (Scenario.args_with_url "activity" Scenario.real_url) 4)) in
  let r := _crash_handler Scenario.boom Scenario.unserialisable_state w in
  fst r = Return tt /\ posts (snd r) = posts w /\
  log (snd r) = (log w ++ [(ERROR, MsgCrashSendFailed TypeError)])%list /\
  hook_calls (snd r) = (hook_calls w ++ [(4%nat, Scenario.boom)])%list.
Proof.
  cbv zeta.
  apply (crash_report_unserialisable Scenario.boom Scenario.unserialisable_state
           (snd (setup Scenario.healthy
                   (boot (Scenario.args_with_url "activity" Scenario.real_url) 4)))
           (<["window" := VObject "<Window object>"]> Scenario.app_state) 4);
    vm_compute; reflexivity.
Defined.

(** ** [setup] and [teardown] out of order *)

Lemma setup_split ev w :
  setup ev w =
    match worker_start ev with
    | Return _ => setup_tail ev (hook_installed w)
    | Raise e => (Raise e, with_self (with_timer (Assigned None) (self w)) w)
    end.
Proof.
  unfold setup, setup_tail, hook_installed, start_worker, bind, modify_self,
    get_excepthook, set_excepthook.
  cbn [fst snd]. now destruct (worker_start ev).
Qed.

Ltac hook_primitive :=
  primitive; unfold hooks_are in *; simpl;
  repeat match goal with
         | |- context [match ?x with _ => _ end] => destruct x; simpl
         end;
  try assumption;
  try match goal with
      | H : _ /\ _ /\ _ |- _ /\ _ /\ _ =>
          destruct H as (? & ? & ?); repeat split; solve [assumption | discriminate]
      end.

(** What is in the hook slot and in [_original_hook] is kept by everything
    but [setup] and [teardown]. *)
Lemma hooks_kept_tail oh sh ev : preserves (hooks_are oh sh) (setup_tail ev).
Proof.
  unfold setup_tail, _start_snapshot_timer, _snapshot_state, snapshot_body, schedule_next.
  preserves_struct; hook_primitive.
Qed.

Lemma hooks_kept_exec oh sh e :
  match e with CallSetup _ | CallTeardown => False | _ => True end ->
  preserves (hooks_are oh sh) (exec e).
Proof.
  destruct e as [ev| |x ev|t|i ev|ev]; cbn [exec]; intros He; try contradiction.
  - apply preserves_excepthook; [intros id|unfold crash_body];
      preserves_struct; hook_primitive.
  - apply preserves_timer_fires; now intros [] l.
  - apply preserves_tick_step; [now intros [] l | |].
    + unfold snapshot_body. preserves_struct; hook_primitive.
    + unfold schedule_next. preserves_struct; hook_primitive.
  - apply preserves_upload_worker; [now intros [] n|].
    unfold upload_pass. preserves_struct; hook_primitive.
Qed.

Lemma hooked_on_itself_exec e : preserves hooked_on_itself (exec e).
Proof.
  destruct e as [ev| | | | |];
    try (apply (hooks_kept_exec (Some CrashHandler) CrashHandler); exact I).
  - (* another setup saves the handler again *)
    cbn [exec]. intros w (Ho & Hs & Ht). rewrite setup_split.
    destruct (worker_start ev) as [[]|e]; cbn [snd].
    + apply (hooks_kept_tail (Some CrashHandler) CrashHandler).
      unfold hook_installed. cbn. rewrite Hs. now repeat split.
    + unfold hooked_on_itself. cbn. now repeat split.
  - (* teardown restores the handler itself *)
    cbn [exec]. intros w (Ho & Hs & Ht).
    destruct (_timer (self w)) as [|t] eqn:Htimer; [congruence|].
    rewrite (teardown_spec w t Htimer). unfold hooked_on_itself. cbn.
    rewrite Ho, Htimer. now repeat split.
Qed.

Lemma preserves_run_filtered (P : world -> Prop) (ok : event -> bool) :
  (forall e, ok e = true -> preserves P (exec e)) ->
  forall es w, forallb ok es = true -> P w -> P (run es w).
Proof.
  intros Hexec es. induction es as [|e es IH]; intros w Hes H; [exact H|].
  cbn [forallb] in Hes. apply andb_prop in Hes as [He Hes].
  apply IH; [exact Hes|]. now apply Hexec.
Qed.

Lemma run_app es1 es2 w : run (es1 ++ es2) w = run es2 (run es1 w).
Proof. apply fold_left_app. Qed.

(** X12. [setup] called a second time with no [teardown] in between saves
    the plugin's own handler as the hook to restore: from then on, whatever
    happens, [_original_hook] and [sys.excepthook] both hold the plugin's
    handler, and [teardown] puts the handler back instead of the host's
    hook, which is lost. *)
Theorem second_setup_loses_host_hook
    (a : init_args) (h : nat) (ev1 ev2 : env) (es1 es2 : list event) :
  worker_start ev1 = Return tt -> worker_start ev2 = Return tt ->
  forallb (fun e => negb (is_lifecycle e)) es1 = true ->
  let w := run (CallSetup ev1 :: es1 ++ CallSetup ev2 :: es2) (boot a h) in
  _original_hook (self w) = Some CrashHandler /\ sys_excepthook w = CrashHandler /\
  fst (teardown w) = Return tt /\ sys_excepthook (snd (teardown w)) = CrashHandler.
Proof.
  intros Hw1 Hw2 Hes1 w.
  assert (Hfirst : hooks_are (Some (HostHook h)) CrashHandler
                     (step (boot a h) (CallSetup ev1))).
  { unfold step. cbn [exec]. rewrite setup_split, Hw1.
    apply (hooks_kept_tail (Some (HostHook h)) CrashHandler). now repeat split. }
  assert (Hmid : hooks_are (Some (HostHook h)) CrashHandler
                   (run es1 (step (boot a h) (CallSetup ev1)))).
  { apply (preserves_run_filtered _ (fun e => negb (is_lifecycle e)));
      [|exact Hes1 | exact Hfirst].
    intros e He. apply hooks_kept_exec. now destruct e. }
  assert (Hw : hooked_on_itself w).
  { subst w. cbn [run fold_left]. fold (run (es1 ++ CallSetup ev2 :: es2)
                                             (step (boot a h) (CallSetup ev1))).
    rewrite run_app. cbn [run fold_left].
    fold (run es2 (step (run es1 (step (boot a h) (CallSetup ev1))) (CallSetup ev2))).
    apply preserves_run; [exact hooked_on_itself_exec|].
    destruct Hmid as (Ho & Hs & Ht).
    unfold step at 1. cbn [exec]. rewrite setup_split, Hw2.
    apply (hooks_kept_tail (Some CrashHandler) CrashHandler).
    unfold hook_installed. cbn. rewrite Hs. now repeat split. }
  destruct (hooked_on_itself_exec CallTeardown w Hw) as (_ & Hs' & _).
  destruct Hw as (Ho & Hs & Ht).
  split; [exact Ho|]. split; [exact Hs|]. split; [now apply teardown_returns | exact Hs'].
Qed.

(** [setup] twice, then [teardown]: the handler is still installed. *)
Lemma second_setup_loses_host_hook_witness :
  let w := run [CallSetup Scenario.healthy; WorkerStep Scenario.healthy;
                CallSetup Scenario.healthy]
               (boot (Scenario.args "activity") 9) in
  _original_hook (self w) = Some CrashHandler /\ sys_excepthook w = CrashHandler /\
  fst (teardown w) = Return tt /\ sys_excepthook (snd (teardown w)) = CrashHandler.
Proof.
  exact (second_setup_loses_host_hook (Scenario.args "activity") 9
           Scenario.healthy Scenario.healthy [WorkerStep Scenario.healthy] []
           eq_refl eq_refl eq_refl).
Defined.

Lemma teardown_sets_stop w : stopped (snd (teardown w)).
Proof.
  destruct (_timer (self w)) as [|t] eqn:Ht.
  - unfold teardown, bind, modify_self, get_self, raise. simpl. now rewrite Ht.
  - now rewrite (teardown_spec w t Ht).
Qed.

(** X13. The stop flag is never cleared, so a plugin cannot be started
    again: after [teardown], whether it returned or raised, a new [setup]
    installs the handler and starts a worker, but takes no snapshot and
    creates no timer, and the flag is still set when it returns. *)
Theorem torn_down_plugin_stays_silent (w : world) (ev : env) :
  let w1 := snd (teardown w) in
  let r := setup ev w1 in
  stopped w1 /\ stopped (snd r) /\
  timers (snd r) = timers w1 /\ ticks (snd r) = ticks w1 /\
  enqueued (snd r) = enqueued w1 /\ queue (self (snd r)) = queue (self w1) /\
  fst r = worker_start ev /\
  (worker_start ev = Return tt ->
   sys_excepthook (snd r) = CrashHandler /\ workers (snd r) = S (workers w1)).
Proof.
  intros w1 r. pose proof (teardown_sets_stop w) as Hs. fold w1 in Hs.
  split; [exact Hs|]. subst r. clearbody w1. rewrite setup_split. unfold stopped in *.
  destruct (worker_start ev) as [[]|e]; cbn [fst snd].
  - unfold setup_tail, _start_snapshot_timer, bind, get_self, timer_guard, hook_installed,
      logger, ret.
    cbn. destruct (mode_eq (mode (self w1)) "errors_only"); cbn; rewrite ?Hs; cbn;
      rewrite ?Hs; now repeat split.
  - cbn. repeat split; try assumption; congruence.
Qed.

(** ** The scheduler's chain *)

Section Counting.
Context {A : Type} (f : A -> bool).

Lemma count_insert (l : list A) (i : nat) (x y : A) :
  l !! i = Some x ->
  (length (List.filter f (<[i:=y]> l)) + weight f x =
   length (List.filter f l) + weight f y)%nat.
Proof.
  unfold weight. revert i. induction l as [|z l IH]; intros [|i] Hi; try discriminate.
  - injection Hi as ->. simpl. destruct (f x), (f y); simpl; lia.
  - simpl in Hi. specialize (IH i Hi). simpl. destruct (f z); simpl; lia.
Qed.

Lemma count_alter (g : A -> A) (l : list A) (i : nat) (x : A) :
  l !! i = Some x ->
  (length (List.filter f (alter g i l)) + weight f x =
   length (List.filter f l) + weight f (g x))%nat.
Proof.
  unfold weight. revert i. induction l as [|z l IH]; intros [|i] Hi; try discriminate.
  - injection Hi as ->. cbn. destruct (f x), (f (g x)); simpl; lia.
  - simpl in Hi. specialize (IH i Hi). cbn in *. destruct (f z); simpl; lia.
Qed.

Lemma count_snoc (l : list A) (y : A) :
  length (List.filter f (l ++ [y])) = (length (List.filter f l) + weight f y)%nat.
Proof.
  unfold weight. rewrite List.filter_app, length_app. simpl. now destruct (f y).
Qed.

Lemma count_none (l : list A) :
  length (List.filter f l) = 0%nat -> forall i x, l !! i = Some x -> f x = false.
Proof.
  induction l as [|z l IH]; intros Hl [|i] x Hi; try discriminate; simpl in *.
  - injection Hi as ->. destruct (f x); [discriminate | reflexivity].
  - destruct (f z); [discriminate|]. now apply (IH Hl i).
Qed.

Lemma count_some (l : list A) (i : nat) (x : A) :
  l !! i = Some x -> f x = true -> (1 <= length (List.filter f l))%nat.
Proof.
  revert i. induction l as [|z l IH]; intros [|i] Hi Hx; try discriminate; simpl in *.
  - injection Hi as ->. rewrite Hx. simpl. lia.
  - specialize (IH i Hi Hx). destruct (f z); simpl; lia.
Qed.

End Counting.

Lemma one_chain_view w v : chain_view v = chain_view w -> one_chain w -> one_chain v.
Proof.
  unfold chain_view, one_chain, chain_links. intros [= Ht Hk Ha] [Hl Hw].
  rewrite Ht, Hk, Ha. now split.
Qed.

Ltac view_primitive :=
  primitive; unfold chain_view in *; simpl;
  repeat match goal with
         | |- context [match ?x with _ => _ end] => destruct x; simpl
         end;
  assumption.

Lemma view_snapshot_body c ev : preserves (fun w => chain_view w = c) (snapshot_body ev).
Proof. unfold snapshot_body. preserves_struct; view_primitive. Qed.

Lemma view_crash_body c x ev : preserves (fun w => chain_view w = c) (crash_body x ev).
Proof. unfold crash_body. preserves_struct; view_primitive. Qed.

Lemma view_upload_pass c ev : preserves (fun w => chain_view w = c) (upload_pass ev).
Proof. unfold upload_pass. preserves_struct; view_primitive. Qed.

Lemma one_chain_kept {B} (m : py B) :
  (forall c, preserves (fun w => chain_view w = c) m) -> preserves one_chain m.
Proof. intros H w Hw. apply (one_chain_view w); [|exact Hw]. now apply (H (chain_view w)). Qed.

(** Scheduling the next timer from a world where none is waiting. *)
Lemma schedule_next_chain ev w :
  length (List.filter waiting (timers w)) = 0%nat ->
  let w' := snd (schedule_next ev w) in
  ticks w' = ticks w /\
  (length (List.filter waiting (timers w')) <= 1)%nat /\
  forall t tm, timers w' !! t = Some tm -> tstate tm = Waiting ->
               _timer (self w') = Assigned (Some t).
Proof.
  intros Hnone w'.
  destruct (schedule_next_spec ev w) as [_ Ht].
  destruct (schedule_next_frame ev w) as (_ & _ & Ha).
  assert (Hk : ticks w' = ticks w).
  { subst w'. unfold schedule_next, bind, get_self, Timer, modify_self, Timer_start.
    simpl. now destruct (timer_start ev) as [[]|e]. }
  fold w' in Ht, Ha. split; [exact Hk|]. split.
  - rewrite Ht, (count_snoc waiting), Hnone. unfold weight, waiting. simpl.
    destruct (timer_start ev); simpl; lia.
  - intros t tm Hl Hwait. rewrite Ha. rewrite Ht in Hl.
    apply lookup_app_Some in Hl as [Hl | [Hge Hl]].
    + pose proof (count_none waiting (timers w) Hnone t tm Hl) as Hf.
      unfold waiting in Hf. rewrite Hwait in Hf. discriminate.
    + destruct (t - length (timers w))%nat as [|n] eqn:Hd; [|discriminate].
      do 2 f_equal. lia.
Qed.

Lemma alter_out_of_range {A} (g : A -> A) (l : list A) (i : nat) :
  l !! i = None -> alter g i l = l.
Proof.
  revert i. induction l as [|z l IH]; intros [|i] Hi; try discriminate; [reflexivity..|].
  cbn. f_equal. now apply IH.
Qed.

(** Marking a timer as no longer waiting keeps the chain in order. *)
Lemma one_chain_retire (g : timer -> timer) (i : nat) (w w' : world) :
  (forall tm, waiting (g tm) = false) ->
  timers w' = alter g i (timers w) -> ticks w' = ticks w ->
  _timer (self w') = _timer (self w) ->
  one_chain w ->
  one_chain w' /\
  (length (List.filter waiting (timers w')) <= length (List.filter waiting (timers w)))%nat.
Proof.
  intros Hg Ht Hk Ha [Hl Hw]. unfold one_chain, chain_links in *. rewrite Ht, Hk, Ha.
  assert (Hle : (length (List.filter waiting (alter g i (timers w))) <=
                 length (List.filter waiting (timers w)))%nat).
  { destruct (timers w !! i) as [tm|] eqn:Hi.
    - pose proof (count_alter waiting g (timers w) i tm Hi) as Hc.
      unfold weight in Hc. rewrite Hg in Hc. destruct (waiting tm); lia.
    - now rewrite alter_out_of_range. }
  split; [|exact Hle]. split; [lia|].
  intros t tm Hlk Hwait. destruct (decide (i = t)) as [->|Hne].
  - rewrite list_lookup_alter_eq in Hlk.
    destruct (timers w !! t) as [tm0|]; [|discriminate]. injection Hlk as <-.
    specialize (Hg tm0). unfold waiting in Hg. rewrite Hwait in Hg. discriminate.
  - rewrite list_lookup_alter_ne in Hlk by exact Hne. now apply (Hw t tm).
Qed.

(** A timer thread moving on without touching the timers. *)
Lemma one_chain_move (i : nat) (pc pc' : tick_pc) (w w' : world) :
  ticks w !! i = Some pc -> running pc = true ->
  timers w' = timers w -> ticks w' = <[i:=pc']> (ticks w) ->
  _timer (self w') = _timer (self w) ->
  one_chain w -> one_chain w'.
Proof.
  intros Hpc Hrun Ht Hk Ha [Hl Hw]. unfold one_chain, chain_links in *.
  rewrite Ht, Hk, Ha. split; [|exact Hw].
  pose proof (count_insert running (ticks w) i pc pc' Hpc) as Hc.
  unfold weight in Hc. rewrite Hrun in Hc. destruct (running pc'); lia.
Qed.

Lemma one_chain_teardown : preserves one_chain teardown.
Proof.
  intros w Hw. destruct (_timer (self w)) as [|t] eqn:Ht.
  - apply (one_chain_view w); [|exact Hw].
    unfold teardown, bind, modify_self, get_self, raise, chain_view. simpl.
    rewrite Ht. simpl. now rewrite Ht.
  - rewrite (teardown_spec w t Ht). destruct t as [i|].
    + cbn [snd].
      match goal with
      | |- one_chain ?w' =>
          apply (fun Hg => proj1 (one_chain_retire
                   (fun x => match tstate x with
                             | Fired => x
                             | _ => set_tstate Cancelled x
                             end) i w w' Hg eq_refl eq_refl eq_refl Hw))
      end.
      intros tm. unfold waiting. now destruct (tstate tm) eqn:E; cbn; rewrite ?E.
    + apply (one_chain_view w); [|exact Hw]. reflexivity.
Qed.

Lemma one_chain_timer_fires t : preserves one_chain (timer_fires t).
Proof.
  intros w Hw. unfold timer_fires.
  destruct (timers w !! t) as [tm|] eqn:Hlk; [|exact Hw].
  destruct (tstate tm) eqn:Hst; try exact Hw. cbn [snd].
  destruct Hw as [Hl Hwait]. unfold one_chain, chain_links in *.
  cbn [timers ticks self with_ticks with_timers]. split.
  - pose proof (count_alter waiting (set_tstate Fired) (timers w) t tm Hlk) as Hc.
    assert (H1 : waiting tm = true) by (unfold waiting; now rewrite Hst).
    assert (H2 : waiting (set_tstate Fired tm) = false) by reflexivity.
    unfold weight in Hc. rewrite H1, H2 in Hc.
    rewrite (count_snoc running). unfold weight. cbn [running]. lia.
  - intros t' tm' Hlk' Hw'. destruct (decide (t = t')) as [->|Hne].
    + rewrite list_lookup_alter_eq, Hlk in Hlk'. injection Hlk' as <-. discriminate Hw'.
    + rewrite list_lookup_alter_ne in Hlk' by exact Hne. now apply (Hwait t' tm').
Qed.

Lemma one_chain_tick_step i ev : preserves one_chain (tick_step i ev).
Proof.
  intros w Hw. unfold tick_step, set_pc.
  destruct (ticks w !! i) as [pc|] eqn:Hpc; [|exact Hw].
  destruct pc; try exact Hw; cbn [snd].
  - eapply (one_chain_move i AtGuard); [exact Hpc | reflexivity.. | exact Hw].
  - eapply (one_chain_move i AtSnapshot); [exact Hpc | reflexivity.. | exact Hw].
  - pose proof (view_snapshot_body (chain_view w) ev w eq_refl) as Hv.
    cbn beta in Hv. unfold chain_view in Hv. injection Hv as Ht Hk Ha.
    destruct (snapshot_body ev w) as [[u|e] w']; cbn [snd] in *.
    + eapply (one_chain_move i InSnapshot AtReschedule);
        [exact Hpc | reflexivity | exact Ht | cbn; now rewrite Hk | exact Ha | exact Hw].
    + eapply (one_chain_move i InSnapshot TickDone);
        [exact Hpc | reflexivity | exact Ht | cbn; now rewrite Hk | exact Ha | exact Hw].
  - (* the thread is the chain's only link: no timer is waiting *)
    destruct Hw as [Hl Hwait]. unfold chain_links in Hl.
    pose proof (count_some running (ticks w) i AtReschedule Hpc eq_refl) as Hrun.
    assert (Hnone : length (List.filter waiting (timers w)) = 0%nat) by lia.
    destruct (schedule_next_chain ev w Hnone) as (Hk & Hle & Hw').
    destruct (schedule_next ev w) as [r w']; cbn [snd] in *.
    unfold one_chain, chain_links. cbn [timers ticks self with_ticks]. split; [|exact Hw'].
    rewrite Hk.
    pose proof (count_insert running (ticks w) i AtReschedule TickDone Hpc) as Hc.
    unfold weight in Hc. cbn in Hc. lia.
Qed.

Lemma one_chain_exec e : is_setup e = false -> preserves one_chain (exec e).
Proof.
  destruct e as [ev| |x ev|t|i ev|ev]; cbn [exec is_setup]; intros Hns;
    [discriminate| | | | |].
  - apply one_chain_teardown.
  - apply preserves_excepthook; [intros id|].
    + apply one_chain_kept. intros c. view_primitive.
    + apply one_chain_kept. intros c. apply view_crash_body.
  - apply one_chain_timer_fires.
  - apply one_chain_tick_step.
  - apply preserves_upload_worker; [now intros [] n|].
    apply one_chain_kept. intros c. apply view_upload_pass.
Qed.

(** The first [setup] starts a chain of one link, or none. *)
Lemma one_chain_setup a h ev : one_chain (snd (setup ev (boot a h))).
Proof.
  rewrite setup_split. destruct (worker_start ev) as [[]|e]; cbn [snd].
  2:{ split; [cbn; lia|]. intros t tm Hl. discriminate Hl. }
  set (w0 := hook_installed (boot a h)).
  assert (H0 : timers w0 = [] /\ ticks w0 = []) by now split.
  destruct H0 as [Ht0 Hk0]. clearbody w0.
  assert (Hidle : forall v, chain_view v = chain_view w0 -> one_chain v).
  { intros v [= Ht Hk Ha]. unfold one_chain, chain_links. rewrite Ht, Hk, Ht0, Hk0.
    split; [cbn; lia|]. intros t tm Hl. discriminate Hl. }
  unfold setup_tail, bind at 1, get_self. cbn [fst snd].
  destruct (negb (mode_eq (mode (self w0)) "errors_only")).
  2:{ cbn. now apply Hidle. }
  unfold bind at 1.
  assert (Hstart : one_chain (snd (_start_snapshot_timer ev w0))).
  { unfold _start_snapshot_timer, bind, get_self. cbn [fst snd].
    destruct (timer_guard (self w0)); [|now apply Hidle].
    destruct (snapshot_state_frame ev w0) as (Hself & _ & _ & _ & Ht & Hk & _).
    destruct (_snapshot_state ev w0) as [[u|e] w1]; cbn [snd] in *.
    - assert (Hnone : length (List.filter waiting (timers w1)) = 0%nat)
        by now rewrite Ht, Ht0.
      destruct (schedule_next_chain ev w1 Hnone) as (Hk' & Hle & Hw').
      unfold one_chain, chain_links. rewrite Hk', Hk, Hk0.
      split; [cbn [List.filter length]; lia | exact Hw'].
    - apply Hidle. unfold chain_view.
      pose proof (f_equal _timer Hself) as Ha. cbn in Ha. now rewrite Ht, Hk, Ha. }
  destruct (_start_snapshot_timer ev w0) as [[u|e] w1]; cbn [snd] in *; [|exact Hstart].
  apply (one_chain_view w1); [reflexivity | exact Hstart].
Qed.

(** *** After [teardown] *)

Lemma count_le {A} (f g : A -> bool) (l : list A) :
  (forall x, f x = true -> g x = true) ->
  (length (List.filter f l) <= length (List.filter g l))%nat.
Proof.
  intros Hfg. induction l as [|x l IH]; [reflexivity|]. simpl.
  destruct (f x) eqn:Hf; [rewrite (Hfg x Hf)|destruct (g x)]; simpl; lia.
Qed.

Lemma due_view w v : chain_view v = chain_view w -> timers_due v = timers_due w.
Proof. unfold chain_view, timers_due. intros [= Ht Hk _]. now rewrite Ht, Hk. Qed.

(** [teardown] creates no timer and moves no timer thread. *)
Lemma due_teardown w : timers_due (snd (teardown w)) = timers_due w.
Proof.
  destruct (_timer (self w)) as [|t] eqn:Ht.
  - apply due_view. unfold teardown, bind, modify_self, get_self, raise, chain_view. simpl.
    rewrite Ht. simpl. now rewrite Ht.
  - rewrite (teardown_spec w t Ht). unfold timers_due. cbn [snd timers ticks with_log
      with_excepthook with_timers with_self].
    destruct t as [i|]; [now rewrite length_alter | reflexivity].
Qed.

(** Once the stop flag is set, [setup] creates no timer. *)
Lemma due_setup_stopped ev w : stopped w -> timers_due (snd (setup ev w)) = timers_due w.
Proof.
  intros Hs. unfold stopped in Hs. rewrite setup_split.
  destruct (worker_start ev) as [[]|e]; cbn [snd]; [|reflexivity].
  unfold setup_tail, _start_snapshot_timer, bind, get_self, timer_guard, hook_installed,
    logger, ret.
  cbn. destruct (mode_eq (mode (self w)) "errors_only"); cbn; rewrite ?Hs; reflexivity.
Qed.

(** Once the stop flag is set, no event adds to the timers that exist or are
    yet to be created: a timer thread at the guard ends there, and one past
    the guard creates the timer it was to create. *)
Lemma due_step w e : stopped w -> (timers_due (step w e) <= timers_due w)%nat.
Proof.
  intros Hs. unfold step. destruct e as [ev| |x ev|t|i ev|ev]; cbn [exec].
  - now rewrite due_setup_stopped.
  - now rewrite due_teardown.
  - rewrite (due_view w); [reflexivity|].
    apply (preserves_excepthook (fun v => chain_view v = chain_view w));
      [intros id; view_primitive | apply view_crash_body | reflexivity].
  - unfold timer_fires. destruct (timers w !! t) as [tm|]; [|reflexivity].
    destruct (tstate tm); try reflexivity.
    unfold timers_due. cbn [snd timers ticks with_ticks with_timers].
    rewrite length_alter, (count_snoc past_guard). unfold weight. cbn [past_guard]. lia.
  - unfold tick_step, set_pc. destruct (ticks w !! i) as [pc|] eqn:Hpc; [|reflexivity].
    destruct pc; try reflexivity; cbn [snd].
    + unfold timer_guard. rewrite Hs. cbn [negb andb].
      unfold timers_due. cbn [timers ticks with_ticks].
      pose proof (count_insert past_guard (ticks w) i AtGuard TickDone Hpc) as Hc.
      unfold weight in Hc. cbn [past_guard] in Hc. lia.
    + rewrite Hs. unfold timers_due. cbn [timers ticks with_ticks].
      pose proof (count_insert past_guard (ticks w) i AtSnapshot AtReschedule Hpc) as Hc.
      unfold weight in Hc. cbn [past_guard] in Hc. lia.
    + pose proof (view_snapshot_body (chain_view w) ev w eq_refl) as Hv.
      cbn beta in Hv. unfold chain_view in Hv. injection Hv as Ht Hk _.
      destruct (snapshot_body ev w) as [[u|e] w']; cbn [snd] in *;
        unfold timers_due; cbn [timers ticks with_ticks]; rewrite Ht, Hk.
      * pose proof (count_insert past_guard (ticks w) i InSnapshot AtReschedule Hpc) as Hc.
        unfold weight in Hc. cbn [past_guard] in Hc. lia.
      * pose proof (count_insert past_guard (ticks w) i InSnapshot TickDone Hpc) as Hc.
        unfold weight in Hc. cbn [past_guard] in Hc. lia.
    + destruct (schedule_next_spec ev w) as [_ Ht].
      assert (Hk : ticks (snd (schedule_next ev w)) = ticks w).
      { unfold schedule_next, bind, get_self, Timer, modify_self, Timer_start. simpl.
        now destruct (timer_start ev) as [[]|e]. }
      destruct (schedule_next ev w) as [r w']; cbn [snd] in *.
      unfold timers_due. cbn [timers ticks with_ticks]. rewrite Ht, Hk, length_app.
      pose proof (count_insert past_guard (ticks w) i AtReschedule TickDone Hpc) as Hc.
      unfold weight in Hc. cbn [past_guard length] in Hc |- *. lia.
  - rewrite (due_view w); [reflexivity|].
    apply (preserves_upload_worker (fun v => chain_view v = chain_view w));
      [now intros [] n | apply view_upload_pass | reflexivity].
Qed.

Lemma due_run es : forall w, stopped w -> (timers_due (run es w) <= timers_due w)%nat.
Proof.
  induction es as [|e es IH]; intros w Hs; [reflexivity|]. cbn [run fold_left].
  fold (run es (step w e)).
  pose proof (due_step w e Hs) as H1.
  pose proof (IH (step w e) (proj1 (stopped_step w e Hs))) as H2. lia.
Qed.

(** X14. After one [setup], the scheduler's chain never forks: at any time
    at most one timer is waiting or one timer thread running, never both,
    and a waiting timer is the one [_timer] refers to, so that [teardown]
    cancels it and leaves no timer waiting. A timer thread that had passed
    the guard of line 79 when [teardown] ran goes on to start its timer, for
    nothing reads the stop flag after the guard; that is the only timer ever
    created after [teardown], whatever happens later, a new [setup]
    included. *)
Theorem scheduler_chain_never_forks
    (a : init_args) (h : nat) (ev : env) (es later : list event) :
  no_setup es = true ->
  let w := run (CallSetup ev :: es) (boot a h) in
  (chain_links w <= 1)%nat /\
  (forall t tm, timers w !! t = Some tm -> tstate tm = Waiting ->
                _timer (self w) = Assigned (Some t)) /\
  (forall t tm, timers (snd (teardown w)) !! t = Some tm -> tstate tm <> Waiting) /\
  (length (List.filter past_guard (ticks w)) <= 1)%nat /\
  (length (timers (run later (snd (teardown w)))) <=
   length (timers w) + length (List.filter past_guard (ticks w)))%nat.
Proof.
  intros Hes w.
  assert (Hw : one_chain w).
  { subst w. cbn [run fold_left]. fold (run es (step (boot a h) (CallSetup ev))).
    apply preserves_run_without_setup; [exact one_chain_exec | exact Hes |].
    apply one_chain_setup. }
  split; [apply Hw|]. split; [apply Hw|]. split; [|split].
  - intros t tm Hlk Hst.
    destruct (_timer (self w)) as [|tt] eqn:Ha.
    + (* teardown raised: no timer exists that could wait *)
      destruct Hw as [_ Hwait].
      assert (Htm : timers (snd (teardown w)) = timers w).
      { unfold teardown, bind, modify_self, get_self, raise. simpl. now rewrite Ha. }
      rewrite Htm in Hlk. specialize (Hwait t tm Hlk Hst). congruence.
    + rewrite (teardown_spec w tt Ha) in Hlk.
      cbn [snd timers with_log with_excepthook with_timers] in Hlk.
      destruct Hw as [_ Hwait]. destruct tt as [i|].
      * destruct (decide (i = t)) as [->|Hne].
        -- rewrite list_lookup_alter_eq in Hlk.
           destruct (timers w !! t) as [tm0|]; [|discriminate]. injection Hlk as <-.
           destruct (tstate tm0) eqn:E; cbn in Hst; rewrite ?E in Hst; discriminate Hst.
        -- rewrite list_lookup_alter_ne in Hlk by exact Hne.
           specialize (Hwait t tm Hlk Hst). congruence.
      * specialize (Hwait t tm Hlk Hst). congruence.
  - destruct Hw as [Hl _]. unfold chain_links in Hl.
    pose proof (count_le past_guard running (ticks w)) as Hc.
    assert (Hpr : forall pc, past_guard pc = true -> running pc = true) by now intros [].
    specialize (Hc Hpr). lia.
  - pose proof (due_run later (snd (teardown w)) (teardown_sets_stop w)) as Hd.
    rewrite due_teardown in Hd. unfold timers_due in Hd. lia.
Qed.

(** [teardown] while a timer thread is between the guard and its snapshot:
    the thread goes on, enqueues and starts the second timer; that timer
    fires and its thread ends at the guard. No third timer is created. *)
Lemma scheduler_chain_never_forks_witness :
  let w := run [CallSetup Scenario.healthy; TimerFires 0;
                TickStep 0 Scenario.healthy; TickStep 0 Scenario.healthy]
               (boot (Scenario.args "activity") 0) in
  let later := [TickStep 0 Scenario.healthy; TickStep 0 Scenario.healthy; TimerFires 1;
                TickStep 1 Scenario.healthy; TickStep 1 Scenario.healthy; TimerFires 2;
                CallSetup Scenario.healthy] in
  ticks w = [InSnapshot] /\
  map tstate (timers (run later (snd (teardown w)))) = [Fired; Fired] /\
  ticks (run later (snd (teardown w))) = [TickDone; TickDone] /\
  (length (timers (run later (snd (teardown w)))) <=
   length (timers w) + length (List.filter past_guard (ticks w)))%nat.
Proof.
  cbv zeta.
  split; [vm_compute; reflexivity|]. split; [vm_compute; reflexivity|].
  split; [vm_compute; reflexivity|].
  exact (proj2 (proj2 (proj2 (proj2
    (scheduler_chain_never_forks (Scenario.args "activity") 0 Scenario.healthy
       [TimerFires 0; TickStep 0 Scenario.healthy; TickStep 0 Scenario.healthy]
       [TickStep 0 Scenario.healthy; TickStep 0 Scenario.healthy; TimerFires 1;
        TickStep 1 Scenario.healthy; TickStep 1 Scenario.healthy; TimerFires 2;
        CallSetup Scenario.healthy] eq_refl))))).
Defined.

(** ** One session *)

Lemma session_with_self {A} s (k : plugin -> py A) :
  (forall p, session_id p = s -> preserves (one_session s) (k p)) ->
  preserves (one_session s) (bind get_self k).
Proof.
  intros H w Hw. unfold bind, get_self. cbn [fst snd]. apply H; [apply Hw | exact Hw].
Qed.

Lemma session_put s hb :
  heartbeat_of_session s hb -> preserves (one_session s) (queue_put_nowait hb).
Proof.
  intros Hhb w (Hs & He & Hp). unfold queue_put_nowait, one_session.
  destruct (put_nowait hb (queue (self w))) as [[u|e] q]; simpl.
  - split; [exact Hs|]. split; [|exact Hp].
    apply Forall_app. split; [exact He|]. now constructor.
  - now split.
Qed.

Lemma session_post s url p t r :
  crash_post_of_session s {| post_url := url; post_json := p; post_timeout := t |} ->
  preserves (one_session s) (requests_post url p t r).
Proof.
  intros Hcr w (Hs & He & Hp). unfold requests_post, one_session. simpl.
  split; [exact Hs|]. split; [exact He|].
  apply Forall_app. split; [exact Hp|]. now constructor.
Qed.

Ltac session_self :=
  idtac;
  match goal with
  | |- preserves _ (bind get_self _) => apply session_with_self; intros ? ?
  end.

Ltac session_struct := preserves_with session_self.

Ltac session_primitive :=
  first [ apply session_put; split; [reflexivity | assumption]
        | apply session_post; unfold crash_post_of_session; cbn;
          first [exact I | split; [reflexivity | assumption]]
        | primitive; unfold one_session in *; simpl;
          repeat match goal with
                 | |- context [match ?x with _ => _ end] => destruct x; simpl
                 end;
          assumption ].

Lemma session_snapshot_body s ev : preserves (one_session s) (snapshot_body ev).
Proof. unfold snapshot_body. session_struct; session_primitive. Qed.

Lemma session_schedule_next s ev : preserves (one_session s) (schedule_next ev).
Proof. unfold schedule_next. session_struct; session_primitive. Qed.

Lemma session_exec s e : preserves (one_session s) (exec e).
Proof.
  destruct e as [ev| |x ev|t|i ev|ev]; cbn [exec].
  - unfold setup, _start_snapshot_timer, _snapshot_state.
    preserves_with
      ltac:(first [ apply session_snapshot_body | apply session_schedule_next
                  | session_self ]);
      session_primitive.
  - unfold teardown. session_struct; session_primitive.
  - apply preserves_excepthook; [intros id|unfold crash_body];
      session_struct; session_primitive.
  - apply preserves_timer_fires; now intros [] l.
  - apply preserves_tick_step;
      [now intros [] l | apply session_snapshot_body | apply session_schedule_next].
  - apply preserves_upload_worker; [now intros [] n|].
    unfold upload_pass. session_struct; session_primitive.
Qed.

Lemma posts_of_session s ps :
  Forall (heartbeat_of_session s) (heartbeat_posts ps) ->
  Forall (crash_post_of_session s) ps ->
  Forall (post_of_session s) ps.
Proof.
  induction ps as [|p ps IH]; intros Hh Hc; [constructor|].
  apply Forall_cons in Hc as [Hc1 Hc2].
  unfold heartbeat_posts in Hh. cbn [omap list_omap] in Hh. fold (heartbeat_posts ps) in Hh.
  constructor.
  - unfold post_of_session, crash_post_of_session in *.
    destruct (post_json p) as [hb|cr]; [|exact Hc1].
    now apply Forall_cons in Hh as [Hh1 _].
  - apply IH; [|exact Hc2].
    destruct (post_json p) as [hb|cr]; [|exact Hh].
    now apply Forall_cons in Hh as [_ Hh2].
Qed.

(** X15. The session is read once, by the constructor ([unknown-session]
    when the state has none), and never again: in every world the process
    can reach, every heartbeat the queue accepted and every payload handed to
    the transport carries that session, under the type [heartbeat] or
    [crash]. *)
Theorem payloads_carry_constructor_session (a : init_args) (h : nat) (es : list event) :
  let s := default "unknown-session" (state_session_id a) in
  let w := run es (boot a h) in
  session_id (self w) = s /\
  Forall (heartbeat_of_session s) (enqueued w) /\
  Forall (post_of_session s) (posts w).
Proof.
  intros s w.
  assert (H : one_session s w).
  { apply preserves_run; [intros e; apply session_exec|].
    split; [reflexivity|]. split; constructor. }
  assert (Hf : fifo (telemetry_url (__init__ a)) w).
  { apply preserves_run; [intros e; apply fifo_exec|].
    split; [reflexivity|]. now exists []. }
  destruct H as (Hs & He & Hp). destruct Hf as (_ & taken & Hq & Hposts).
  split; [exact Hs|]. split; [exact He|].
  apply posts_of_session; [|exact Hp].
  rewrite Hposts. rewrite Hq in He. apply Forall_app in He as [Htaken _].
  rewrite Forall_forall in Htaken |- *.
  intros hb Hin. apply Htaken. apply list_elem_of_In, List.filter_In in Hin as [Hin _].
  now apply list_elem_of_In.
Qed.
